(** * Trading-bot core: indicator library and signal engine

    A shallow embedding of the numeric core of the trading bot:
    [analysis/technical_analysis.py], [indicators/custom_indicators.py],
    [config/settings.py], the two core functions of [main.py]
    ([fetch_and_analyze_data], [generate_trading_signals]), the data
    fetcher [utils/data_fetcher.py] and the helpers [get_hot_cryptos] and
    [initialize_session_state] of [main.py].

    Outside.  The exchange is a reply that either returns rows of six
    numbers or raises, and the conversion of a timestamp to a date either
    returns or raises; the streamlit cache is not modelled, and neither
    are the plots and the dashboard layout ([plot_technical_analysis],
    [display_trading_dashboard], [main]).

    Frames.  A pandas DataFrame is a record of its index and a finite map
    from column names to series; an indicator takes the frame and returns it
    with its columns added (the in-place update of the source, as state
    passing).  Reading a missing column or the last row of an empty series
    raises, which is the [Raise] of [result].

    Numbers.  A pandas column holds float64 values.  The values of a column
    are modelled by [num]: the IEEE special values (not-a-number, the two
    infinities) and the finite values as exact rationals.  The rules for the
    special values are those of IEEE-754 as numpy applies them to a Series
    (division by zero gives an infinity or not-a-number and raises nothing;
    every comparison with not-a-number is false).  Finite arithmetic is
    exact: the rounding of the pandas kernels is not part of the repository
    and is not modelled, and there is no negative zero.  The square root of
    the rolling standard deviation is a parameter.  The confidence score of
    the signal engine only ever adds the literals 0.3 and 0.2, so it is kept
    as a genuine binary64 [float].

    Rounding.  A property that compares the results of different
    roundings (a strict order, an equality of two computed values) is
    stated for exact arithmetic and says so; what it becomes in binary64
    is shown on the formulas of the source evaluated on binary64 numbers
    ([Binary64]).  A property stated without that proviso does not depend
    on the rounding. *)

From Stdlib Require Import ZArith QArith Qabs Qround Lqa Lia Floats.
From stdpp Require Import base option list gmap strings pretty.

Set Warnings "-inexact-float".

(** ** Column values *)

Inductive num : Type :=
  | NaN
  | NInf
  | PInf
  | Fin (q : Q).

Abbreviation Series := (list num).

Definition of_Z (z : Z) : num := Fin (inject_Z z).

Definition Qltb (a b : Q) : bool := negb (Qle_bool b a).

Definition Qsign (a : Q) : Z := Z.sgn (Qnum a).

Definition inf_of_sign (s : Z) : num :=
  match s with
  | Z0 => NaN
  | Zpos _ => PInf
  | Zneg _ => NInf
  end.

Definition num_opp (x : num) : num :=
  match x with
  | NaN => NaN
  | NInf => PInf
  | PInf => NInf
  | Fin a => Fin (- a)
  end.

Definition num_add (x y : num) : num :=
  match x, y with
  | NaN, _ | _, NaN => NaN
  | PInf, NInf | NInf, PInf => NaN
  | PInf, _ | _, PInf => PInf
  | NInf, _ | _, NInf => NInf
  | Fin a, Fin b => Fin (a + b)
  end.

Definition num_sub (x y : num) : num := num_add x (num_opp y).

Definition num_mul (x y : num) : num :=
  match x, y with
  | NaN, _ | _, NaN => NaN
  | Fin a, Fin b => Fin (a * b)
  | Fin a, PInf | PInf, Fin a => inf_of_sign (Qsign a)
  | Fin a, NInf | NInf, Fin a => inf_of_sign (- Qsign a)
  | PInf, PInf | NInf, NInf => PInf
  | PInf, NInf | NInf, PInf => NInf
  end.

(** Series division: a zero divisor gives an infinity of the sign of the
    dividend, and 0/0 is not-a-number. *)
Definition num_div (x y : num) : num :=
  match x, y with
  | NaN, _ | _, NaN => NaN
  | Fin a, Fin b => if Qeq_bool b 0 then inf_of_sign (Qsign a) else Fin (a / b)
  | Fin _, (PInf | NInf) => Fin 0
  | (PInf | NInf), (PInf | NInf) => NaN
  | PInf, Fin b => if Qle_bool 0 b then PInf else NInf
  | NInf, Fin b => if Qle_bool 0 b then NInf else PInf
  end.

Definition num_ltb (x y : num) : bool :=
  match x, y with
  | NaN, _ | _, NaN => false
  | Fin a, Fin b => Qltb a b
  | _, NInf => false
  | NInf, _ => true
  | PInf, _ => false
  | Fin _, PInf => true
  end.

Definition num_gtb (x y : num) : bool := num_ltb y x.

Definition num_leb (x y : num) : bool :=
  match x, y with
  | NaN, _ | _, NaN => false
  | Fin a, Fin b => Qle_bool a b
  | NInf, _ => true
  | _, PInf => true
  | _, NInf => false
  | PInf, _ => false
  end.

Definition num_eqb (x y : num) : bool :=
  match x, y with
  | Fin a, Fin b => Qeq_bool a b
  | PInf, PInf | NInf, NInf => true
  | _, _ => false
  end.

(** [pd.isna] on one value. *)
Definition isna (x : num) : bool :=
  match x with
  | NaN => true
  | _ => false
  end.

Definition notna (x : num) : bool := negb (isna x).

Definition is_finite (x : num) : bool :=
  match x with
  | Fin _ => true
  | _ => false
  end.

Definition finite (x : num) : Prop := is_finite x = true.

#[global] Instance num_inhabited : Inhabited num := populate NaN.

Declare Scope num_scope.
Delimit Scope num_scope with num.
Bind Scope num_scope with num.
Infix "+" := num_add : num_scope.
Infix "-" := num_sub : num_scope.
Infix "*" := num_mul : num_scope.
Infix "/" := num_div : num_scope.
Notation "- x" := (num_opp x) : num_scope.
Infix "<?" := num_ltb : num_scope.
Infix ">?" := num_gtb : num_scope.
Infix "<=?" := num_leb : num_scope.
Infix "=?" := num_eqb : num_scope.

(** The order and the equality of Python on column values, as propositions. *)
Definition num_lt (x y : num) : Prop := num_ltb x y = true.
Definition num_le (x y : num) : Prop := num_leb x y = true.
Definition num_eq (x y : num) : Prop := num_eqb x y = true.
Definition defined (x : num) : Prop := isna x = false.
Definition undefined (x : num) : Prop := isna x = true.

Infix "<" := num_lt : num_scope.
Infix "<=" := num_le : num_scope.
Infix "==" := num_eq (at level 70, no associativity) : num_scope.

(** ** Exceptions *)

Inductive exception : Type :=
  | KeyError (key : string)
  | IndexError.

Inductive result (A : Type) : Type :=
  | Ok (a : A)
  | Raise (e : exception).

Arguments Ok {A} a.
Arguments Raise {A} e.

#[global] Instance result_ret : MRet result := λ A a, Ok a.

#[global] Instance result_bind : MBind result := λ A B f m,
  match m with
  | Ok a => f a
  | Raise e => Raise e
  end.

(** ** The pandas operations the core uses *)

Section Pandas.

(** The square root of numpy on the finite non-negative values. *)
Variable sqrtQ : Q → Q.

Definition num_sqrt (x : num) : num :=
  match x with
  | NaN | NInf => NaN
  | PInf => PInf
  | Fin a => if Qle_bool 0 a then Fin (sqrtQ a) else NaN
  end.

(** [Series.diff(n)]: the first [n] positions have no predecessor. *)
Definition diff (n : nat) (s : Series) : Series :=
  replicate (n `min` length s) NaN ++ zip_with num_sub (drop n s) s.

(** [s.where(cond(s), other)]. *)
Definition where_ (cond : num → bool) (other : num) (s : Series) : Series :=
  (λ x, if cond x then x else other) <$> s.

(** The window of [rolling(window=p)] that ends at position [i]. *)
Definition window (p i : nat) (s : Series) : list num :=
  take p (drop (S i - p) s).

(** [s.rolling(window=p).agg()]: [min_periods] defaults to the window
    size, so a position has a value only when the window holds [p]
    observations, none of which is not-a-number. *)
Definition rolling (p : nat) (agg : list num → num) (s : Series) : Series :=
  imap (λ i _,
    if decide (S i < p)%nat then NaN
    else
      let w := window p i s in
      if forallb notna w then agg w else NaN) s.

Definition sum (w : list num) : num := foldl num_add (of_Z 0) w.

Definition mean (w : list num) : num :=
  (sum w / of_Z (Z.of_nat (length w)))%num.

(** The sample standard deviation (ddof = 1), the default of pandas. *)
Definition std (w : list num) : num :=
  let m := mean w in
  num_sqrt (sum ((λ x, (x - m) * (x - m))%num <$> w)
            / of_Z (Z.of_nat (length w) - 1))%num.

Definition num_max (x y : num) : num := if (x <? y)%num then y else x.
Definition num_min (x y : num) : num := if (y <? x)%num then y else x.

Definition max_ (w : list num) : num :=
  match w with
  | [] => NaN
  | x :: w' => foldl num_max x w'
  end.

Definition min_ (w : list num) : num :=
  match w with
  | [] => NaN
  | x :: w' => foldl num_min x w'
  end.

(** [s.ewm(span=span, adjust=False).mean()] on a series without missing
    values: seeded at the first value, then
    [y_t = (1 - alpha) * y_(t-1) + alpha * x_t] with
    [alpha = 2 / (span + 1)]. *)
Fixpoint ewm_from (alpha prev : num) (s : Series) : Series :=
  match s with
  | [] => []
  | x :: s' =>
      let y := ((of_Z 1 - alpha) * prev + alpha * x)%num in
      y :: ewm_from alpha y s'
  end.

Definition ewm_mean (span : Z) (s : Series) : Series :=
  match s with
  | [] => []
  | x :: s' => x :: ewm_from (of_Z 2 / of_Z (span + 1))%num x s'
  end.

End Pandas.

(** ** The series store *)

Record DataFrame : Type := mkDataFrame {
  index : list Z;
  columns : gmap string Series
}.

(** [data.empty]: no rows or no columns. *)
Definition empty_ (data : DataFrame) : bool :=
  bool_decide (index data = []) || bool_decide (columns data = ∅).

(** [data[key]]. *)
Definition getitem (data : DataFrame) (key : string) : result Series :=
  match columns data !! key with
  | Some s => Ok s
  | None => Raise (KeyError key)
  end.

(** [data[key] = s]. *)
Definition setitem (data : DataFrame) (key : string) (s : Series) : DataFrame :=
  {| index := index data; columns := <[key := s]> (columns data) |}.

(** [data[key]] as a plain series; it is empty when the column is missing. *)
Definition column (data : DataFrame) (key : string) : Series :=
  default [] (columns data !! key).

(** [s.iloc[-1]]. *)
Definition iloc_last (s : Series) : result num :=
  match last s with
  | Some x => Ok x
  | None => Raise IndexError
  end.


(** ** Configuration ([config/settings.py]) *)

Module TRADING_CONFIG.
Definition default_timeframe : string := "1d".
Definition default_limit : Z := 365.
Definition risk_percentage : Z := 2.
Definition stop_loss_multiplier : Z := 2.
Definition take_profit_multiplier : Z := 3.
End TRADING_CONFIG.

Module TA_PARAMS.
Definition rsi_period : Z := 14.
Definition rsi_overbought : Z := 70.
Definition rsi_oversold : Z := 30.
Definition macd_fast : Z := 12.
Definition macd_slow : Z := 26.
Definition macd_signal : Z := 9.
Definition bb_period : Z := 20.
Definition bb_std : Z := 2.
End TA_PARAMS.

(** ** Indicator library *)

Section Indicators.

Variable sqrtQ : Q → Q.

(** The local variables [gain] and [loss] of [calculate_rsi].  The first
    delta is not-a-number, and [where] turns it into a zero gain and a
    zero loss. *)
Definition rsi_gain (period : nat) (close : Series) : Series :=
  let delta := diff 1 close in
  rolling period mean (where_ (λ d, d >? of_Z 0)%num (of_Z 0) delta).

Definition rsi_loss (period : nat) (close : Series) : Series :=
  let delta := diff 1 close in
  rolling period mean (num_opp <$> where_ (λ d, d <? of_Z 0)%num (of_Z 0) delta).

(** [TechnicalAnalyzer.calculate_rsi(period=14)]. *)
Definition calculate_rsi (period : nat) (data : DataFrame) : result DataFrame :=
  close ← getitem data "close";
  let gain := rsi_gain period close in
  let loss := rsi_loss period close in
  let rs := zip_with num_div gain loss in
  mret (setitem data "RSI" ((λ r, of_Z 100 - of_Z 100 / (of_Z 1 + r))%num <$> rs)).

(** [TechnicalAnalyzer.calculate_macd(short_period=12, long_period=26,
    signal_period=9)]. *)
Definition calculate_macd (short_period long_period signal_period : Z)
    (data : DataFrame) : result DataFrame :=
  close ← getitem data "close";
  let exp1 := ewm_mean short_period close in
  close ← getitem data "close";
  let exp2 := ewm_mean long_period close in
  let data := setitem data "MACD" (zip_with num_sub exp1 exp2) in
  macd ← getitem data "MACD";
  mret (setitem data "Signal_Line" (ewm_mean signal_period macd)).

(** [TechnicalAnalyzer.calculate_bollinger_bands(period=20, std_dev=2)]. *)
Definition calculate_bollinger_bands (period : nat) (std_dev : num)
    (data : DataFrame) : result DataFrame :=
  close ← getitem data "close";
  let data := setitem data "BB_middle" (rolling period mean close) in
  close ← getitem data "close";
  let bb_std := rolling period (std sqrtQ) close in
  middle ← getitem data "BB_middle";
  let data := setitem data "BB_upper"
    (zip_with num_add middle ((λ s, s * std_dev)%num <$> bb_std)) in
  middle ← getitem data "BB_middle";
  mret (setitem data "BB_lower"
    (zip_with num_sub middle ((λ s, s * std_dev)%num <$> bb_std))).

(** [TechnicalAnalyzer.calculate_fibonacci_levels(period=14)]. *)
Definition calculate_fibonacci_levels (period : nat) (data : DataFrame)
    : result DataFrame :=
  high ← getitem data "high";
  let high_max := rolling period max_ high in
  low ← getitem data "low";
  let low_min := rolling period min_ low in
  let diff := zip_with num_sub high_max low_min in
  let level (f : Q) := zip_with num_add low_min ((λ d, d * Fin f)%num <$> diff) in
  let data := setitem data "Fib_0" low_min in
  let data := setitem data "Fib_236" (level 0.236%Q) in
  let data := setitem data "Fib_382" (level 0.382%Q) in
  let data := setitem data "Fib_500" (level 0.500%Q) in
  let data := setitem data "Fib_618" (level 0.618%Q) in
  mret (setitem data "Fib_100" high_max).

(** [TechnicalAnalyzer.calculate_all_indicators()], every indicator with
    its default parameters. *)
Definition calculate_all_indicators (data : DataFrame) : result DataFrame :=
  data ← calculate_rsi 14 data;
  data ← calculate_macd 12 26 9 data;
  data ← calculate_bollinger_bands 20 (of_Z 2) data;
  calculate_fibonacci_levels 14 data.

(** [calculate_support_resistance(data, window=20)]. *)
Definition calculate_support_resistance (window : nat) (data : DataFrame)
    : result DataFrame :=
  low ← getitem data "low";
  let data := setitem data "Support" (rolling window min_ low) in
  high ← getitem data "high";
  mret (setitem data "Resistance" (rolling window max_ high)).

(** [calculate_momentum(data, period=14)]. *)
Definition calculate_momentum (period : nat) (data : DataFrame) : result DataFrame :=
  close ← getitem data "close";
  mret (setitem data "Momentum" (diff period close)).

(** [calculate_pivot_points(data)]. *)
Definition calculate_pivot_points (data : DataFrame) : result DataFrame :=
  high ← getitem data "high";
  low ← getitem data "low";
  close ← getitem data "close";
  let data := setitem data "PP"
    ((λ x, x / of_Z 3)%num <$> zip_with num_add (zip_with num_add high low) close) in
  pp ← getitem data "PP";
  low ← getitem data "low";
  let data := setitem data "R1"
    (zip_with num_sub ((λ x, of_Z 2 * x)%num <$> pp) low) in
  pp ← getitem data "PP";
  high ← getitem data "high";
  let data := setitem data "S1"
    (zip_with num_sub ((λ x, of_Z 2 * x)%num <$> pp) high) in
  pp ← getitem data "PP";
  high ← getitem data "high";
  low ← getitem data "low";
  let data := setitem data "R2" (zip_with num_add pp (zip_with num_sub high low)) in
  pp ← getitem data "PP";
  high ← getitem data "high";
  low ← getitem data "low";
  mret (setitem data "S2" (zip_with num_sub pp (zip_with num_sub high low))).

End Indicators.

(** ** Signal engine ([main.py]) *)

Inductive Action : Type :=
  | BUY
  | SELL.

(** The [signals] dictionary.  [confidence] starts as the integer 0 and
    becomes a float with the first addition; both are the float 0 here. *)
Record Signals : Type := mkSignals {
  action : option Action;
  confidence : float;
  reasons : list string
}.

(** Round to the nearest integer, ties to the even one (for [0 <= a]). *)
Definition round_half_even (a : Q) : Z :=
  let f := Qfloor a in
  match (a - inject_Z f ?= 1 # 2)%Q with
  | Lt => f
  | Gt => (f + 1)%Z
  | Eq => if Z.even f then f else (f + 1)%Z
  end.

Definition two_digits (n : Z) : string :=
  if (n <? 10)%Z then "0" +:+ pretty n else pretty n.

(** The format specification [:.2f]. *)
Definition format_2f (x : num) : string :=
  match x with
  | NaN => "nan"
  | PInf => "inf"
  | NInf => "-inf"
  | Fin a =>
      let n := round_half_even (Qabs a * 100) in
      (if Qltb a 0 then "-" else "") +:+ pretty (n / 100)%Z +:+ "."
        +:+ two_digits (n mod 100)%Z
  end.

(** The three statements every rule runs when it fires. *)
Definition fire (signals : Signals) (reason : string) (weight : float)
    (a : Action) : Signals :=
  {| reasons := reasons signals ++ [reason];
     confidence := (confidence signals + weight)%float;
     action := Some a |}.

Definition generate_trading_signals (data : DataFrame) : result Signals :=
  let signals := {| action := None; confidence := 0%float; reasons := [] |} in
  (* RSI Analysis *)
  rsi ← getitem data "RSI";
  latest_rsi ← iloc_last rsi;
  let signals :=
    if (latest_rsi <? of_Z TA_PARAMS.rsi_oversold)%num then
      fire signals ("RSI oversold (" +:+ format_2f latest_rsi +:+ ")") 0.3%float BUY
    else if (latest_rsi >? of_Z TA_PARAMS.rsi_overbought)%num then
      fire signals ("RSI overbought (" +:+ format_2f latest_rsi +:+ ")") 0.3%float SELL
    else signals in
  (* MACD Analysis *)
  macd ← getitem data "MACD";
  latest_macd ← iloc_last macd;
  signal_line ← getitem data "Signal_Line";
  latest_signal_line ← iloc_last signal_line;
  let signals :=
    if (latest_macd >? latest_signal_line)%num then
      fire signals "MACD crossed above signal line" 0.3%float BUY
    else if (latest_macd <? latest_signal_line)%num then
      fire signals "MACD crossed below signal line" 0.3%float SELL
    else signals in
  (* Bollinger Bands Analysis *)
  close ← getitem data "close";
  latest_close ← iloc_last close;
  bb_lower ← getitem data "BB_lower";
  latest_bb_lower ← iloc_last bb_lower;
  if (latest_close <? latest_bb_lower)%num then
    mret (fire signals "Price below lower Bollinger Band" 0.2%float BUY)
  else
    bb_upper ← getitem data "BB_upper";
    latest_bb_upper ← iloc_last bb_upper;
    if (latest_close >? latest_bb_upper)%num then
      mret (fire signals "Price above upper Bollinger Band" 0.2%float SELL)
    else mret signals.

(** ** Analysis pipeline ([main.py]) *)

(** The calls to the dashboard the pipeline makes. *)
Inductive st_call : Type :=
  | st_error (msg : string).

Section Pipeline.

Variable sqrtQ : Q → Q.

(** [fetch_and_analyze_data(symbol)], where [data] is what
    [data_fetcher.fetch_ohlcv] returned for [symbol].  The result is the
    list of dashboard calls and the returned value ([None] or the enriched
    frame) or the exception that escapes. *)
Definition fetch_and_analyze_data (data : DataFrame) (symbol : string)
    : list st_call * result (option DataFrame) :=
  if empty_ data then
    ([st_error ("Failed to fetch data for " +:+ symbol)], Ok None)
  else
    ([],
     analyzed_data ← calculate_all_indicators sqrtQ data;
     analyzed_data ← calculate_support_resistance 20 analyzed_data;
     analyzed_data ← calculate_momentum 14 analyzed_data;
     analyzed_data ← calculate_pivot_points analyzed_data;
     mret (Some analyzed_data)).

End Pipeline.

(** ** The rule set, as the specification words it

    Each rule group looks at the latest row and says in which direction it
    fires, if it fires.  The engine is then described by the list of the
    three outcomes in the order RSI, MACD, Bollinger. *)

(** The value of column [key] in the latest row. *)
Definition latest (data : DataFrame) (key : string) : result num :=
  getitem data key ≫= iloc_last.

Definition rsi_rule (rsi : num) : option Action :=
  if (rsi <? of_Z 30)%num then Some BUY
  else if (of_Z 70 <? rsi)%num then Some SELL
  else None.

Definition macd_rule (macd signal_line : num) : option Action :=
  if (signal_line <? macd)%num then Some BUY
  else if (macd <? signal_line)%num then Some SELL
  else None.

Definition bollinger_rule (close bb_lower bb_upper : num) : option Action :=
  if (close <? bb_lower)%num then Some BUY
  else if (bb_upper <? close)%num then Some SELL
  else None.

(** The three rule groups, their weights and the text of their reasons. *)
Inductive rule : Type :=
  | RSI_rule
  | MACD_rule
  | Bollinger_rule.

Definition weight (r : rule) : float :=
  match r with
  | RSI_rule => 0.3%float
  | MACD_rule => 0.3%float
  | Bollinger_rule => 0.2%float
  end.

Definition reason_text (rsi : num) (r : rule) (a : Action) : string :=
  match r, a with
  | RSI_rule, BUY => "RSI oversold (" +:+ format_2f rsi +:+ ")"
  | RSI_rule, SELL => "RSI overbought (" +:+ format_2f rsi +:+ ")"
  | MACD_rule, BUY => "MACD crossed above signal line"
  | MACD_rule, SELL => "MACD crossed below signal line"
  | Bollinger_rule, BUY => "Price below lower Bollinger Band"
  | Bollinger_rule, SELL => "Price above upper Bollinger Band"
  end.

(** The outcome of every rule, in evaluation order. *)
Definition rule_outcomes (rsi macd signal_line close bb_lower bb_upper : num)
    : list (rule * option Action) :=
  [(RSI_rule, rsi_rule rsi);
   (MACD_rule, macd_rule macd signal_line);
   (Bollinger_rule, bollinger_rule close bb_lower bb_upper)].

(** The rules that fired, with their direction. *)
Definition fired (outcomes : list (rule * option Action)) : list (rule * Action) :=
  omap (λ ro, (λ a, (ro.1, a)) <$> ro.2) outcomes.

(** The direction of the last rule that fired. *)
Definition last_fired (outcomes : list (rule * option Action)) : option Action :=
  snd <$> last (fired outcomes).

(** The weights of the fired rules, added up in evaluation order. *)
Definition total_weight (outcomes : list (rule * option Action)) : float :=
  foldl (λ acc ra, (acc + weight ra.1)%float) 0%float (fired outcomes).

(** The reasons of the fired rules, in evaluation order. *)
Definition fired_reasons (rsi : num) (outcomes : list (rule * option Action))
    : list string :=
  (λ ra, reason_text rsi ra.1 ra.2) <$> fired outcomes.

(** An exception escapes the evaluation. *)
Definition raises {A : Type} (r : result A) : Prop := ∃ e, r = Raise e.


(** ** Example series *)

Definition frame_of (n : Z) (cols : list (string * Series)) : DataFrame :=
  {| index := seqZ 0 n; columns := list_to_map cols |}.

(** A one-row enriched frame whose RSI is undefined, as it is on a series
    shorter than the RSI period. *)
Definition frame_rsi_undefined : DataFrame :=
  frame_of 1 [("close", [of_Z 10]); ("RSI", [NaN]); ("MACD", [of_Z 1]);
              ("Signal_Line", [of_Z 0]); ("BB_lower", [of_Z 8]);
              ("BB_upper", [of_Z 12])].

(** RSI oversold, MACD above its signal line, close below the lower band. *)
Definition frame_all_buy : DataFrame :=
  frame_of 1 [("close", [of_Z 7]); ("RSI", [of_Z 25]); ("MACD", [of_Z 1]);
              ("Signal_Line", [of_Z 0]); ("BB_lower", [of_Z 8]);
              ("BB_upper", [of_Z 12])].

(** RSI oversold (BUY) but close above the upper band (SELL). *)
Definition frame_conflict : DataFrame :=
  frame_of 1 [("close", [of_Z 13]); ("RSI", [of_Z 25]); ("MACD", [of_Z 0]);
              ("Signal_Line", [of_Z 0]); ("BB_lower", [of_Z 8]);
              ("BB_upper", [of_Z 12])].

(** A square root on the rationals for the examples: the integer square
    root of the integer part. *)
Definition isqrtQ (a : Q) : Q := inject_Z (Z.sqrt (Qfloor a)).

(** Six valid bars. *)
Definition bars_close : Series := of_Z <$> [1; 2; 4; 3; 3; 7]%Z.
Definition bars_high : Series := of_Z <$> [2; 3; 5; 4; 4; 8]%Z.
Definition bars_low : Series := of_Z <$> [0; 1; 3; 2; 2; 6]%Z.

Definition frame_bars : DataFrame :=
  frame_of 6 [("open", bars_close); ("high", bars_high); ("low", bars_low);
              ("close", bars_close); ("volume", of_Z <$> [9; 9; 9; 9; 9; 9]%Z)].

(** One bar with high > low whose close lies below its low. *)
Definition frame_close_below_low : DataFrame :=
  frame_of 1 [("open", [of_Z 3]); ("high", [of_Z 4]); ("low", [of_Z 3]);
              ("close", [of_Z 1]); ("volume", [of_Z 9])].

(** One bar whose high lies below its low. *)
Definition frame_high_below_low : DataFrame :=
  frame_of 1 [("open", [of_Z 2]); ("high", [of_Z 1]); ("low", [of_Z 2]);
              ("close", [of_Z 1]); ("volume", [of_Z 9])].

(** Comparing a computed column with the expected one: same length, the
    same positions undefined, and equal values elsewhere. *)
Definition same_value (x y : num) : bool :=
  match x, y with
  | NaN, NaN => true
  | _, _ => (x =? y)%num
  end.

Definition same_series (s t : Series) : bool :=
  bool_decide (length s = length t)
  && forallb (λ xy : num * num, same_value xy.1 xy.2) (zip s t).

Definition column_of (r : result DataFrame) (key : string) : Series :=
  match r with
  | Ok d => column d key
  | Raise _ => []
  end.

(** A frame without rows but with the columns of the exchange. *)
Definition frame_no_rows : DataFrame :=
  frame_of 0 [("open", []); ("high", []); ("low", []); ("close", []);
              ("volume", [])].

(** ** Data fetcher ([utils/data_fetcher.py])

    The exchange is outside the repository: a call to it either returns
    or raises, and the text of the exception is all the fetcher uses. *)

Inductive reply (A : Type) : Type :=
  | Returned (a : A)
  | Failed (e : string).

Arguments Returned {A} a.
Arguments Failed {A} e.

(** One row of [exchange.fetch_ohlcv]:
    [[timestamp, open, high, low, close, volume]]. *)
Record ohlcv_row : Type := mk_row {
  row_timestamp : Z;
  row_open : num;
  row_high : num;
  row_low : num;
  row_close : num;
  row_volume : num
}.

(** [pd.DataFrame()]. *)
Definition empty_frame : DataFrame := {| index := []; columns := ∅ |}.

(** [pd.to_datetime(df['timestamp'], unit='ms')].  The conversion is
    outside the repository: on one timestamp, [to_datetime] either
    returns the date or raises (pandas does for a timestamp beyond the
    range of its dates).  The column is converted when every timestamp
    is; otherwise the first failure is raised. *)
Fixpoint to_datetime_column (to_datetime : Z → reply Z) (timestamps : list Z)
    : reply (list Z) :=
  match timestamps with
  | [] => Returned []
  | t :: timestamps' =>
      match to_datetime t with
      | Failed e => Failed e
      | Returned date =>
          match to_datetime_column to_datetime timestamps' with
          | Failed e => Failed e
          | Returned dates => Returned (date :: dates)
          end
      end
  end.

(** [DataFetcher.fetch_ohlcv]: the lines printed and the frame returned.
    The frame is built with the six columns and the default index; then
    [timestamp] is converted to dates, becomes the index and stops being
    a column.  Whatever is raised on the way, by the exchange or by the
    conversion, is caught, printed and answered with an empty frame. *)
Definition fetch_ohlcv (to_datetime : Z → reply Z) (ohlcv : reply (list ohlcv_row))
    : list string * DataFrame :=
  match ohlcv with
  | Returned rows =>
      let df :=
        {| index := seqZ 0 (Z.of_nat (length rows));
           columns :=
             list_to_map
               [("timestamp", (λ r, of_Z (row_timestamp r)) <$> rows);
                ("open", row_open <$> rows);
                ("high", row_high <$> rows);
                ("low", row_low <$> rows);
                ("close", row_close <$> rows);
                ("volume", row_volume <$> rows)] |} in
      match to_datetime_column to_datetime (row_timestamp <$> rows) with
      | Returned dates =>
          ([], {| index := dates;
                  columns := delete "timestamp" (columns df) |})
      | Failed e => (["Error fetching data: " +:+ e], empty_frame)
      end
  | Failed e => (["Error fetching data: " +:+ e], empty_frame)
  end.

(** A conversion for the examples: every timestamp is in range, and a
    date is written as its milliseconds. *)
Definition in_range_date (t : Z) : reply Z := Returned t.

(** Thirty daily bars for the examples: a rise, then a fall with one
    rebound near the end. *)
Definition example_closes : list Z :=
  [100; 102; 101; 103; 105; 104; 106; 108; 107; 109;
   111; 110; 108; 105; 103; 100; 98; 95; 93; 90;
   88; 85; 83; 80; 78; 75; 73; 70; 71; 65]%Z.

Definition example_rows : list ohlcv_row :=
  imap (λ k c, mk_row (86400000 * Z.of_nat k) (of_Z c) (of_Z (c + 2))
                 (of_Z (c - 2)) (of_Z c) (of_Z (9 + Z.of_nat k)))
    example_closes.

(** [DataFetcher.get_available_pairs]: the lines printed and the symbols;
    the reply holds the keys of the markets in their order. *)
Definition get_available_pairs (markets : reply (list string))
    : list string * list string :=
  match markets with
  | Returned keys => ([], keys)
  | Failed e => (["Error loading markets: " +:+ e], [])
  end.

(** The slice [l[:k]] of Python: a negative [k] counts from the end. *)
Definition slice_to {A : Type} (k : Z) (l : list A) : list A :=
  if (0 <=? k)%Z then take (Z.to_nat k) l
  else take (length l - Z.to_nat (- k)) l.

(** [get_hot_cryptos(limit=5)], without the cache of the dashboard. *)
Definition get_hot_cryptos (limit : Z) (markets : reply (list string))
    : list string * list string :=
  let '(out, symbols) := get_available_pairs markets in
  (out, slice_to limit symbols).

(** ** Volume profile ([indicators/custom_indicators.py]) *)

(** [Series.min()] and [Series.max()]: missing values are skipped, and a
    series without values has no minimum. *)
Definition series_min (s : Series) : num := min_ (List.filter notna s).
Definition series_max (s : Series) : num := max_ (List.filter notna s).

(** [Series.sum()]: missing values are skipped. *)
Definition series_sum (s : Series) : num := sum (List.filter notna s).

(** [np.linspace(start, stop, num)]: [num] points, the last of which is
    set to [stop]. *)
Definition linspace (start stop : num) (n : nat) : Series :=
  let delta := (stop - start)%num in
  let div := (n - 1)%nat in
  let y (i : nat) : num :=
    if decide (0 < div)%nat then
      let step := (delta / of_Z (Z.of_nat div))%num in
      if (step =? of_Z 0)%num then
        (of_Z (Z.of_nat i) / of_Z (Z.of_nat div) * delta)%num
      else (of_Z (Z.of_nat i) * step)%num
    else (of_Z (Z.of_nat i) * delta)%num in
  (λ i, if decide (1 < n ∧ i = n - 1)%nat then stop else (y i + start)%num)
    <$> seq 0 n.

(** [data.loc[mask, 'volume'].sum()] for the mask
    [(close >= lo) & (close < hi)]. *)
Definition volume_between (lo hi : num) (close volume : Series) : num :=
  series_sum
    (snd <$> List.filter (λ cv : num * num, (lo <=? cv.1)%num && (cv.1 <? hi)%num)
               (zip close volume)).

(** The loop of [calculate_volume_profile] from bucket [i] on, for [k]
    more buckets. *)
Fixpoint volume_profile_loop (data : DataFrame) (price_range : Series)
    (i k : nat) : result Series :=
  match k with
  | O => mret []
  | S k' =>
      close ← getitem data "close";
      close' ← getitem data "close";
      volume ← getitem data "volume";
      let v := volume_between (price_range !!! i) (price_range !!! S i)
                 close volume in
      rest ← volume_profile_loop data price_range (S i) k';
      mret (v :: rest)
  end.

(** [calculate_volume_profile(data, bins=10)]. *)
Definition calculate_volume_profile (bins : nat) (data : DataFrame)
    : result (Series * Series) :=
  low ← getitem data "low";
  high ← getitem data "high";
  let price_range := linspace (series_min low) (series_max high) bins in
  volume_profile ← volume_profile_loop data price_range 0 (length price_range - 1);
  mret (price_range, volume_profile).

(** ** Session state ([main.py]) *)

(** [initialize_session_state()]: the session maps names to values, and
    [None] is a value. *)
Definition initialize_session_state {V : Type} (session_state : gmap string (option V))
    : gmap string (option V) :=
  let session_state :=
    if decide (is_Some (session_state !! "selected_symbol")) then session_state
    else <["selected_symbol" := None]> session_state in
  if decide (is_Some (session_state !! "current_data")) then session_state
  else <["current_data" := None]> session_state.

(** A magnitude of prices that keeps the sums and differences of a bar
    clear of the overflow of binary64 (about 1.8 * 10^308). *)
Definition price_bound : Q := inject_Z (10 ^ 300).

Definition within_bound (x : num) : Prop :=
  (Fin (- price_bound) <= x)%num ∧ (x <= Fin price_bound)%num.

(** ** The formulas on binary64

    The columns of a frame hold binary64 values, and the model above
    leaves their rounding and their overflow out.  Where a property
    depends on them, the formula of the source is evaluated here on
    genuine binary64 numbers.  The rolling mean is the plain sum of the
    window divided by its length (pandas keeps a compensated running
    sum, which gives the same value wherever both are exact); as in
    pandas, an infinity in a window counts as a missing value. *)

Module Binary64.

Definition of_nat (n : nat) : float := of_uint63 (Uint63.of_Z (Z.of_nat n)).

Definition diff (n : nat) (s : list float) : list float :=
  replicate (n `min` length s) nan ++ zip_with PrimFloat.sub (drop n s) s.

Definition where_ (cond : float → bool) (other : float) (s : list float)
    : list float :=
  (λ x, if cond x then x else other) <$> s.

Definition window (p i : nat) (s : list float) : list float :=
  take p (drop (S i - p) s).

Definition observed (x : float) : bool := negb (is_nan x || is_infinity x).

Definition rolling_mean (p : nat) (s : list float) : list float :=
  imap (λ i _,
    if decide (S i < p)%nat then nan
    else
      let w := window p i s in
      if forallb observed w then (foldl PrimFloat.add 0 w / of_nat p)%float
      else nan) s.

(** The local variables [gain] and [loss] of [calculate_rsi]. *)
Definition rsi_gain (period : nat) (close : list float) : list float :=
  let delta := diff 1 close in
  rolling_mean period (where_ (λ d, 0 <? d)%float 0%float delta).

Definition rsi_loss (period : nat) (close : list float) : list float :=
  let delta := diff 1 close in
  rolling_mean period (PrimFloat.opp <$> where_ (λ d, d <? 0)%float 0%float delta).

(** [100 - (100 / (1 + rs))] with [rs = gain / loss], on one position. *)
Definition rsi (gain loss : float) : float :=
  (100 - 100 / (1 + gain / loss))%float.

(** The RSI column of [calculate_rsi(period)]. *)
Definition calculate_rsi (period : nat) (close : list float) : list float :=
  zip_with rsi (rsi_gain period close) (rsi_loss period close).

(** The six levels of [calculate_fibonacci_levels] on one position, from
    the rolling maximum of the highs and the rolling minimum of the lows
    (which are bars of the series, whatever the rounding). *)
Definition calculate_fibonacci_levels (high_max low_min : float) : list float :=
  let diff := (high_max - low_min)%float in
  [low_min;
   (low_min + diff * 0.236)%float;
   (low_min + diff * 0.382)%float;
   (low_min + diff * 0.500)%float;
   (low_min + diff * 0.618)%float;
   high_max].

(** The five levels [PP, R1, S1, R2, S2] of [calculate_pivot_points] on
    one bar. *)
Definition calculate_pivot_points (high low close : float) : list float :=
  let pp := ((high + low + close) / 3)%float in
  [pp;
   (2 * pp - low)%float;
   (2 * pp - high)%float;
   (pp + (high - low))%float;
   (pp - (high - low))%float].

End Binary64.

(** ** The columns the pipeline adds *)

Definition indicator_columns : list string :=
  ["RSI"; "MACD"; "Signal_Line"; "BB_middle"; "BB_upper"; "BB_lower";
   "Fib_0"; "Fib_236"; "Fib_382"; "Fib_500"; "Fib_618"; "Fib_100";
   "Support"; "Resistance"; "Momentum"; "PP"; "R1"; "S1"; "R2"; "S2"].

(** A sequence of assignments [data[key] = s], in order. *)
Definition assign (data : DataFrame) (cols : list (string * Series)) : DataFrame :=
  foldl (λ d kv, setitem d kv.1 kv.2) data cols.

(** A frame whose price columns are the given series. *)
Definition price_frame (data : DataFrame) (high low close : Series) : Prop :=
  getitem data "high" = Ok high
  ∧ getitem data "low" = Ok low
  ∧ getitem data "close" = Ok close.

(** On every frame with the given prices, [f] returns the frame with the
    columns [cols] assigned, and raises nothing. *)
Definition writes (f : DataFrame → result DataFrame) (high low close : Series)
    (cols : list (string * Series)) : Prop :=
  ∀ data, price_frame data high low close → f data = Ok (assign data cols).

(** * Properties *)

(** ** Reading the latest row *)

Lemma latest_Ok data key x :
  latest data key = Ok x ↔ ∃ s, getitem data key = Ok s ∧ iloc_last s = Ok x.
Proof.
  unfold latest. split.
  - destruct (getitem data key) as [s|e] eqn:Hs; simpl; [eauto | discriminate].
  - intros (s & -> & Hx). exact Hx.
Qed.

Lemma bind_Ok {A B} (f : A → result B) (a : A) : (Ok a ≫= f) = f a.
Proof. reflexivity. Qed.

(** Replace the six reads of the engine by the values they return. *)
Ltac read_latest :=
  repeat match goal with
  | H : latest _ _ = Ok _ |- _ =>
      apply latest_Ok in H; destruct H as (? & ? & ?)
  end;
  unfold generate_trading_signals;
  repeat match goal with
  | H : getitem _ _ = Ok _ |- _ => rewrite H; clear H
  | H : iloc_last _ = Ok _ |- _ => rewrite H; clear H
  | |- _ => rewrite bind_Ok
  end.

Ltac split_rules :=
  unfold rule_outcomes, rsi_rule, macd_rule, bollinger_rule, num_gtb,
    TA_PARAMS.rsi_oversold, TA_PARAMS.rsi_overbought;
  repeat match goal with
  | |- context [if (?a <? ?b)%num then _ else _] =>
      destruct (a <? b)%num eqn:?
  end.

Lemma undefined_NaN x : undefined x ↔ x = NaN.
Proof. unfold undefined. destruct x; simpl; split; congruence. Qed.

(** ** Signal engine *)

(** C1, as amended: when the RSI of the latest row is undefined the engine
    does not fail.  It returns a Signal to which the RSI rule contributes
    nothing: action, confidence and reasons are those of the MACD and the
    Bollinger rule alone. *)
Theorem undefined_rsi_skips_rsi_rule data rsi macd sl close lo up :
  latest data "RSI" = Ok rsi →
  undefined rsi →
  latest data "MACD" = Ok macd →
  latest data "Signal_Line" = Ok sl →
  latest data "close" = Ok close →
  latest data "BB_lower" = Ok lo →
  latest data "BB_upper" = Ok up →
  let others := [(MACD_rule, macd_rule macd sl);
                 (Bollinger_rule, bollinger_rule close lo up)] in
  ∃ s, generate_trading_signals data = Ok s
       ∧ action s = last_fired others
       ∧ confidence s = total_weight others
       ∧ reasons s = fired_reasons rsi others.
Proof.
  cbv zeta. intros Hrsi Hnan%undefined_NaN; subst rsi. intros.
  read_latest. split_rules; simpl in *; try discriminate;
    (eexists; split; [reflexivity | repeat split; reflexivity]).
Qed.

Lemma undefined_rsi_skips_rsi_rule_witness :
  ∃ s, generate_trading_signals frame_rsi_undefined = Ok s
       ∧ action s = Some BUY
       ∧ confidence s = 0.3%float
       ∧ reasons s = ["MACD crossed above signal line"].
Proof.
  apply (undefined_rsi_skips_rsi_rule frame_rsi_undefined NaN (of_Z 1) (of_Z 0)
           (of_Z 10) (of_Z 8) (of_Z 12)); reflexivity.
Defined.

(** C1, as stated, fails on the pipeline's own output for the six example
    bars: the series is shorter than the RSI period, the latest RSI is
    undefined, and the engine raises nothing; it returns the Signal of the
    MACD rule alone. *)
Lemma undefined_rsi_does_not_fail :
  ∃ d, (fetch_and_analyze_data isqrtQ frame_bars "BTC/USDT").2 = Ok (Some d)
       ∧ latest d "RSI" = Ok NaN
       ∧ ¬ raises (generate_trading_signals d)
       ∧ generate_trading_signals d =
           Ok {| action := Some BUY;
                 confidence := 0.3%float;
                 reasons := ["MACD crossed above signal line"] |}.
Proof.
  eexists. split; [reflexivity |]. split; [reflexivity |].
  split; [| vm_compute; reflexivity].
  intros [e He]. vm_compute in He. discriminate.
Qed.

(** The formatting depends on the value only, not on the fraction that
    represents it. *)
Lemma round_half_even_comp (a b : Q) :
  (a == b)%Q → round_half_even a = round_half_even b.
Proof.
  intros Hab. unfold round_half_even.
  rewrite (Qfloor_comp a b Hab).
  assert (Hcmp : ((a - inject_Z (Qfloor b) ?= 1 # 2)
                  = (b - inject_Z (Qfloor b) ?= 1 # 2))%Q)
    by (now rewrite Hab).
  now rewrite Hcmp.
Qed.

Lemma format_2f_comp (a b : Q) :
  (a == b)%Q → format_2f (Fin a) = format_2f (Fin b).
Proof.
  intros Hab. unfold format_2f, Qltb.
  rewrite (round_half_even_comp (Qabs a * 100)%Q (Qabs b * 100)%Q)
    by (now rewrite Hab).
  now rewrite (Qleb_comp 0%Q 0%Q (Qeq_refl 0%Q) a b Hab).
Qed.

Lemma num_eq_Fin x (b : Q) : (x == Fin b)%num → ∃ a, x = Fin a ∧ (a == b)%Q.
Proof.
  unfold num_eq. destruct x as [| | |a]; simpl; try discriminate.
  intros H%Qeq_bool_iff. eauto.
Qed.

Lemma Qltb_comp_l (a b c : Q) : (a == b)%Q → Qltb a c = Qltb b c.
Proof. intros Hab. unfold Qltb. now rewrite (Qleb_comp c c (Qeq_refl c) a b Hab). Qed.

(** C3: oversold RSI of 25, MACD above its signal line and close below the
    lower band give BUY with confidence 0.8 (the binary64 sum
    0 + 0.3 + 0.3 + 0.2) and the three reasons in rule order. *)
Theorem all_three_rules_buy data rsi macd sl close lo :
  latest data "RSI" = Ok rsi →
  (rsi == of_Z 25)%num →
  latest data "MACD" = Ok macd →
  latest data "Signal_Line" = Ok sl →
  (sl < macd)%num →
  latest data "close" = Ok close →
  latest data "BB_lower" = Ok lo →
  (close < lo)%num →
  generate_trading_signals data =
    Ok {| action := Some BUY;
          confidence := 0.8%float;
          reasons := ["RSI oversold (25.00)";
                      "MACD crossed above signal line";
                      "Price below lower Bollinger Band"] |}.
Proof.
  intros Hrsi (q & -> & Hq)%num_eq_Fin Hmacd Hsl Hlt Hclose Hlo Hlt'.
  red in Hlt, Hlt'. read_latest. unfold num_gtb. rewrite Hlt, Hlt'.
  assert (Hover : (Fin q <? of_Z TA_PARAMS.rsi_oversold)%num = true).
  { simpl. now rewrite (Qltb_comp_l q (inject_Z 25) _ Hq). }
  rewrite Hover, (format_2f_comp q (inject_Z 25) Hq). reflexivity.
Qed.

Lemma all_three_rules_buy_witness :
  generate_trading_signals frame_all_buy =
    Ok {| action := Some BUY;
          confidence := 0.8%float;
          reasons := ["RSI oversold (25.00)";
                      "MACD crossed above signal line";
                      "Price below lower Bollinger Band"] |}.
Proof.
  apply (all_three_rules_buy frame_all_buy (of_Z 25) (of_Z 1) (of_Z 0)
           (of_Z 7) (of_Z 8)); reflexivity.
Defined.

(** C4: the rules are evaluated in the order RSI, MACD, Bollinger; the
    action is the direction of the last rule that fired, whatever the earlier
    rules said (Bollinger masks MACD, which masks RSI), while the confidence
    adds the weight of every rule that fired and the reasons list them in
    that order. *)
Theorem last_rule_to_fire_wins data rsi macd sl close lo up :
  latest data "RSI" = Ok rsi →
  latest data "MACD" = Ok macd →
  latest data "Signal_Line" = Ok sl →
  latest data "close" = Ok close →
  latest data "BB_lower" = Ok lo →
  latest data "BB_upper" = Ok up →
  let outcomes := rule_outcomes rsi macd sl close lo up in
  ∃ s, generate_trading_signals data = Ok s
       ∧ action s = last_fired outcomes
       ∧ (∀ a, bollinger_rule close lo up = Some a → action s = Some a)
       ∧ (bollinger_rule close lo up = None →
          ∀ a, macd_rule macd sl = Some a → action s = Some a)
       ∧ (bollinger_rule close lo up = None → macd_rule macd sl = None →
          action s = rsi_rule rsi)
       ∧ confidence s = total_weight outcomes
       ∧ reasons s = fired_reasons rsi outcomes.
Proof.
  cbv zeta. intros. read_latest. split_rules;
    (eexists; split; [reflexivity |]);
    repeat split; try reflexivity; intros; cbn [action fire] in *; congruence.
Qed.

Lemma last_rule_to_fire_wins_witness :
  ∃ s, generate_trading_signals frame_conflict = Ok s
       ∧ action s = Some SELL
       ∧ (∀ a, bollinger_rule (of_Z 13) (of_Z 8) (of_Z 12) = Some a →
          action s = Some a)
       ∧ (bollinger_rule (of_Z 13) (of_Z 8) (of_Z 12) = None →
          ∀ a, macd_rule (of_Z 0) (of_Z 0) = Some a → action s = Some a)
       ∧ (bollinger_rule (of_Z 13) (of_Z 8) (of_Z 12) = None →
          macd_rule (of_Z 0) (of_Z 0) = None →
          action s = rsi_rule (of_Z 25))
       ∧ confidence s = 0.5%float
       ∧ reasons s = ["RSI oversold (25.00)"; "Price above upper Bollinger Band"].
Proof.
  apply (last_rule_to_fire_wins frame_conflict (of_Z 25) (of_Z 0) (of_Z 0)
           (of_Z 13) (of_Z 8) (of_Z 12)); reflexivity.
Defined.

(** C10: on every enriched frame the Signal is consistent: no action, zero
    confidence and no reasons go together; the confidence is the sum of the
    weights of the fired rules and there is one reason per fired rule. *)
Theorem signal_consistency data rsi macd sl close lo up :
  latest data "RSI" = Ok rsi →
  latest data "MACD" = Ok macd →
  latest data "Signal_Line" = Ok sl →
  latest data "close" = Ok close →
  latest data "BB_lower" = Ok lo →
  latest data "BB_upper" = Ok up →
  let outcomes := rule_outcomes rsi macd sl close lo up in
  ∃ s, generate_trading_signals data = Ok s
       ∧ (action s = None ↔ (confidence s =? 0)%float = true)
       ∧ ((confidence s =? 0)%float = true ↔ reasons s = [])
       ∧ confidence s = total_weight outcomes
       ∧ length (reasons s) = length (fired outcomes).
Proof.
  cbv zeta. intros. read_latest. split_rules;
    (eexists; split; [reflexivity |]);
    (split; [split; (discriminate || reflexivity) |]);
    (split; [split; (discriminate || reflexivity) |]);
    split; reflexivity.
Qed.

Lemma signal_consistency_witness :
  ∃ s, generate_trading_signals frame_conflict = Ok s
       ∧ (action s = None ↔ (confidence s =? 0)%float = true)
       ∧ ((confidence s =? 0)%float = true ↔ reasons s = [])
       ∧ confidence s = 0.5%float
       ∧ length (reasons s) = 2.
Proof.
  apply (signal_consistency frame_conflict (of_Z 25) (of_Z 0) (of_Z 0)
           (of_Z 13) (of_Z 8) (of_Z 12)); reflexivity.
Defined.

(** ** Analysis pipeline *)

Lemma empty_no_rows data : index data = [] → empty_ data = true.
Proof. intros H. unfold empty_. now rewrite bool_decide_eq_true_2. Qed.

(** C2: on a series without bars the pipeline reports the failure on the
    dashboard and returns nothing, instead of an enriched frame: the guard
    comes before the first indicator. *)
Theorem empty_series_is_rejected sqrtQ data symbol :
  index data = [] →
  fetch_and_analyze_data sqrtQ data symbol =
    ([st_error ("Failed to fetch data for " +:+ symbol)], Ok None).
Proof.
  intros H. unfold fetch_and_analyze_data. now rewrite empty_no_rows.
Qed.

Lemma empty_series_is_rejected_witness :
  fetch_and_analyze_data isqrtQ frame_no_rows "BTC/USDT" =
    ([st_error "Failed to fetch data for BTC/USDT"], Ok None).
Proof.
  apply (empty_series_is_rejected isqrtQ frame_no_rows "BTC/USDT"). reflexivity.
Defined.

(** ** Arithmetic on column values *)

Lemma Qltb_lt (a b : Q) : Qltb a b = true ↔ (a < b)%Q.
Proof.
  unfold Qltb. rewrite negb_true_iff, <- not_true_iff_false, Qle_bool_iff.
  split; [apply Qnot_le_lt | apply Qlt_not_le].
Qed.

Lemma Qltb_ge (a b : Q) : Qltb a b = false ↔ (b <= a)%Q.
Proof. unfold Qltb. now rewrite negb_false_iff, Qle_bool_iff. Qed.

Lemma Qle_bool_gt (a b : Q) : Qle_bool a b = false ↔ (b < a)%Q.
Proof.
  rewrite <- not_true_iff_false, Qle_bool_iff.
  split; [apply Qnot_le_lt | apply Qlt_not_le].
Qed.

Lemma Qeq_bool_false (a b : Q) : Qeq_bool a b = false ↔ ¬ (a == b)%Q.
Proof. now rewrite <- not_true_iff_false, Qeq_bool_iff. Qed.

(** Turn the boolean tests on rationals into propositions. *)
Ltac reflect_Q :=
  repeat match goal with
  | H : Qltb _ _ = true |- _ => apply Qltb_lt in H
  | H : Qltb _ _ = false |- _ => apply Qltb_ge in H
  | H : Qle_bool _ _ = true |- _ => apply Qle_bool_iff in H
  | H : Qle_bool _ _ = false |- _ => apply Qle_bool_gt in H
  | H : Qeq_bool _ _ = true |- _ => apply Qeq_bool_iff in H
  | H : Qeq_bool _ _ = false |- _ => apply Qeq_bool_false in H
  | |- Qltb _ _ = true => apply Qltb_lt
  | |- Qltb _ _ = false => apply Qltb_ge
  | |- Qle_bool _ _ = true => apply Qle_bool_iff
  | |- Qle_bool _ _ = false => apply Qle_bool_gt
  | |- Qeq_bool _ _ = true => apply Qeq_bool_iff
  | |- Qeq_bool _ _ = false => apply Qeq_bool_false
  end.

Lemma finite_Fin x : finite x ↔ ∃ a, x = Fin a.
Proof.
  unfold finite. destruct x; simpl; split; try discriminate; eauto.
  all: intros [? ?]; discriminate.
Qed.

Lemma finite_defined x : finite x → defined x.
Proof. intros [a ->]%finite_Fin. reflexivity. Qed.

(** ** Reading and writing columns *)

Lemma getitem_setitem_eq data key s : getitem (setitem data key s) key = Ok s.
Proof. unfold getitem, setitem. simpl. now rewrite lookup_insert_eq. Qed.

Lemma getitem_setitem_ne data key key' s :
  key ≠ key' → getitem (setitem data key s) key' = getitem data key'.
Proof. intros. unfold getitem, setitem. simpl. now rewrite lookup_insert_ne. Qed.

Lemma column_getitem data key s : getitem data key = Ok s → column data key = s.
Proof.
  unfold getitem, column. destruct (columns data !! key); simpl; congruence.
Qed.

Lemma column_setitem_eq data key s : column (setitem data key s) key = s.
Proof. apply column_getitem, getitem_setitem_eq. Qed.

Lemma column_setitem_ne data key key' s :
  key ≠ key' → column (setitem data key s) key' = column data key'.
Proof. intros. unfold column, setitem. simpl. now rewrite lookup_insert_ne. Qed.

(** Run an indicator on a frame whose input columns are known. *)
Ltac run_indicator :=
  repeat first
    [ rewrite getitem_setitem_eq
    | rewrite getitem_setitem_ne by done
    | match goal with H : getitem _ _ = Ok _ |- _ => rewrite H end
    | rewrite bind_Ok ].

Ltac read_columns :=
  repeat first
    [ rewrite column_setitem_eq
    | rewrite column_setitem_ne by done ].

(** ** Pivot points *)

Lemma Qthird (x : Q) : (3 * (x / inject_Z 3) == x)%Q.
Proof. unfold inject_Z. field. Qed.

Lemma pivot_order (h l c : Q) :
  (l < h)%Q → (l <= c)%Q → (c <= h)%Q →
  let pp := ((Fin h + Fin l + Fin c) / of_Z 3)%num in
  (of_Z 2 * pp - Fin h < pp)%num ∧ (pp < of_Z 2 * pp - Fin l)%num.
Proof.
  intros Hlh Hlc Hch. cbv zeta. unfold num_lt. simpl.
  pose proof (Qthird (h + l + c)) as Ht.
  set (t := ((h + l + c) / inject_Z 3)%Q) in *.
  split; reflect_Q; unfold inject_Z; lra.
Qed.

(** ** Pointwise reading of derived columns *)

Lemma Forall_at (P : num → Prop) (s : Series) i :
  Forall P s → i < length s → P (s !!! i).
Proof.
  intros Hs Hi. destruct (lookup_lt_is_Some_2 s i Hi) as [x Hx].
  rewrite (list_lookup_total_correct s i x Hx).
  exact (proj1 (Forall_lookup P s) Hs i x Hx).
Qed.

Lemma length_rolling p agg (s : Series) : length (rolling p agg s) = length s.
Proof. unfold rolling. apply length_imap. Qed.

Lemma length_diff n (s : Series) : length (diff n s) = length s.
Proof.
  unfold diff. rewrite length_app, length_replicate, length_zip_with, length_drop. lia.
Qed.

Lemma length_where cond other (s : Series) : length (where_ cond other s) = length s.
Proof. unfold where_. apply length_fmap. Qed.

Create Rewrite HintDb lens.
#[global] Hint Rewrite @length_fmap @length_zip_with length_rolling length_diff
  length_where @length_take @length_drop @length_replicate @length_app : lens.

Ltac solve_length := autorewrite with lens; lia.

Lemma at_fmap (f : num → num) (s : Series) i :
  i < length s → (f <$> s) !!! i = f (s !!! i).
Proof. apply list_lookup_total_fmap. Qed.

Lemma at_zip_with (f : num → num → num) (a b : Series) i :
  i < length a → i < length b → zip_with f a b !!! i = f (a !!! i) (b !!! i).
Proof. apply lookup_total_zip_with. Qed.

Ltac pointwise :=
  repeat first
    [ rewrite at_fmap by solve_length
    | rewrite at_zip_with by solve_length ].

Lemma within_bound_Fin x : within_bound x → ∃ q, x = Fin q.
Proof.
  unfold within_bound, num_le. destruct x as [| | |q]; simpl; intros [? ?];
    try discriminate. eauto.
Qed.

(** The part of the order of the pivot levels that no rounding can
    break: each comparison is between two results of one operation on
    the same first operand. *)
Lemma pivot_outer_order (h l c : num) :
  let pp := ((h + l + c) / of_Z 3)%num in
  let r1 := (of_Z 2 * pp - l)%num in
  let s1 := (of_Z 2 * pp - h)%num in
  let r2 := (pp + (h - l))%num in
  let s2 := (pp - (h - l))%num in
  (l <= h)%num →
  defined pp → defined r1 → defined s1 → defined r2 → defined s2 →
  (s1 <= r1)%num ∧ (s2 <= pp)%num ∧ (pp <= r2)%num.
Proof.
  cbv zeta. intros Hlh D1 D2 D3 D4 D5.
  destruct h as [| | |h], l as [| | |l], c as [| | |c];
    try discriminate Hlh; try discriminate D1; try discriminate D2;
    try discriminate D3; try discriminate D4; try discriminate D5;
    try (repeat split; reflexivity).
  clear D1 D2 D3 D4 D5. unfold num_le in *. simpl in *.
  set (t := ((h + l + c) / inject_Z 3)%Q) in *.
  repeat split; reflect_Q; unfold inject_Z; lra.
Qed.

(** C9, as amended: the five pivot columns are computed from each bar
    alone, with no lookback: on float columns they have a value at every
    bar whose prices are numbers within the price bound; and on every bar
    with low <= high where they have a value, S1 <= R1 and
    S2 <= PP <= R2.  (R1 > PP > S1 is not part of it: it needs the close
    between low and high, and then holds before rounding only.) *)
Theorem pivot_points_per_bar data high low close :
  getitem data "high" = Ok high →
  getitem data "low" = Ok low →
  getitem data "close" = Ok close →
  length high = length close →
  length low = length close →
  ∃ d, calculate_pivot_points data = Ok d ∧
    ∀ i, i < length close →
      let v key := column d key !!! i in
      (within_bound (high !!! i) → within_bound (low !!! i) →
       within_bound (close !!! i) →
       defined (v "PP") ∧ defined (v "R1") ∧ defined (v "S1")
       ∧ defined (v "R2") ∧ defined (v "S2"))
      ∧ ((low !!! i <= high !!! i)%num →
         defined (v "PP") → defined (v "R1") → defined (v "S1") →
         defined (v "R2") → defined (v "S2") →
         (v "S1" <= v "R1")%num ∧ (v "S2" <= v "PP")%num
         ∧ (v "PP" <= v "R2")%num).
Proof.
  intros Hh Hl Hc Lh Ll.
  unfold calculate_pivot_points. run_indicator.
  eexists; split; [reflexivity |].
  intros i Hi. cbv zeta. read_columns. pointwise. split.
  - intros [h ->]%within_bound_Fin [l ->]%within_bound_Fin [c ->]%within_bound_Fin.
    repeat split.
  - apply pivot_outer_order.
Qed.

Lemma pivot_points_per_bar_witness :
  ∃ d, calculate_pivot_points frame_bars = Ok d ∧
    ∀ i, i < length bars_close →
      let v key := column d key !!! i in
      (within_bound (bars_high !!! i) → within_bound (bars_low !!! i) →
       within_bound (bars_close !!! i) →
       defined (v "PP") ∧ defined (v "R1") ∧ defined (v "S1")
       ∧ defined (v "R2") ∧ defined (v "S2"))
      ∧ ((bars_low !!! i <= bars_high !!! i)%num →
         defined (v "PP") → defined (v "R1") → defined (v "S1") →
         defined (v "R2") → defined (v "S2") →
         (v "S1" <= v "R1")%num ∧ (v "S2" <= v "PP")%num
         ∧ (v "PP" <= v "R2")%num).
Proof.
  apply (pivot_points_per_bar frame_bars bars_high bars_low bars_close);
    reflexivity.
Defined.

(** The six example bars lie within the price bound. *)
Example bars_within_bound :
  Forall within_bound bars_high ∧ Forall within_bound bars_low
  ∧ Forall within_bound bars_close.
Proof. repeat split; repeat constructor. Qed.

(** C9, as stated, fails on a bar with high > low whose close lies below
    the low (high 4, low 3, close 1): PP is 8/3 and R1 is 7/3. *)
Lemma pivot_order_fails_outside_range :
  ∃ d, calculate_pivot_points frame_close_below_low = Ok d
       ∧ (column d "low" !!! 0 < column d "high" !!! 0)%num
       ∧ ¬ (column d "PP" !!! 0 < column d "R1" !!! 0)%num.
Proof.
  eexists. split; [reflexivity |]. split; [reflexivity |].
  intros H. vm_compute in H. discriminate.
Qed.

(** ** The order on column values *)

Lemma num_le_refl x : defined x → (x <= x)%num.
Proof.
  unfold defined, num_le. destruct x; simpl; try easy.
  intros _. reflect_Q. lra.
Qed.

Lemma num_le_trans x y z : (x <= y)%num → (y <= z)%num → (x <= z)%num.
Proof.
  unfold num_le. destruct x, y, z; simpl; try easy.
  intros. reflect_Q. lra.
Qed.

Lemma num_le_defined x y : (x <= y)%num → defined x ∧ defined y.
Proof. unfold num_le, defined. destruct x, y; simpl; easy. Qed.

Lemma num_min_le_l x y : defined x → defined y → (num_min x y <= x)%num.
Proof.
  unfold defined, num_min, num_le.
  destruct x as [| | |a], y as [| | |b]; simpl; try easy;
    intros _ _; try reflexivity; try (reflect_Q; lra).
  destruct (Qltb b a) eqn:E; simpl; reflect_Q; lra.
Qed.

Lemma num_max_ge_l x y : defined x → defined y → (x <= num_max x y)%num.
Proof.
  unfold defined, num_max, num_le.
  destruct x as [| | |a], y as [| | |b]; simpl; try easy;
    intros _ _; try reflexivity; try (reflect_Q; lra).
  destruct (Qltb a b) eqn:E; simpl; reflect_Q; lra.
Qed.

Lemma num_min_defined x y : defined x → defined y → defined (num_min x y).
Proof. unfold num_min. now destruct (y <? x)%num. Qed.

Lemma num_max_defined x y : defined x → defined y → defined (num_max x y).
Proof. unfold num_max. now destruct (x <? y)%num. Qed.

Lemma foldl_min_le (w : list num) x :
  defined x → Forall defined w → (foldl num_min x w <= x)%num.
Proof.
  revert x. induction w as [|y w IH]; intros x Hx Hw; simpl.
  - now apply num_le_refl.
  - inversion Hw as [|? ? Hy Hw']; subst.
    apply num_le_trans with (num_min x y).
    + apply IH; [now apply num_min_defined | assumption].
    + now apply num_min_le_l.
Qed.

Lemma foldl_max_ge (w : list num) x :
  defined x → Forall defined w → (x <= foldl num_max x w)%num.
Proof.
  revert x. induction w as [|y w IH]; intros x Hx Hw; simpl.
  - now apply num_le_refl.
  - inversion Hw as [|? ? Hy Hw']; subst.
    apply num_le_trans with (num_max x y).
    + now apply num_max_ge_l.
    + apply IH; [now apply num_max_defined | assumption].
Qed.

(** ** Rolling windows *)

Lemma at_rolling p agg (s : Series) i :
  i < length s →
  rolling p agg s !!! i =
    if decide (S i < p) then NaN
    else if forallb notna (window p i s) then agg (window p i s) else NaN.
Proof.
  intros Hi. destruct (lookup_lt_is_Some_2 s i Hi) as [x Hx].
  apply list_lookup_total_correct. unfold rolling.
  now rewrite list_lookup_imap, Hx.
Qed.

Lemma length_window p i (s : Series) :
  p ≤ S i → i < length s → length (window p i s) = p.
Proof. intros. unfold window. rewrite length_take, length_drop. lia. Qed.

Lemma at_window p i (s : Series) j :
  p ≤ S i → i < length s → j < p → window p i s !!! j = s !!! (S i - p + j).
Proof.
  intros. unfold window. rewrite lookup_total_take_lt by lia.
  apply lookup_total_drop.
Qed.

Lemma Forall_window (P : num → Prop) p i (s : Series) :
  Forall P s → Forall P (window p i s).
Proof. intros. unfold window. now apply Forall_take, Forall_drop. Qed.

Lemma forallb_notna (w : list num) : forallb notna w = true ↔ Forall defined w.
Proof.
  rewrite forallb_forall, Forall_forall. unfold notna, defined.
  split; intros H x Hx.
  - apply negb_true_iff, H. now apply list_elem_of_In.
  - apply negb_true_iff, H. now apply list_elem_of_In.
Qed.

(** ** Fibonacci levels *)

Lemma defined_all (s : Series) :
  (∀ j, j < length s → defined (s !!! j)) → Forall defined s.
Proof.
  intros H. apply Forall_lookup. intros j x Hj.
  rewrite <- (list_lookup_total_correct s j x Hj).
  apply H. now apply lookup_lt_Some with x.
Qed.

(** Where the rolling minimum of the lows has a value, it is below the
    rolling maximum of the highs, provided every bar has low <= high. *)
Lemma rolling_extrema_ordered p (low high : Series) i :
  length high = length low →
  (∀ j, j < length low → (low !!! j <= high !!! j)%num) →
  i < length low →
  undefined (rolling p min_ low !!! i)
  ∨ (rolling p min_ low !!! i <= rolling p max_ high !!! i)%num.
Proof.
  intros Hlen Hbars Hi.
  assert (Hlow : Forall defined low).
  { apply defined_all. intros j Hj. apply (num_le_defined _ _ (Hbars j Hj)). }
  assert (Hhigh : Forall defined high).
  { apply defined_all. intros j Hj. rewrite Hlen in Hj.
    apply (num_le_defined _ _ (Hbars j Hj)). }
  rewrite !at_rolling by lia.
  destruct (decide (S i < p)) as [|Hp]; [now left |].
  pose proof (Forall_window defined p i low Hlow) as Hwl.
  pose proof (Forall_window defined p i high Hhigh) as Hwh.
  rewrite (proj2 (forallb_notna _) Hwl), (proj2 (forallb_notna _) Hwh).
  destruct (decide (p = 0)) as [->|Hp0]; [now left |]. right.
  assert (H0l : window p i low !!! 0 = low !!! (S i - p + 0))
    by (apply at_window; lia).
  assert (H0h : window p i high !!! 0 = high !!! (S i - p + 0))
    by (apply at_window; lia).
  assert (Hll : length (window p i low) = p) by (apply length_window; lia).
  assert (Hlh : length (window p i high) = p) by (apply length_window; lia).
  destruct (window p i low) as [|xl wl]; [simpl in Hll; lia |].
  destruct (window p i high) as [|xh wh]; [simpl in Hlh; lia |].
  simpl in H0l, H0h. subst xl xh. simpl.
  inversion Hwl; subst. inversion Hwh; subst.
  eapply num_le_trans; [now apply foldl_min_le |].
  eapply num_le_trans; [apply Hbars; lia |].
  now apply foldl_max_ge.
Qed.

(** The retracement levels between a minimum and a maximum above it. *)
Lemma fibonacci_chain (lo hi : num) :
  (lo <= hi)%num →
  let level (f : Q) := (lo + (hi - lo) * Fin f)%num in
  defined (level 0.236%Q) → defined (level 0.382%Q) →
  defined (level 0.500%Q) → defined (level 0.618%Q) →
  (lo <= level 0.236%Q)%num
  ∧ (level 0.236%Q <= level 0.382%Q)%num
  ∧ (level 0.382%Q <= level 0.500%Q)%num
  ∧ (level 0.500%Q <= level 0.618%Q)%num
  ∧ (level 0.618%Q <= hi)%num.
Proof.
  cbv zeta. unfold num_le, defined.
  destruct lo as [| | |l], hi as [| | |h]; simpl; try easy.
  intros Hle _ _ _ _. reflect_Q. repeat split; reflect_Q; lra.
Qed.

(** C8, as amended: the Fibonacci columns are computed on every frame that
    has [high] and [low], whatever its bars; and wherever they are defined
    on a series whose bars have 0 <= low <= high the six levels are
    non-decreasing.  (Prices are not negative; the model's arithmetic is
    unbounded and does not use it, but in binary64 it is what keeps
    [high_max - low_min] from overflowing to an infinity that would lift
    the middle levels above Fib_100.) *)
Theorem fibonacci_levels_ordered period data high low :
  getitem data "high" = Ok high →
  getitem data "low" = Ok low →
  length high = length low →
  ∃ d, calculate_fibonacci_levels period data = Ok d ∧
    ((∀ j, j < length low →
        (of_Z 0 <= low !!! j)%num ∧ (low !!! j <= high !!! j)%num) →
     ∀ i, i < length low →
       let v key := column d key !!! i in
       defined (v "Fib_0") → defined (v "Fib_236") → defined (v "Fib_382") →
       defined (v "Fib_500") → defined (v "Fib_618") → defined (v "Fib_100") →
       (v "Fib_0" <= v "Fib_236")%num
       ∧ (v "Fib_236" <= v "Fib_382")%num
       ∧ (v "Fib_382" <= v "Fib_500")%num
       ∧ (v "Fib_500" <= v "Fib_618")%num
       ∧ (v "Fib_618" <= v "Fib_100")%num).
Proof.
  intros Hh Hl Hlen.
  unfold calculate_fibonacci_levels. run_indicator.
  eexists; split; [reflexivity |].
  intros Hbars i Hi. cbv zeta. read_columns. pointwise.
  intros D0 D1 D2 D3 D4 D5.
  destruct (rolling_extrema_ordered period low high i Hlen
              (λ j Hj, proj2 (Hbars j Hj)) Hi) as [Hna|Hle].
  - unfold defined, undefined in *. congruence.
  - now apply fibonacci_chain.
Qed.

Lemma fibonacci_levels_ordered_witness :
  ∃ d, calculate_fibonacci_levels 3 frame_bars = Ok d ∧
    ((∀ j, j < length bars_low →
        (of_Z 0 <= bars_low !!! j)%num ∧ (bars_low !!! j <= bars_high !!! j)%num) →
     ∀ i, i < length bars_low →
       let v key := column d key !!! i in
       defined (v "Fib_0") → defined (v "Fib_236") → defined (v "Fib_382") →
       defined (v "Fib_500") → defined (v "Fib_618") → defined (v "Fib_100") →
       (v "Fib_0" <= v "Fib_236")%num
       ∧ (v "Fib_236" <= v "Fib_382")%num
       ∧ (v "Fib_382" <= v "Fib_500")%num
       ∧ (v "Fib_500" <= v "Fib_618")%num
       ∧ (v "Fib_618" <= v "Fib_100")%num).
Proof.
  apply (fibonacci_levels_ordered 3 frame_bars bars_high bars_low);
    reflexivity.
Defined.

(** The six example bars satisfy 0 <= low <= high. *)
Example bars_low_below_high :
  ∀ j, j < length bars_low →
    (of_Z 0 <= bars_low !!! j)%num ∧ (bars_low !!! j <= bars_high !!! j)%num.
Proof.
  intros j Hj. simpl in Hj.
  do 6 (destruct j as [|j]; [split; reflexivity |]). lia.
Qed.

(** C8, as stated, fails on a bar whose high (1) lies below its low (2):
    with period 1 every level is defined, Fib_0 is 2 and Fib_236 is 1.764. *)
Lemma fibonacci_order_fails_on_inverted_bar :
  ∃ d, calculate_fibonacci_levels 1 frame_high_below_low = Ok d
       ∧ Forall (λ key, defined (column d key !!! 0))
           ["Fib_0"; "Fib_236"; "Fib_382"; "Fib_500"; "Fib_618"; "Fib_100"]
       ∧ ¬ (column d "Fib_0" !!! 0 <= column d "Fib_236" !!! 0)%num.
Proof.
  eexists. split; [reflexivity |]. split; [repeat constructor |].
  intros H. vm_compute in H. discriminate.
Qed.

(** ** Bollinger bands *)

Section Bollinger.

Variable sqrtQ : Q → Q.
Hypothesis sqrtQ_nonneg : ∀ a : Q, (0 <= a)%Q → (0 <= sqrtQ a)%Q.

Lemma num_sqrt_not_negative x : (num_sqrt sqrtQ x <? of_Z 0)%num = false.
Proof.
  destruct x as [| | |a]; simpl; try reflexivity.
  destruct (Qle_bool 0 a) eqn:Ha; simpl; [| reflexivity].
  reflect_Q. now apply sqrtQ_nonneg.
Qed.

Lemma rolling_std_not_negative p (s : Series) i :
  i < length s → (rolling p (std sqrtQ) s !!! i <? of_Z 0)%num = false.
Proof.
  intros Hi. rewrite at_rolling by assumption.
  destruct (decide (S i < p)); [reflexivity |].
  destruct (forallb notna (window p i s)); [| reflexivity].
  apply num_sqrt_not_negative.
Qed.

Lemma inf_of_sign_nonneg (a : Q) :
  (0 <= a)%Q → inf_of_sign (Qsign a) = NaN ∨ inf_of_sign (Qsign a) = PInf.
Proof.
  destruct a as [[|n|n] d]; unfold Qsign; simpl; auto.
  intros H. exfalso. revert H. unfold Qle. simpl. lia.
Qed.

(** The band offset is not negative, so the bands enclose the middle. *)
Lemma bands_enclose_middle (m s k : num) :
  (s <? of_Z 0)%num = false →
  (of_Z 0 <= k)%num →
  defined (m + s * k)%num →
  defined (m - s * k)%num →
  (m - s * k <= m)%num ∧ (m <= m + s * k)%num.
Proof.
  unfold num_le, defined.
  destruct m as [| | |m], s as [| | |s], k as [| | |k]; simpl; try easy;
    intros; reflect_Q; unfold inject_Z in *;
    repeat match goal with
    | H : (0 <= ?a)%Q, H' : context [inf_of_sign (Qsign ?a)] |- _ =>
        destruct (inf_of_sign_nonneg a H) as [E | E]; rewrite E in *; clear E;
        simpl in *
    end;
    try easy.
  split; reflect_Q; nra.
Qed.

(** C7: wherever the three Bollinger columns are defined, and whatever the
    non-negative multiplier, BB_lower <= BB_middle <= BB_upper. *)
Theorem bollinger_bands_ordered period std_dev data close :
  getitem data "close" = Ok close →
  (of_Z 0 <= std_dev)%num →
  ∃ d, calculate_bollinger_bands sqrtQ period std_dev data = Ok d ∧
    ∀ i, i < length close →
      let v key := column d key !!! i in
      defined (v "BB_upper") → defined (v "BB_middle") → defined (v "BB_lower") →
      (v "BB_lower" <= v "BB_middle")%num ∧ (v "BB_middle" <= v "BB_upper")%num.
Proof.
  intros Hc Hk.
  unfold calculate_bollinger_bands. run_indicator.
  eexists; split; [reflexivity |].
  intros i Hi. cbv zeta. read_columns. pointwise.
  intros Du _ Dl.
  apply bands_enclose_middle; try assumption.
  now apply rolling_std_not_negative.
Qed.

End Bollinger.

Lemma isqrtQ_nonneg (a : Q) : (0 <= a)%Q → (0 <= isqrtQ a)%Q.
Proof.
  intros _. unfold isqrtQ. change 0%Q with (inject_Z 0).
  rewrite <- Zle_Qle. apply Z.sqrt_nonneg.
Qed.

Lemma bollinger_bands_ordered_witness :
  ∃ d, calculate_bollinger_bands isqrtQ 3 (of_Z 2) frame_bars = Ok d ∧
    ∀ i, i < length bars_close →
      let v key := column d key !!! i in
      defined (v "BB_upper") → defined (v "BB_middle") → defined (v "BB_lower") →
      (v "BB_lower" <= v "BB_middle")%num ∧ (v "BB_middle" <= v "BB_upper")%num.
Proof.
  apply (bollinger_bands_ordered isqrtQ isqrtQ_nonneg 3 (of_Z 2) frame_bars bars_close);
    reflexivity.
Defined.

(** ** Relative strength index *)

Lemma diff_values n (s : Series) :
  Forall finite s → Forall (λ x, x = NaN ∨ finite x) (diff n s).
Proof.
  intros Hs. unfold diff. apply Forall_app. split.
  - apply Forall_replicate. now left.
  - apply Forall_lookup. intros i x Hx.
    apply lookup_zip_with_Some in Hx as (a & b & -> & Ha & Hb).
    rewrite lookup_drop in Ha.
    pose proof (proj1 (Forall_lookup finite s) Hs _ _ Ha) as [a' ->]%finite_Fin.
    pose proof (proj1 (Forall_lookup finite s) Hs _ _ Hb) as [b' ->]%finite_Fin.
    now right.
Qed.

Lemma gains_not_negative (s : Series) :
  Forall (λ x, x = NaN ∨ finite x) s →
  Forall (λ x, finite x ∧ (of_Z 0 <= x)%num)
    (where_ (λ d, d >? of_Z 0)%num (of_Z 0) s).
Proof.
  intros Hs. unfold where_. apply Forall_fmap.
  eapply Forall_impl; [exact Hs |]. simpl.
  intros x [-> | [a ->]%finite_Fin]; [easy |].
  unfold num_gtb, num_le. simpl.
  destruct (Qltb (inject_Z 0) a) eqn:E; simpl; [| easy].
  split; [reflexivity |]. reflect_Q. lra.
Qed.

Lemma losses_not_negative (s : Series) :
  Forall (λ x, x = NaN ∨ finite x) s →
  Forall (λ x, finite x ∧ (of_Z 0 <= x)%num)
    (num_opp <$> where_ (λ d, d <? of_Z 0)%num (of_Z 0) s).
Proof.
  intros Hs. unfold where_. rewrite <- list_fmap_compose. apply Forall_fmap.
  eapply Forall_impl; [exact Hs |]. simpl.
  intros x [-> | [a ->]%finite_Fin]; [easy |].
  unfold num_le. simpl.
  destruct (Qltb a (inject_Z 0)) eqn:E; simpl; [| easy].
  split; [reflexivity |]. reflect_Q. unfold inject_Z in *. lra.
Qed.

Lemma foldl_add_not_negative (w : list num) (acc : num) :
  finite acc ∧ (of_Z 0 <= acc)%num →
  Forall (λ x, finite x ∧ (of_Z 0 <= x)%num) w →
  finite (foldl num_add acc w) ∧ (of_Z 0 <= foldl num_add acc w)%num.
Proof.
  revert acc. induction w as [|x w IH]; intros acc Hacc Hw; simpl; [assumption |].
  inversion Hw as [|? ? [[a ->]%finite_Fin Ha] Hw']; subst.
  destruct Hacc as [[b ->]%finite_Fin Hb].
  apply IH; [| assumption]. split; [reflexivity |].
  unfold num_le in *. simpl in *. reflect_Q. unfold inject_Z in *. lra.
Qed.

Lemma mean_not_negative (w : list num) :
  w ≠ [] →
  Forall (λ x, finite x ∧ (of_Z 0 <= x)%num) w →
  finite (mean w) ∧ (of_Z 0 <= mean w)%num.
Proof.
  intros Hne Hw. unfold mean, sum.
  destruct (foldl_add_not_negative w (of_Z 0)) as [[a Ha]%finite_Fin Hle];
    [easy | assumption |].
  rewrite Ha in *. unfold num_le in Hle. simpl in Hle. reflect_Q.
  assert (Hn : (0 < inject_Z (Z.of_nat (length w)))%Q).
  { change 0%Q with (inject_Z 0). rewrite <- Zlt_Qlt.
    destruct w; [congruence | simpl; lia]. }
  simpl. destruct (Qeq_bool (inject_Z (Z.of_nat (length w))) 0) eqn:E;
    reflect_Q; [lra |].
  split; [reflexivity |]. unfold num_le. simpl. reflect_Q.
  apply Qle_shift_div_l; [assumption |]. unfold inject_Z in *. lra.
Qed.

(** From the position where the window is full, the rolling mean of
    non-negative values is a non-negative number. *)
Lemma rolling_mean_not_negative p (s : Series) i :
  Forall (λ x, finite x ∧ (of_Z 0 <= x)%num) s →
  i < length s → 1 ≤ p → p ≤ S i →
  finite (rolling p mean s !!! i) ∧ (of_Z 0 <= rolling p mean s !!! i)%num.
Proof.
  intros Hs Hi Hp Hpi. rewrite at_rolling by assumption.
  destruct (decide (S i < p)); [lia |].
  pose proof (Forall_window _ p i s Hs) as Hw.
  assert (Hd : Forall defined (window p i s)).
  { eapply Forall_impl; [exact Hw |]. simpl. intros x [Hx _].
    now apply finite_defined. }
  rewrite (proj2 (forallb_notna _) Hd).
  apply mean_not_negative; [| assumption].
  intros Hnil. pose proof (length_window p i s Hpi Hi) as Hl.
  rewrite Hnil in Hl. simpl in Hl. lia.
Qed.

Lemma inf_of_sign_pos (a : Q) : (0 < a)%Q → inf_of_sign (Qsign a) = PInf.
Proof.
  destruct a as [[|n|n] d]; unfold Qsign, Qlt; simpl; intros H; try reflexivity; lia.
Qed.

Lemma inf_of_sign_zero (a : Q) : (a == 0)%Q → inf_of_sign (Qsign a) = NaN.
Proof.
  destruct a as [[|n|n] d]; unfold Qsign, Qeq; simpl; intros H; try reflexivity; lia.
Qed.

Lemma gain_over_loss (g l : Q) :
  (0 <= g)%Q → (0 <= l)%Q →
  ((l == 0)%Q ∧ (0 < g)%Q ∧ (Fin g / Fin l)%num = PInf)
  ∨ ((l == 0)%Q ∧ (g == 0)%Q ∧ (Fin g / Fin l)%num = NaN)
  ∨ ((0 < l)%Q ∧ ∃ q, (0 <= q)%Q ∧ (Fin g / Fin l)%num = Fin q).
Proof.
  intros Hg Hl. simpl. destruct (Qeq_bool l 0) eqn:El; reflect_Q.
  - destruct (Qlt_le_dec 0 g) as [Hpos | Hzero].
    + left. auto using inf_of_sign_pos.
    + right; left. repeat split; [assumption | lra |].
      apply inf_of_sign_zero. lra.
  - right; right. assert (Hl' : (0 < l)%Q) by lra. split; [assumption |].
    eexists; split; [| reflexivity]. apply Qle_shift_div_l; lra.
Qed.

Lemma rsi_of_finite_strength (q : Q) :
  (0 <= q)%Q →
  ∃ r, (of_Z 100 - of_Z 100 / (of_Z 1 + Fin q))%num = Fin r
       ∧ (0 <= r)%Q ∧ (r < 100)%Q.
Proof.
  intros Hq.
  assert (Ht : (0 < inject_Z 1 + q)%Q) by (unfold inject_Z; lra).
  assert (Hu : (0 < inject_Z 100 / (inject_Z 1 + q))%Q)
    by (apply Qlt_shift_div_l; [assumption | unfold inject_Z; lra]).
  assert (Hu' : (inject_Z 100 / (inject_Z 1 + q) <= inject_Z 100)%Q)
    by (apply Qle_shift_div_r; [assumption | unfold inject_Z; lra]).
  unfold num_sub, of_Z. simpl.
  destruct (Qeq_bool (inject_Z 1 + q) 0) eqn:Et; reflect_Q; [lra |].
  eexists; split; [reflexivity |].
  set (u := (inject_Z 100 / (inject_Z 1 + q))%Q) in *.
  unfold inject_Z in *. lra.
Qed.

(** The value of RSI from a non-negative rolling gain and loss. *)
Lemma rsi_value (g l : Q) :
  (0 <= g)%Q → (0 <= l)%Q →
  let r := (of_Z 100 - of_Z 100 / (of_Z 1 + Fin g / Fin l))%num in
  defined r →
  ((of_Z 0 <= r)%num ∧ (r <= of_Z 100)%num)
  ∧ ((r == of_Z 100)%num ↔ (Fin l == of_Z 0)%num ∧ (of_Z 0 < Fin g)%num).
Proof.
  intros Hg Hl. cbv zeta.
  destruct (gain_over_loss g l Hg Hl)
    as [(Hl0 & Hg0 & ->) | [(Hl0 & Hg0 & ->) | (Hl0 & q & Hq & ->)]].
  - intros _. unfold num_le, num_eq, num_lt. simpl.
    repeat split; reflect_Q; unfold inject_Z in *; lra.
  - discriminate.
  - destruct (rsi_of_finite_strength q Hq) as (r & -> & Hr0 & Hr100).
    intros _. unfold num_le, num_eq, num_lt. simpl.
    split; [split; reflect_Q; unfold inject_Z in *; lra |].
    split.
    + intros H. reflect_Q. unfold inject_Z in *. lra.
    + intros [H _]. reflect_Q. unfold inject_Z in *. lra.
Qed.

Lemma rolling_mean_cases p (s : Series) i :
  Forall (λ x, finite x ∧ (of_Z 0 <= x)%num) s →
  i < length s →
  rolling p mean s !!! i = NaN
  ∨ ∃ a, rolling p mean s !!! i = Fin a ∧ (0 <= a)%Q.
Proof.
  intros Hs Hi.
  destruct (decide (S i < p)) as [Hlt | Hge].
  { left. rewrite at_rolling by assumption. now rewrite decide_True. }
  destruct (decide (p = 0)) as [-> | Hp].
  { left. rewrite at_rolling by assumption. reflexivity. }
  right.
  destruct (rolling_mean_not_negative p s i Hs Hi ltac:(lia) ltac:(lia))
    as [[a Ha]%finite_Fin Hle].
  exists a. split; [assumption |].
  rewrite Ha in Hle. unfold num_le in Hle. simpl in Hle. now reflect_Q.
Qed.

Lemma length_rsi_gain p (close : Series) : length (rsi_gain p close) = length close.
Proof. unfold rsi_gain. now autorewrite with lens. Qed.

Lemma length_rsi_loss p (close : Series) : length (rsi_loss p close) = length close.
Proof. unfold rsi_loss. now autorewrite with lens. Qed.

#[global] Hint Rewrite length_rsi_gain length_rsi_loss : lens.

Lemma rsi_gain_cases p (close : Series) i :
  Forall finite close → i < length close →
  rsi_gain p close !!! i = NaN
  ∨ ∃ a, rsi_gain p close !!! i = Fin a ∧ (0 <= a)%Q.
Proof.
  intros Hc Hi. unfold rsi_gain. apply rolling_mean_cases.
  - now apply gains_not_negative, diff_values.
  - now autorewrite with lens.
Qed.

Lemma rsi_loss_cases p (close : Series) i :
  Forall finite close → i < length close →
  rsi_loss p close !!! i = NaN
  ∨ ∃ a, rsi_loss p close !!! i = Fin a ∧ (0 <= a)%Q.
Proof.
  intros Hc Hi. unfold rsi_loss. apply rolling_mean_cases.
  - now apply losses_not_negative, diff_values.
  - now autorewrite with lens.
Qed.




(** ** Which positions of a rolling column are undefined *)


Lemma foldl_add_finite (w : list num) (acc : num) :
  finite acc → Forall finite w → finite (foldl num_add acc w).
Proof.
  revert acc. induction w as [|x w IH]; intros acc Hacc Hw; simpl; [assumption |].
  inversion Hw as [|? ? [a ->]%finite_Fin Hw']; subst.
  apply finite_Fin in Hacc as [b ->]. now apply IH.
Qed.

Lemma Qeq_bool_of_nat_pos (n : nat) :
  0 < n → Qeq_bool (inject_Z (Z.of_nat n)) 0 = false.
Proof.
  intros Hn. reflect_Q. intros H.
  assert (Hpos : (0 < inject_Z (Z.of_nat n))%Q)
    by (change 0%Q with (inject_Z 0); rewrite <- Zlt_Qlt; lia).
  lra.
Qed.

Lemma mean_finite (w : list num) : w ≠ [] → Forall finite w → finite (mean w).
Proof.
  intros Hne Hw. unfold mean, sum.
  destruct (proj1 (finite_Fin _) (foldl_add_finite w (of_Z 0) eq_refl Hw)) as [a ->].
  simpl. rewrite Qeq_bool_of_nat_pos; [reflexivity |].
  destruct w; [congruence | simpl; lia].
Qed.

Lemma foldl_min_finite (w : list num) x :
  finite x → Forall finite w → finite (foldl num_min x w).
Proof.
  revert x. induction w as [|y w IH]; intros x Hx Hw; simpl; [assumption |].
  inversion Hw; subst. apply IH; [| assumption].
  unfold num_min. now destruct (y <? x)%num.
Qed.

Lemma foldl_max_finite (w : list num) x :
  finite x → Forall finite w → finite (foldl num_max x w).
Proof.
  revert x. induction w as [|y w IH]; intros x Hx Hw; simpl; [assumption |].
  inversion Hw; subst. apply IH; [| assumption].
  unfold num_max. now destruct (x <? y)%num.
Qed.

Lemma min_finite (w : list num) : w ≠ [] → Forall finite w → finite (min_ w).
Proof.
  destruct w as [|x w]; [congruence |]. intros _ Hw. inversion Hw; subst.
  now apply foldl_min_finite.
Qed.

Lemma max_finite (w : list num) : w ≠ [] → Forall finite w → finite (max_ w).
Proof.
  destruct w as [|x w]; [congruence |]. intros _ Hw. inversion Hw; subst.
  now apply foldl_max_finite.
Qed.



Lemma Qsquare_not_negative (x : Q) : (0 <= x * x)%Q.
Proof.
  destruct (Qlt_le_dec x 0) as [Hneg | Hpos].
  - assert (H : (x * x == (- x) * (- x))%Q) by ring. rewrite H.
    apply Qmult_le_0_compat; lra.
  - now apply Qmult_le_0_compat.
Qed.

Lemma squares_not_negative (w : list num) (m : Q) :
  Forall finite w →
  Forall (λ x, finite x ∧ (of_Z 0 <= x)%num)
    ((λ x, (x - Fin m) * (x - Fin m))%num <$> w).
Proof.
  intros Hw. apply Forall_fmap. eapply Forall_impl; [exact Hw |]. simpl.
  intros x [a ->]%finite_Fin. split; [reflexivity |].
  unfold num_le. simpl. reflect_Q. apply Qsquare_not_negative.
Qed.

Lemma std_finite (sqrtQ : Q → Q) (w : list num) :
  2 ≤ length w → Forall finite w → finite (std sqrtQ w).
Proof.
  intros Hlen Hw. unfold std.
  destruct (proj1 (finite_Fin _) (mean_finite w ltac:(intros ->; simpl in Hlen; lia) Hw))
    as [m ->].
  destruct (foldl_add_not_negative _ (of_Z 0) ltac:(easy) (squares_not_negative w m Hw))
    as [[ss Hss]%finite_Fin Hle].
  unfold sum. rewrite Hss in *. unfold num_le in Hle. simpl in Hle. reflect_Q.
  assert (Hd : (0 < inject_Z (Z.of_nat (length w) - 1))%Q)
    by (change 0%Q with (inject_Z 0); rewrite <- Zlt_Qlt; lia).
  simpl. destruct (Qeq_bool (inject_Z (Z.of_nat (length w) - 1)) 0) eqn:E;
    reflect_Q; [lra |].
  simpl. destruct (Qle_bool 0 (ss / inject_Z (Z.of_nat (length w) - 1))) eqn:E';
    [reflexivity |].
  reflect_Q. exfalso.
  assert ((0 <= ss / inject_Z (Z.of_nat (length w) - 1))%Q)
    by (apply Qle_shift_div_l; [assumption | unfold inject_Z in *; lra]).
  lra.
Qed.

(** The sample deviation of a single observation is 0/0. *)
Lemma std_single (sqrtQ : Q → Q) (w : list num) :
  length w = 1 → Forall finite w → std sqrtQ w = NaN.
Proof.
  destruct w as [|x [|y w]]; try discriminate. intros _ Hw.
  inversion Hw as [|? ? [a ->]%finite_Fin _]; subst.
  unfold std, mean, sum. simpl.
  rewrite inf_of_sign_zero; [reflexivity |].
  unfold inject_Z. field.
Qed.

(** [diff(n)] has no value on the first [n] positions and the difference
    with the value [n] bars earlier afterwards. *)
Lemma at_diff n (s : Series) i :
  i < length s →
  diff n s !!! i =
    if decide (i < n) then NaN else num_sub (s !!! i) (s !!! (i - n)).
Proof.
  intros Hi. unfold diff. destruct (decide (i < n)) as [Hlt | Hge].
  - rewrite lookup_total_app_l by (rewrite length_replicate; lia).
    apply lookup_total_replicate_2. lia.
  - rewrite lookup_total_app_r by (rewrite length_replicate; lia).
    rewrite length_replicate.
    rewrite at_zip_with by (rewrite ?length_drop; lia).
    rewrite lookup_total_drop. do 2 f_equal; lia.
Qed.



Section UndefinedPrefix.

Variable sqrtQ : Q → Q.
Variable p : nat.
Hypothesis period_positive : 1 ≤ p.












End UndefinedPrefix.




(** ** The indicators on the six example bars

    Closes 1 2 4 3 3 7, highs 2 3 5 4 4 8, lows 0 1 3 2 2 6. *)

Example rsi_on_bars :
  same_series (column_of (calculate_rsi 2 frame_bars) "RSI")
    [NaN; of_Z 100; of_Z 100; Fin (200 # 3); of_Z 0; of_Z 100] = true.
Proof. reflexivity. Qed.

Example macd_on_bars :
  same_series (column_of (calculate_macd 1 3 1 frame_bars) "MACD")
    [of_Z 0; Fin (1 # 2); Fin (5 # 4); Fin (1 # 8); Fin (1 # 16); Fin (65 # 32)] = true
  ∧ same_series (column_of (calculate_macd 1 3 1 frame_bars) "Signal_Line")
      [of_Z 0; Fin (1 # 2); Fin (5 # 4); Fin (1 # 8); Fin (1 # 16); Fin (65 # 32)] = true.
Proof. split; reflexivity. Qed.

Example bollinger_middle_on_bars :
  same_series (column_of (calculate_bollinger_bands isqrtQ 3 (of_Z 2) frame_bars) "BB_middle")
    [NaN; NaN; Fin (7 # 3); of_Z 3; Fin (10 # 3); Fin (13 # 3)] = true.
Proof. reflexivity. Qed.

Example fibonacci_on_bars :
  same_series (column_of (calculate_fibonacci_levels 3 frame_bars) "Fib_0")
    [NaN; NaN; of_Z 0; of_Z 1; of_Z 2; of_Z 2] = true
  ∧ same_series (column_of (calculate_fibonacci_levels 3 frame_bars) "Fib_236")
      [NaN; NaN; Fin 1.18; Fin 1.944; Fin 2.708; Fin 3.416] = true
  ∧ same_series (column_of (calculate_fibonacci_levels 3 frame_bars) "Fib_100")
      [NaN; NaN; of_Z 5; of_Z 5; of_Z 5; of_Z 8] = true.
Proof. repeat split; reflexivity. Qed.

Example momentum_on_bars :
  same_series (column_of (calculate_momentum 2 frame_bars) "Momentum")
    [NaN; NaN; of_Z 3; of_Z 1; of_Z (-1); of_Z 4] = true.
Proof. reflexivity. Qed.

Example pivot_points_on_bars :
  same_series (column_of (calculate_pivot_points frame_bars) "PP")
    [of_Z 1; of_Z 2; of_Z 4; of_Z 3; of_Z 3; of_Z 7] = true
  ∧ same_series (column_of (calculate_pivot_points frame_bars) "R1")
      [of_Z 2; of_Z 3; of_Z 5; of_Z 4; of_Z 4; of_Z 8] = true
  ∧ same_series (column_of (calculate_pivot_points frame_bars) "S2")
      [of_Z (-1); of_Z 0; of_Z 2; of_Z 1; of_Z 1; of_Z 5] = true.
Proof. repeat split; reflexivity. Qed.

(** ** The special values against binary64

    The rules of [num_div], [num_add] and [num_sub] for zero divisors and
    infinities are those of binary64, on which the RSI of a window without
    losses relies. *)

Example binary64_zero_divisor :
  (1 / 0 = infinity)%float
  ∧ PrimFloat.is_nan (0 / 0)%float = true
  ∧ (100 - 100 / (1 + infinity) = 100)%float.
Proof. repeat split; reflexivity. Qed.

Example num_zero_divisor :
  (of_Z 1 / of_Z 0)%num = PInf
  ∧ isna (of_Z 0 / of_Z 0)%num = true
  ∧ (of_Z 100 - of_Z 100 / (of_Z 1 + PInf) == of_Z 100)%num.
Proof. repeat split; reflexivity. Qed.

(** ** The pipeline and the engine on the six example bars

    The series is shorter than every rolling period, so only the MACD rule
    can fire. *)

Example pipeline_on_bars :
  ∃ d, fetch_and_analyze_data isqrtQ frame_bars "BTC/USDT" = ([], Ok (Some d))
       ∧ dom (columns d) =
           list_to_set
             ["open"; "high"; "low"; "close"; "volume";
              "RSI"; "MACD"; "Signal_Line"; "BB_middle"; "BB_upper"; "BB_lower";
              "Fib_0"; "Fib_236"; "Fib_382"; "Fib_500"; "Fib_618"; "Fib_100";
              "Support"; "Resistance"; "Momentum";
              "PP"; "R1"; "S1"; "R2"; "S2"]
       ∧ generate_trading_signals d =
           Ok {| action := Some BUY;
                 confidence := 0.3%float;
                 reasons := ["MACD crossed above signal line"] |}.
Proof.
  eexists. split; [reflexivity |]. split; [| vm_compute; reflexivity].
  apply (bool_decide_eq_true_1 _). vm_compute. reflexivity.
Qed.

(** * Further properties of the code *)

Lemma length_ewm_from alpha prev (s : Series) :
  length (ewm_from alpha prev s) = length s.
Proof. revert prev. induction s as [|x s IH]; intros prev; simpl; [| rewrite IH]; reflexivity. Qed.

Lemma length_ewm_mean span (s : Series) : length (ewm_mean span s) = length s.
Proof. destruct s; simpl; [| rewrite length_ewm_from]; reflexivity. Qed.

#[global] Hint Rewrite length_ewm_from length_ewm_mean : lens.

(** Membership of a column name in a list of names. *)
Ltac is_listed :=
  repeat first [apply list_elem_of_here | apply list_elem_of_further].

Ltac not_listed :=
  repeat (apply not_elem_of_cons; split; [discriminate |]);
  apply not_elem_of_nil.

Lemma getitem_length_intro data key (s : Series) n :
  getitem data key = Ok s → length s = n →
  ∃ s', getitem data key = Ok s' ∧ length s' = n.
Proof. eauto. Qed.

(** ** Indicators as column assignments *)

Lemma assign_app data l1 l2 : assign (assign data l1) l2 = assign data (l1 ++ l2).
Proof. unfold assign. now rewrite foldl_app. Qed.

Lemma index_assign data l : index (assign data l) = index data.
Proof. revert data. induction l as [|kv l IH]; intros data; simpl; [| rewrite IH]; reflexivity. Qed.

Lemma columns_assign data l :
  columns (assign data l) = list_to_map (reverse l) ∪ columns data.
Proof.
  revert data. induction l as [|[k v] l IH]; intros data; simpl.
  - now rewrite (left_id_L ∅ (∪)).
  - rewrite IH, reverse_cons, list_to_map_app. simpl.
    rewrite <- (assoc_L (∪)). f_equal.
    now rewrite insert_union_singleton_l, insert_empty.
Qed.

Lemma assign_permutation data l1 l2 :
  NoDup (l1.*1) → l1 ≡ₚ l2 → assign data l1 = assign data l2.
Proof.
  intros Hnd Hp.
  assert (Hc : columns (assign data l1) = columns (assign data l2)).
  { rewrite !columns_assign. f_equal. apply list_to_map_proper.
    - now rewrite fmap_reverse, reverse_Permutation.
    - now rewrite !reverse_Permutation. }
  assert (Hi : index (assign data l1) = index (assign data l2))
    by now rewrite !index_assign.
  destruct (assign data l1), (assign data l2). simpl in *. congruence.
Qed.

Lemma getitem_assign_ne data l key :
  key ∉ l.*1 → getitem (assign data l) key = getitem data key.
Proof.
  revert data. induction l as [|[k v] l IH]; intros data Hkey; simpl; [reflexivity |].
  rewrite fmap_cons in Hkey. apply not_elem_of_cons in Hkey as [Hne Hkey].
  rewrite IH by assumption. apply getitem_setitem_ne. simpl in Hne. congruence.
Qed.

Lemma getitem_assign_in data l key (s : Series) :
  NoDup (l.*1) → (key, s) ∈ l → getitem (assign data l) key = Ok s.
Proof.
  intros Hnd Hin. unfold getitem. rewrite columns_assign.
  assert (Hl : (list_to_map (reverse l) : gmap string Series) !! key = Some s).
  { apply elem_of_list_to_map.
    - now rewrite fmap_reverse, reverse_Permutation.
    - now apply elem_of_reverse. }
  now rewrite (lookup_union_Some_l _ _ _ _ Hl).
Qed.

Lemma price_frame_assign data high low close l :
  price_frame data high low close →
  "high" ∉ l.*1 → "low" ∉ l.*1 → "close" ∉ l.*1 →
  price_frame (assign data l) high low close.
Proof.
  intros (Hh & Hl & Hc) ? ? ?. unfold price_frame.
  now rewrite !getitem_assign_ne.
Qed.

Lemma writes_bind f g high low close c1 c2 :
  writes f high low close c1 →
  writes g high low close c2 →
  "high" ∉ c1.*1 → "low" ∉ c1.*1 → "close" ∉ c1.*1 →
  writes (λ data, f data ≫= g) high low close (c1 ++ c2).
Proof.
  intros Hf Hg ? ? ? data Hdata. rewrite (Hf data Hdata). simpl.
  rewrite (Hg (assign data c1)) by now apply price_frame_assign.
  now rewrite assign_app.
Qed.

Ltac run_writer :=
  let data := fresh "data" in
  let Hh := fresh "Hh" in
  let Hl := fresh "Hl" in
  let Hc := fresh "Hc" in
  intros data (Hh & Hl & Hc); run_indicator; reflexivity.

Lemma writes_rsi period high low close :
  writes (calculate_rsi period) high low close
    [("RSI", (λ r, of_Z 100 - of_Z 100 / (of_Z 1 + r))%num
               <$> zip_with num_div (rsi_gain period close) (rsi_loss period close))].
Proof. unfold calculate_rsi. run_writer. Qed.

Lemma writes_macd short long signal high low close :
  let macd := zip_with num_sub (ewm_mean short close) (ewm_mean long close) in
  writes (calculate_macd short long signal) high low close
    [("MACD", macd); ("Signal_Line", ewm_mean signal macd)].
Proof. cbv zeta. unfold calculate_macd. run_writer. Qed.

Lemma writes_bollinger sqrtQ period std_dev high low close :
  let middle := rolling period mean close in
  let offset := (λ s, s * std_dev)%num <$> rolling period (std sqrtQ) close in
  writes (calculate_bollinger_bands sqrtQ period std_dev) high low close
    [("BB_middle", middle);
     ("BB_upper", zip_with num_add middle offset);
     ("BB_lower", zip_with num_sub middle offset)].
Proof. cbv zeta. unfold calculate_bollinger_bands. run_writer. Qed.

Lemma writes_fibonacci period high low close :
  let high_max := rolling period max_ high in
  let low_min := rolling period min_ low in
  let level (f : Q) :=
    zip_with num_add low_min
      ((λ d, d * Fin f)%num <$> zip_with num_sub high_max low_min) in
  writes (calculate_fibonacci_levels period) high low close
    [("Fib_0", low_min); ("Fib_236", level 0.236%Q); ("Fib_382", level 0.382%Q);
     ("Fib_500", level 0.500%Q); ("Fib_618", level 0.618%Q); ("Fib_100", high_max)].
Proof. cbv zeta. unfold calculate_fibonacci_levels. run_writer. Qed.

Lemma writes_support_resistance window high low close :
  writes (calculate_support_resistance window) high low close
    [("Support", rolling window min_ low); ("Resistance", rolling window max_ high)].
Proof. unfold calculate_support_resistance. run_writer. Qed.

Lemma writes_momentum period high low close :
  writes (calculate_momentum period) high low close
    [("Momentum", diff period close)].
Proof. unfold calculate_momentum. run_writer. Qed.

Lemma writes_pivot_points high low close :
  let pp := (λ x, x / of_Z 3)%num
              <$> zip_with num_add (zip_with num_add high low) close in
  writes calculate_pivot_points high low close
    [("PP", pp);
     ("R1", zip_with num_sub ((λ x, of_Z 2 * x)%num <$> pp) low);
     ("S1", zip_with num_sub ((λ x, of_Z 2 * x)%num <$> pp) high);
     ("R2", zip_with num_add pp (zip_with num_sub high low));
     ("S2", zip_with num_sub pp (zip_with num_sub high low))].
Proof. cbv zeta. unfold calculate_pivot_points. run_writer. Qed.

(** The columns an indicator writes, by name and length, when all price
    columns have [n] rows. *)
Lemma all_indicators_write sqrtQ (high low close : Series) n :
  ∃ cols,
    cols.*1 = ["RSI"; "MACD"; "Signal_Line"; "BB_middle"; "BB_upper"; "BB_lower";
               "Fib_0"; "Fib_236"; "Fib_382"; "Fib_500"; "Fib_618"; "Fib_100"]
    ∧ (length high = n → length low = n → length close = n →
       Forall (λ kv, length kv.2 = n) cols)
    ∧ writes (calculate_all_indicators sqrtQ) high low close cols.
Proof.
  eexists. split; [| split]; cycle 2.
  - unfold calculate_all_indicators.
    apply (writes_bind (calculate_rsi 14)); [apply writes_rsi | | cbn; not_listed ..].
    apply (writes_bind (calculate_macd 12 26 9)); [apply writes_macd | | cbn; not_listed ..].
    apply (writes_bind (calculate_bollinger_bands sqrtQ 20 (of_Z 2)));
      [apply writes_bollinger | | cbn; not_listed ..].
    apply writes_fibonacci.
  - reflexivity.
  - intros Lh Ll Lc. rewrite !Forall_app.
    repeat split; repeat apply Forall_cons_2; try apply Forall_nil_2;
      cbn [snd]; solve_length.
Qed.

Lemma support_resistance_write window (high low close : Series) n :
  ∃ cols,
    cols.*1 = ["Support"; "Resistance"]
    ∧ (length high = n → length low = n → Forall (λ kv, length kv.2 = n) cols)
    ∧ writes (calculate_support_resistance window) high low close cols.
Proof.
  eexists. split; [| split]; cycle 2.
  - apply writes_support_resistance.
  - reflexivity.
  - intros Lh Ll. repeat apply Forall_cons_2; try apply Forall_nil_2;
      cbn [snd]; solve_length.
Qed.

Lemma momentum_write period (high low close : Series) n :
  ∃ cols,
    cols.*1 = ["Momentum"]
    ∧ (length close = n → Forall (λ kv, length kv.2 = n) cols)
    ∧ writes (calculate_momentum period) high low close cols.
Proof.
  eexists. split; [| split]; cycle 2.
  - apply writes_momentum.
  - reflexivity.
  - intros Lc. repeat apply Forall_cons_2; try apply Forall_nil_2;
      cbn [snd]; solve_length.
Qed.

Lemma pivot_points_write (high low close : Series) n :
  ∃ cols,
    cols.*1 = ["PP"; "R1"; "S1"; "R2"; "S2"]
    ∧ (length high = n → length low = n → length close = n →
       Forall (λ kv, length kv.2 = n) cols)
    ∧ writes calculate_pivot_points high low close cols.
Proof.
  eexists. split; [| split]; cycle 2.
  - apply writes_pivot_points.
  - reflexivity.
  - intros Lh Ll Lc. repeat apply Forall_cons_2; try apply Forall_nil_2;
      cbn [snd]; solve_length.
Qed.

Lemma NoDup_indicator_columns : NoDup indicator_columns.
Proof. apply (bool_decide_unpack _). vm_compute. reflexivity. Qed.

(** ** The order of the indicators *)

(** X4: the enriched frame does not depend on the order in which the
    indicators are applied: running the three custom indicators first and
    the analyzer last gives the same frame as the pipeline. *)
Theorem indicator_order_is_irrelevant sqrtQ window period data
    (high low close : Series) :
  getitem data "high" = Ok high →
  getitem data "low" = Ok low →
  getitem data "close" = Ok close →
  (d ← calculate_all_indicators sqrtQ data;
   d ← calculate_support_resistance window d;
   d ← calculate_momentum period d;
   calculate_pivot_points d)
  = (d ← calculate_pivot_points data;
     d ← calculate_momentum period d;
     d ← calculate_support_resistance window d;
     calculate_all_indicators sqrtQ d).
Proof.
  intros Hh Hl Hc.
  assert (Hdata : price_frame data high low close) by (repeat split; assumption).
  destruct (all_indicators_write sqrtQ high low close 0) as (A & KA & _ & WA).
  destruct (support_resistance_write window high low close 0) as (B & KB & _ & WB).
  destruct (momentum_write period high low close 0) as (C & KC & _ & WC).
  destruct (pivot_points_write high low close 0) as (D & KD & _ & WD).
  assert (W1 : writes (λ data,
                 d ← calculate_all_indicators sqrtQ data;
                 d ← calculate_support_resistance window d;
                 d ← calculate_momentum period d;
                 calculate_pivot_points d) high low close (A ++ B ++ C ++ D)).
  { apply (writes_bind (calculate_all_indicators sqrtQ)); [exact WA | | rewrite KA; not_listed ..].
    apply (writes_bind (calculate_support_resistance window)); [exact WB | | rewrite KB; not_listed ..].
    apply (writes_bind (calculate_momentum period)); [exact WC | | rewrite KC; not_listed ..].
    exact WD. }
  assert (W2 : writes (λ data,
                 d ← calculate_pivot_points data;
                 d ← calculate_momentum period d;
                 d ← calculate_support_resistance window d;
                 calculate_all_indicators sqrtQ d) high low close (D ++ C ++ B ++ A)).
  { apply (writes_bind calculate_pivot_points); [exact WD | | rewrite KD; not_listed ..].
    apply (writes_bind (calculate_momentum period)); [exact WC | | rewrite KC; not_listed ..].
    apply (writes_bind (calculate_support_resistance window)); [exact WB | | rewrite KB; not_listed ..].
    exact WA. }
  rewrite (W1 data Hdata), (W2 data Hdata). f_equal.
  apply assign_permutation.
  - rewrite !fmap_app, KA, KB, KC, KD. exact NoDup_indicator_columns.
  - rewrite (Permutation_app_comm A), (Permutation_app_comm B), (Permutation_app_comm C).
    now rewrite <- !(assoc_L (++)).
Qed.

Lemma indicator_order_is_irrelevant_witness :
  (d ← calculate_all_indicators isqrtQ frame_bars;
   d ← calculate_support_resistance 20 d;
   d ← calculate_momentum 14 d;
   calculate_pivot_points d)
  = (d ← calculate_pivot_points frame_bars;
     d ← calculate_momentum 14 d;
     d ← calculate_support_resistance 20 d;
     calculate_all_indicators isqrtQ d).
Proof.
  apply (indicator_order_is_irrelevant isqrtQ 20 14 frame_bars
           bars_high bars_low bars_close); reflexivity.
Defined.

(** ** From the exchange to the Signal *)

Lemma lookup_assign_ne data l key :
  key ∉ l.*1 → columns (assign data l) !! key = columns data !! key.
Proof.
  revert data. induction l as [|[k v] l IH]; intros data Hkey; simpl; [reflexivity |].
  rewrite fmap_cons in Hkey. apply not_elem_of_cons in Hkey as [Hne Hkey].
  rewrite IH by assumption. simpl. apply lookup_insert_ne. simpl in Hne. congruence.
Qed.

Lemma pipeline_on_price_frame sqrtQ data (high low close : Series) symbol n :
  index data ≠ [] →
  getitem data "high" = Ok high →
  getitem data "low" = Ok low →
  getitem data "close" = Ok close →
  length high = n → length low = n → length close = n →
  ∃ d, fetch_and_analyze_data sqrtQ data symbol = ([], Ok (Some d))
       ∧ index d = index data
       ∧ (∀ key, key ∉ indicator_columns → columns d !! key = columns data !! key)
       ∧ Forall (λ key, ∃ s, getitem d key = Ok s ∧ length s = n) indicator_columns.
Proof.
  intros Hidx Hh Hl Hc Lh Ll Lc.
  assert (Hdata : price_frame data high low close) by (repeat split; assumption).
  assert (Hne : empty_ data = false).
  { unfold empty_. rewrite bool_decide_eq_false_2 by assumption.
    rewrite bool_decide_eq_false_2; [reflexivity |].
    intros Hemp. unfold getitem in Hc. rewrite Hemp, lookup_empty in Hc. discriminate. }
  destruct (all_indicators_write sqrtQ high low close n) as (A & KA & LA & WA).
  destruct (support_resistance_write 20 high low close n) as (B & KB & LB & WB).
  destruct (momentum_write 14 high low close n) as (C & KC & LC & WC).
  destruct (pivot_points_write high low close n) as (D & KD & LD & WD).
  assert (HA : price_frame (assign data A) high low close)
    by (apply price_frame_assign; [assumption | rewrite KA; not_listed ..]).
  assert (HB : price_frame (assign (assign data A) B) high low close)
    by (apply price_frame_assign; [assumption | rewrite KB; not_listed ..]).
  assert (HC : price_frame (assign (assign (assign data A) B) C) high low close)
    by (apply price_frame_assign; [assumption | rewrite KC; not_listed ..]).
  unfold fetch_and_analyze_data. rewrite Hne.
  rewrite (WA data Hdata). simpl.
  rewrite (WB _ HA). simpl. rewrite (WC _ HB). simpl. rewrite (WD _ HC). simpl.
  rewrite !assign_app.
  assert (Hkeys : (A ++ B ++ C ++ D).*1 = indicator_columns)
    by (rewrite !fmap_app, KA, KB, KC, KD; reflexivity).
  assert (Hlen : Forall (λ kv, length kv.2 = n) (A ++ B ++ C ++ D)).
  { rewrite !Forall_app. auto. }
  eexists. split; [reflexivity |]. split; [apply index_assign |]. split.
  - intros key Hkey. apply lookup_assign_ne. now rewrite Hkeys.
  - rewrite <- Hkeys. apply Forall_forall. intros key Hkey.
    apply list_elem_of_fmap in Hkey as ([k s] & -> & Hin).
    exists s. split.
    + apply getitem_assign_in; [| exact Hin].
      rewrite Hkeys. exact NoDup_indicator_columns.
    + exact (proj1 (Forall_forall _ _) Hlen _ Hin).
Qed.
Lemma length_to_datetime_column to_datetime timestamps dates :
  to_datetime_column to_datetime timestamps = Returned dates →
  length dates = length timestamps.
Proof.
  revert dates. induction timestamps as [|t ts IH]; intros dates H; simpl in H.
  - now injection H as <-.
  - destruct (to_datetime t) as [date|]; [| discriminate H].
    destruct (to_datetime_column to_datetime ts) as [ds|]; [| discriminate H].
    injection H as <-. simpl. now rewrite (IH ds).
Qed.

Lemma fetched_columns to_datetime rows dates :
  to_datetime_column to_datetime (row_timestamp <$> rows) = Returned dates →
  let fetched := fetch_ohlcv to_datetime (Returned rows) in
  fetched.1 = []
  ∧ index fetched.2 = dates
  ∧ getitem fetched.2 "open" = Ok (row_open <$> rows)
  ∧ getitem fetched.2 "high" = Ok (row_high <$> rows)
  ∧ getitem fetched.2 "low" = Ok (row_low <$> rows)
  ∧ getitem fetched.2 "close" = Ok (row_close <$> rows)
  ∧ getitem fetched.2 "volume" = Ok (row_volume <$> rows)
  ∧ columns fetched.2 !! "timestamp" = None.
Proof.
  intros H. cbv zeta. unfold fetch_ohlcv. rewrite H. repeat split; reflexivity.
Qed.

(** X1: when the exchange raises, or returns no rows, the fetcher hands
    over an empty frame and the pipeline rejects it: one error on the
    dashboard, nothing returned, no indicator computed. *)
Theorem failed_fetch_is_rejected sqrtQ to_datetime symbol :
  (∀ e, (fetch_ohlcv to_datetime (Failed e)).1 = ["Error fetching data: " +:+ e]
        ∧ fetch_and_analyze_data sqrtQ (fetch_ohlcv to_datetime (Failed e)).2 symbol =
            ([st_error ("Failed to fetch data for " +:+ symbol)], Ok None))
  ∧ fetch_and_analyze_data sqrtQ (fetch_ohlcv to_datetime (Returned [])).2 symbol =
      ([st_error ("Failed to fetch data for " +:+ symbol)], Ok None).
Proof. split; [intros e; split |]; reflexivity. Qed.

(** The pipeline on the frame of a reply whose timestamps convert. *)
Lemma fetched_rows_are_enriched sqrtQ to_datetime rows dates symbol :
  rows ≠ [] →
  to_datetime_column to_datetime (row_timestamp <$> rows) = Returned dates →
  ∃ d, fetch_and_analyze_data sqrtQ (fetch_ohlcv to_datetime (Returned rows)).2 symbol =
         ([], Ok (Some d))
       ∧ index d = dates
       ∧ getitem d "open" = Ok (row_open <$> rows)
       ∧ getitem d "high" = Ok (row_high <$> rows)
       ∧ getitem d "low" = Ok (row_low <$> rows)
       ∧ getitem d "close" = Ok (row_close <$> rows)
       ∧ getitem d "volume" = Ok (row_volume <$> rows)
       ∧ columns d !! "timestamp" = None
       ∧ Forall (λ key, ∃ s, getitem d key = Ok s ∧ length s = length rows)
           indicator_columns.
Proof.
  intros Hrows Hdates.
  destruct (fetched_columns to_datetime rows dates Hdates)
    as (_ & Hi & Ho & Hh & Hl & Hc & Hv & Ht).
  set (data := (fetch_ohlcv to_datetime (Returned rows)).2) in *.
  assert (Hne : index data ≠ []).
  { rewrite Hi. apply length_to_datetime_column in Hdates.
    rewrite length_fmap in Hdates. intros ->. destruct rows; [congruence | discriminate]. }
  destruct (pipeline_on_price_frame sqrtQ data _ _ _ symbol (length rows)
              Hne Hh Hl Hc ltac:(apply length_fmap) ltac:(apply length_fmap)
              ltac:(apply length_fmap))
    as (d & Hd & Hidx & Hkeep & Hcols).
  exists d. split; [exact Hd |]. split; [congruence |].
  assert (Hraw : ∀ key, key ∉ indicator_columns → getitem d key = getitem data key).
  { intros key Hkey. unfold getitem. now rewrite Hkeep. }
  rewrite !Hraw by (unfold indicator_columns; not_listed).
  rewrite Hkeep by (unfold indicator_columns; not_listed).
  repeat split; assumption.
Qed.

(** X2: what the fetcher and the pipeline make of a reply of the exchange
    with at least one row.  If the conversion of a timestamp raises, the
    fetcher prints the error and hands over an empty frame, which the
    pipeline rejects with one error on the dashboard.  Otherwise the
    pipeline returns an enriched frame and raises nothing: the frame is
    indexed by the dates, keeps the five price columns as they were
    fetched, has no [timestamp] column, and has each of the twenty
    indicator columns with one value per row. *)
Theorem pipeline_enriches_fetched_rows sqrtQ to_datetime rows symbol :
  rows ≠ [] →
  let fetched := fetch_ohlcv to_datetime (Returned rows) in
  let analysed := fetch_and_analyze_data sqrtQ fetched.2 symbol in
  match to_datetime_column to_datetime (row_timestamp <$> rows) with
  | Failed e =>
      fetched.1 = ["Error fetching data: " +:+ e]
      ∧ analysed = ([st_error ("Failed to fetch data for " +:+ symbol)], Ok None)
  | Returned dates =>
      fetched.1 = []
      ∧ ∃ d, analysed = ([], Ok (Some d))
           ∧ index d = dates
           ∧ getitem d "open" = Ok (row_open <$> rows)
           ∧ getitem d "high" = Ok (row_high <$> rows)
           ∧ getitem d "low" = Ok (row_low <$> rows)
           ∧ getitem d "close" = Ok (row_close <$> rows)
           ∧ getitem d "volume" = Ok (row_volume <$> rows)
           ∧ columns d !! "timestamp" = None
           ∧ Forall (λ key, ∃ s, getitem d key = Ok s ∧ length s = length rows)
               indicator_columns
  end.
Proof.
  intros Hrows. cbv zeta.
  destruct (to_datetime_column to_datetime (row_timestamp <$> rows))
    as [dates | e] eqn:Hdates.
  - split; [now apply (fetched_columns to_datetime rows dates) |].
    now apply fetched_rows_are_enriched.
  - unfold fetch_ohlcv. rewrite Hdates. split; reflexivity.
Qed.

Lemma pipeline_enriches_fetched_rows_witness :
  (fetch_ohlcv in_range_date (Returned example_rows)).1 = []
  ∧ ∃ d, fetch_and_analyze_data isqrtQ
           (fetch_ohlcv in_range_date (Returned example_rows)).2 "BTC/USDT" =
           ([], Ok (Some d))
       ∧ index d = row_timestamp <$> example_rows
       ∧ getitem d "open" = Ok (row_open <$> example_rows)
       ∧ getitem d "high" = Ok (row_high <$> example_rows)
       ∧ getitem d "low" = Ok (row_low <$> example_rows)
       ∧ getitem d "close" = Ok (row_close <$> example_rows)
       ∧ getitem d "volume" = Ok (row_volume <$> example_rows)
       ∧ columns d !! "timestamp" = None
       ∧ Forall (λ key, ∃ s, getitem d key = Ok s ∧ length s = 30)
           indicator_columns.
Proof.
  exact (pipeline_enriches_fetched_rows isqrtQ in_range_date example_rows "BTC/USDT"
           ltac:(discriminate)).
Defined.

Lemma iloc_last_Ok (s : Series) : s ≠ [] → ∃ x, iloc_last s = Ok x.
Proof.
  intros Hs. unfold iloc_last. destruct (last s) as [x|] eqn:E; [eauto |].
  apply last_None in E. contradiction.
Qed.

Lemma latest_of_column data key (s : Series) n :
  0 < n → (∃ s, getitem data key = Ok s ∧ length s = n) → ∃ x, latest data key = Ok x.
Proof.
  intros Hn (s' & Hs & Hl). unfold latest. rewrite Hs. simpl.
  apply iloc_last_Ok. intros ->. simpl in Hl. lia.
Qed.

(** The engine returns a Signal as soon as the six columns it reads have
    a latest row. *)
Lemma engine_returns data rsi macd sl close lo up :
  latest data "RSI" = Ok rsi →
  latest data "MACD" = Ok macd →
  latest data "Signal_Line" = Ok sl →
  latest data "close" = Ok close →
  latest data "BB_lower" = Ok lo →
  latest data "BB_upper" = Ok up →
  ∃ s, generate_trading_signals data = Ok s.
Proof.
  intros Hrsi Hmacd Hsl Hclose Hlo Hup. read_latest.
  repeat match goal with
  | |- context [if ?b then _ else _] => destruct b
  end; eexists; reflexivity.
Qed.

(** X3: for every reply of the exchange with at least one row whose
    timestamps convert, the engine returns a Signal on the frame the
    pipeline hands over: no missing column, no empty series. *)
Theorem engine_returns_on_pipeline_output sqrtQ to_datetime rows dates symbol :
  rows ≠ [] →
  to_datetime_column to_datetime (row_timestamp <$> rows) = Returned dates →
  ∃ d s, fetch_and_analyze_data sqrtQ
           (fetch_ohlcv to_datetime (Returned rows)).2 symbol = ([], Ok (Some d))
         ∧ generate_trading_signals d = Ok s.
Proof.
  intros Hrows Hdates.
  destruct (fetched_rows_are_enriched sqrtQ to_datetime rows dates symbol Hrows Hdates)
    as (d & Hd & _ & _ & _ & _ & Hc & _ & _ & Hcols).
  assert (Hn : 0 < length rows) by (destruct rows; [congruence | simpl; lia]).
  assert (Hin : ∀ key, key ∈ indicator_columns → ∃ x, latest d key = Ok x).
  { intros key Hkey. apply (latest_of_column d key [] (length rows) Hn).
    exact (proj1 (Forall_forall _ _) Hcols key Hkey). }
  destruct (Hin "RSI" ltac:(unfold indicator_columns; is_listed)) as [rsi Hrsi].
  destruct (Hin "MACD" ltac:(unfold indicator_columns; is_listed)) as [macd Hmacd].
  destruct (Hin "Signal_Line" ltac:(unfold indicator_columns; is_listed)) as [sl Hsl].
  destruct (Hin "BB_lower" ltac:(unfold indicator_columns; is_listed)) as [lo Hlo].
  destruct (Hin "BB_upper" ltac:(unfold indicator_columns; is_listed)) as [up Hup].
  destruct (latest_of_column d "close" [] (length rows) Hn
              ltac:(eexists; split; [exact Hc | apply length_fmap])) as [c Hcl].
  destruct (engine_returns d rsi macd sl c lo up) as [s Hs]; try assumption.
  exists d, s. split; assumption.
Qed.

Lemma engine_returns_on_pipeline_output_witness :
  ∃ d s, fetch_and_analyze_data isqrtQ
           (fetch_ohlcv in_range_date (Returned example_rows)).2 "BTC/USDT" =
           ([], Ok (Some d))
         ∧ generate_trading_signals d = Ok s.
Proof.
  apply (engine_returns_on_pipeline_output isqrtQ in_range_date example_rows
           (row_timestamp <$> example_rows) "BTC/USDT");
    [discriminate | reflexivity].
Defined.

(** ** Exponential moving averages and MACD *)

(** The smoothing factor of a span of at least one bar lies in (0, 1]. *)
Lemma alpha_of_span (span : Z) :
  (1 <= span)%Z →
  ∃ a, (of_Z 2 / of_Z (span + 1))%num = Fin a ∧ (0 < a)%Q ∧ (a <= 1)%Q.
Proof.
  intros Hs. unfold num_div, of_Z.
  assert (Hpos : (0 < inject_Z (span + 1))%Q)
    by (change 0%Q with (inject_Z 0); rewrite <- Zlt_Qlt; lia).
  assert (Hge : (inject_Z 2 <= inject_Z (span + 1))%Q)
    by (rewrite <- Zle_Qle; lia).
  destruct (Qeq_bool (inject_Z (span + 1)) 0) eqn:E; reflect_Q; [lra |].
  eexists. split; [reflexivity |]. split.
  - apply Qlt_shift_div_l; [assumption | unfold inject_Z in *; lra].
  - apply Qle_shift_div_r; [assumption | unfold inject_Z in *; lra].
Qed.

(** One step of the recurrence stays between any two bounds of the
    previous average and the new value. *)
Lemma ewm_step_between (a p x lo hi : Q) :
  (0 < a)%Q → (a <= 1)%Q →
  (lo <= p)%Q → (p <= hi)%Q → (lo <= x)%Q → (x <= hi)%Q →
  ∃ y, ((of_Z 1 - Fin a) * Fin p + Fin a * Fin x)%num = Fin y
       ∧ (lo <= y)%Q ∧ (y <= hi)%Q.
Proof.
  intros Ha0 Ha1 Hlp Hph Hlx Hxh. eexists. split; [reflexivity |].
  unfold inject_Z.
  assert (H1 : (0 <= (1 - a) * (p - lo))%Q) by (apply Qmult_le_0_compat; lra).
  assert (H2 : (0 <= a * (x - lo))%Q) by (apply Qmult_le_0_compat; lra).
  assert (H3 : (0 <= (1 - a) * (hi - p))%Q) by (apply Qmult_le_0_compat; lra).
  assert (H4 : (0 <= a * (hi - x))%Q) by (apply Qmult_le_0_compat; lra).
  split; lra.
Qed.

Lemma between_Fin (lo hi : Q) x :
  (Fin lo <= x)%num → (x <= Fin hi)%num →
  ∃ q, x = Fin q ∧ (lo <= q)%Q ∧ (q <= hi)%Q.
Proof.
  unfold num_le. destruct x as [| | |q]; simpl; try discriminate.
  intros. reflect_Q. eauto.
Qed.

Lemma Fin_between (lo hi q : Q) :
  (lo <= q)%Q → (q <= hi)%Q → (Fin lo <= Fin q)%num ∧ (Fin q <= Fin hi)%num.
Proof. intros. unfold num_le. simpl. split; now reflect_Q. Qed.

Lemma ewm_from_between (a lo hi : Q) (s : Series) p :
  (0 < a)%Q → (a <= 1)%Q →
  (lo <= p)%Q → (p <= hi)%Q →
  Forall (λ x, (Fin lo <= x)%num ∧ (x <= Fin hi)%num) s →
  Forall (λ x, (Fin lo <= x)%num ∧ (x <= Fin hi)%num) (ewm_from (Fin a) (Fin p) s).
Proof.
  intros Ha0 Ha1. revert p.
  induction s as [|x s IH]; intros p Hlp Hph Hs; cbn [ewm_from]; cbv zeta.
  - constructor.
  - inversion Hs as [|? ? [Hlx Hxh] Hs']; subst.
    destruct (between_Fin lo hi x Hlx Hxh) as (q & -> & Hlq & Hqh).
    destruct (ewm_step_between a p q lo hi) as (y & Hy & Hly & Hyh); try assumption.
    rewrite Hy. constructor; [now apply Fin_between | now apply IH].
Qed.

(** An exponential moving average stays within the range of its input. *)
Lemma ewm_mean_between (span : Z) (lo hi : Q) (s : Series) :
  (1 <= span)%Z →
  Forall (λ x, (Fin lo <= x)%num ∧ (x <= Fin hi)%num) s →
  Forall (λ x, (Fin lo <= x)%num ∧ (x <= Fin hi)%num) (ewm_mean span s).
Proof.
  intros Hspan Hs. destruct s as [|x s]; cbn [ewm_mean]; [constructor |].
  inversion Hs as [|? ? [Hlx Hxh] Hs']; subst.
  destruct (alpha_of_span span Hspan) as (a & -> & Ha0 & Ha1).
  destruct (between_Fin lo hi x Hlx Hxh) as (q & -> & Hlq & Hqh).
  constructor; [now apply Fin_between | now apply ewm_from_between].
Qed.

Lemma difference_between (lo hi : Q) (s t : Series) :
  Forall (λ x, (Fin lo <= x)%num ∧ (x <= Fin hi)%num) s →
  Forall (λ x, (Fin lo <= x)%num ∧ (x <= Fin hi)%num) t →
  Forall (λ x, (Fin (lo - hi) <= x)%num ∧ (x <= Fin (hi - lo))%num)
    (zip_with num_sub s t).
Proof.
  intros Hs Ht. apply Forall_lookup. intros i x Hx.
  apply lookup_zip_with_Some in Hx as (a & b & -> & Ha & Hb).
  destruct (proj1 (Forall_lookup _ s) Hs i a Ha) as [Hla Hah].
  destruct (proj1 (Forall_lookup _ t) Ht i b Hb) as [Hlb Hbh].
  destruct (between_Fin lo hi a Hla Hah) as (qa & -> & ? & ?).
  destruct (between_Fin lo hi b Hlb Hbh) as (qb & -> & ? & ?).
  apply Fin_between; lra.
Qed.

(** MACD and its signal line on closes within [lo, hi]. *)
Lemma macd_between short long signal data (close : Series) (lo hi : Q) :
  getitem data "close" = Ok close →
  (1 <= short)%Z → (1 <= long)%Z → (1 <= signal)%Z →
  Forall (λ x, (Fin lo <= x)%num ∧ (x <= Fin hi)%num) close →
  ∃ d, calculate_macd short long signal data = Ok d
       ∧ length (column d "MACD") = length close
       ∧ length (column d "Signal_Line") = length close
       ∧ Forall (λ x, (Fin (lo - hi) <= x)%num ∧ (x <= Fin (hi - lo))%num)
           (column d "MACD")
       ∧ Forall (λ x, (Fin (lo - hi) <= x)%num ∧ (x <= Fin (hi - lo))%num)
           (column d "Signal_Line").
Proof.
  intros Hc Hs Hl Hg Hclose.
  unfold calculate_macd. run_indicator.
  eexists. split; [reflexivity |]. read_columns.
  assert (Hmacd : Forall (λ x, (Fin (lo - hi) <= x)%num ∧ (x <= Fin (hi - lo))%num)
            (zip_with num_sub (ewm_mean short close) (ewm_mean long close)))
    by (apply difference_between; now apply ewm_mean_between).
  split; [solve_length |]. split; [solve_length |].
  split; [exact Hmacd | now apply ewm_mean_between].
Qed.

(** X5: on closes that all lie within [lo, hi], and for spans of at least
    one bar, MACD and Signal_Line have a finite value at every bar, from the
    first one on, and it lies within [lo - hi, hi - lo]: neither line
    exceeds the price range of the series. *)
Theorem macd_within_price_range short long signal data (close : Series) (lo hi : Q) :
  getitem data "close" = Ok close →
  (1 <= short)%Z → (1 <= long)%Z → (1 <= signal)%Z →
  (∀ i, i < length close → (Fin lo <= close !!! i)%num ∧ (close !!! i <= Fin hi)%num) →
  ∃ d, calculate_macd short long signal data = Ok d ∧
    ∀ i, i < length close →
      let macd := column d "MACD" !!! i in
      let signal_line := column d "Signal_Line" !!! i in
      finite macd ∧ finite signal_line
      ∧ (Fin (lo - hi) <= macd)%num ∧ (macd <= Fin (hi - lo))%num
      ∧ (Fin (lo - hi) <= signal_line)%num ∧ (signal_line <= Fin (hi - lo))%num.
Proof.
  intros Hc Hs Hl Hg Hclose.
  assert (Hall : Forall (λ x, (Fin lo <= x)%num ∧ (x <= Fin hi)%num) close).
  { apply Forall_lookup. intros i x Hx.
    rewrite <- (list_lookup_total_correct close i x Hx).
    apply Hclose. now apply lookup_lt_Some with x. }
  destruct (macd_between short long signal data close lo hi Hc Hs Hl Hg Hall)
    as (d & Hd & Lm & Ls & Fm & Fs).
  exists d. split; [exact Hd |]. intros i Hi. cbv zeta.
  destruct (Forall_at _ _ i Fm ltac:(lia)) as [Hm1 Hm2].
  destruct (Forall_at _ _ i Fs ltac:(lia)) as [Hs1 Hs2].
  destruct (between_Fin _ _ _ Hm1 Hm2) as (m & Em & _).
  destruct (between_Fin _ _ _ Hs1 Hs2) as (g & Eg & _).
  repeat split; try assumption; [rewrite Em | rewrite Eg]; reflexivity.
Qed.

Lemma macd_within_price_range_witness :
  ∃ d, calculate_macd 12 26 9 frame_bars = Ok d ∧
    ∀ i, i < length bars_close →
      let macd := column d "MACD" !!! i in
      let signal_line := column d "Signal_Line" !!! i in
      finite macd ∧ finite signal_line
      ∧ (Fin (1 - 7) <= macd)%num ∧ (macd <= Fin (7 - 1))%num
      ∧ (Fin (1 - 7) <= signal_line)%num ∧ (signal_line <= Fin (7 - 1))%num.
Proof.
  apply (macd_within_price_range 12 26 9 frame_bars bars_close 1 7);
    try reflexivity; try lia.
  intros i Hi. simpl in Hi.
  do 6 (destruct i as [|i]; [split; reflexivity |]). lia.
Defined.

(** X6: on a series whose closes are all equal, MACD and Signal_Line are
    zero at every bar (the two averages start at the first close and never
    leave it). *)
Theorem macd_of_flat_series short long signal data (close : Series) (c : Q) :
  getitem data "close" = Ok close →
  (1 <= short)%Z → (1 <= long)%Z → (1 <= signal)%Z →
  (∀ i, i < length close → (close !!! i == Fin c)%num) →
  ∃ d, calculate_macd short long signal data = Ok d ∧
    ∀ i, i < length close →
      (column d "MACD" !!! i == of_Z 0)%num
      ∧ (column d "Signal_Line" !!! i == of_Z 0)%num.
Proof.
  intros Hc Hs Hl Hg Hflat.
  assert (Hall : Forall (λ x, (Fin c <= x)%num ∧ (x <= Fin c)%num) close).
  { apply Forall_lookup. intros i x Hx.
    rewrite <- (list_lookup_total_correct close i x Hx).
    destruct (num_eq_Fin _ _ (Hflat i ltac:(now apply lookup_lt_Some with x)))
      as (q & -> & Hq).
    apply Fin_between; lra. }
  destruct (macd_between short long signal data close c c Hc Hs Hl Hg Hall)
    as (d & Hd & Lm & Ls & Fm & Fs).
  exists d. split; [exact Hd |]. intros i Hi.
  destruct (Forall_at _ _ i Fm ltac:(lia)) as [Hm1 Hm2].
  destruct (Forall_at _ _ i Fs ltac:(lia)) as [Hs1 Hs2].
  destruct (between_Fin _ _ _ Hm1 Hm2) as (m & -> & ? & ?).
  destruct (between_Fin _ _ _ Hs1 Hs2) as (g & -> & ? & ?).
  unfold num_eq. simpl. split; reflect_Q; unfold inject_Z; lra.
Qed.

Lemma macd_of_flat_series_witness :
  ∃ d, calculate_macd 12 26 9
         (frame_of 3 [("close", [of_Z 5; of_Z 5; of_Z 5])]) = Ok d ∧
    ∀ i, i < length [of_Z 5; of_Z 5; of_Z 5] →
      (column d "MACD" !!! i == of_Z 0)%num
      ∧ (column d "Signal_Line" !!! i == of_Z 0)%num.
Proof.
  apply (macd_of_flat_series 12 26 9
           (frame_of 3 [("close", [of_Z 5; of_Z 5; of_Z 5])])
           [of_Z 5; of_Z 5; of_Z 5] 5); try reflexivity; try lia.
  intros i Hi. simpl in Hi.
  do 3 (destruct i as [|i]; [reflexivity |]). lia.
Defined.

(** ** Support and resistance *)

Lemma num_min_le_r x y : defined x → defined y → (num_min x y <= y)%num.
Proof.
  unfold defined, num_min, num_le.
  destruct x as [| | |a], y as [| | |b]; simpl; try easy;
    intros _ _; try reflexivity; try (reflect_Q; lra).
  destruct (Qltb b a) eqn:E; simpl; reflect_Q; lra.
Qed.

Lemma num_max_ge_r x y : defined x → defined y → (y <= num_max x y)%num.
Proof.
  unfold defined, num_max, num_le.
  destruct x as [| | |a], y as [| | |b]; simpl; try easy;
    intros _ _; try reflexivity; try (reflect_Q; lra).
  destruct (Qltb a b) eqn:E; simpl; reflect_Q; lra.
Qed.

Lemma foldl_min_le_elem (w : list num) a x :
  defined a → Forall defined w → x ∈ a :: w → (foldl num_min a w <= x)%num.
Proof.
  revert a. induction w as [|y w IH]; intros a Ha Hw Hx.
  - apply list_elem_of_singleton in Hx as ->. now apply num_le_refl.
  - inversion Hw as [|? ? Hy Hw']; subst. simpl.
    apply elem_of_cons in Hx as [-> | Hx].
    + apply num_le_trans with (num_min a y);
        [apply foldl_min_le; [now apply num_min_defined | assumption]
        | now apply num_min_le_l].
    + apply elem_of_cons in Hx as [-> | Hx].
      * apply num_le_trans with (num_min a y);
          [apply foldl_min_le; [now apply num_min_defined | assumption]
          | now apply num_min_le_r].
      * apply IH; [now apply num_min_defined | assumption |].
        now apply list_elem_of_further.
Qed.

Lemma foldl_max_ge_elem (w : list num) a x :
  defined a → Forall defined w → x ∈ a :: w → (x <= foldl num_max a w)%num.
Proof.
  revert a. induction w as [|y w IH]; intros a Ha Hw Hx.
  - apply list_elem_of_singleton in Hx as ->. now apply num_le_refl.
  - inversion Hw as [|? ? Hy Hw']; subst. simpl.
    apply elem_of_cons in Hx as [-> | Hx].
    + apply num_le_trans with (num_max a y);
        [now apply num_max_ge_l
        | apply foldl_max_ge; [now apply num_max_defined | assumption]].
    + apply elem_of_cons in Hx as [-> | Hx].
      * apply num_le_trans with (num_max a y);
          [now apply num_max_ge_r
          | apply foldl_max_ge; [now apply num_max_defined | assumption]].
      * apply IH; [now apply num_max_defined | assumption |].
        now apply list_elem_of_further.
Qed.

Lemma min_le_elem (w : list num) x : Forall defined w → x ∈ w → (min_ w <= x)%num.
Proof.
  destruct w as [|a w]; [intros _ Hx; inversion Hx |].
  intros Hw Hx. inversion Hw; subst. now apply foldl_min_le_elem.
Qed.

Lemma max_ge_elem (w : list num) x : Forall defined w → x ∈ w → (x <= max_ w)%num.
Proof.
  destruct w as [|a w]; [intros _ Hx; inversion Hx |].
  intros Hw Hx. inversion Hw; subst. now apply foldl_max_ge_elem.
Qed.

Lemma min_nil_or_defined (w : list num) : defined (min_ w) → w ≠ [].
Proof. destruct w; [discriminate | discriminate]. Qed.

(** A defined rolling extremum comes from a full window without missing
    values, which holds the bar [j] whenever [i - p < j <= i]. *)
Lemma rolling_defined_window p (agg : list num → num) (s : Series) i j :
  agg [] = NaN →
  i < length s →
  defined (rolling p agg s !!! i) →
  S i - p ≤ j → j ≤ i →
  rolling p agg s !!! i = agg (window p i s)
  ∧ Forall defined (window p i s)
  ∧ s !!! j ∈ window p i s.
Proof.
  intros Hnil Hi Hdef Hj1 Hj2. rewrite at_rolling in Hdef |- * by assumption.
  destruct (decide (S i < p)) as [|Hp]; [discriminate |].
  destruct (forallb notna (window p i s)) eqn:Hw; [| discriminate].
  split; [reflexivity |]. split; [now apply forallb_notna |].
  destruct (decide (p = 0)) as [-> | Hp0].
  { unfold window in Hdef. rewrite take_0, Hnil in Hdef. discriminate. }
  apply list_elem_of_lookup. exists (j - (S i - p)).
  assert (Hk : window p i s !!! (j - (S i - p)) = s !!! j)
    by (rewrite at_window by lia; f_equal; lia).
  rewrite <- Hk. apply list_lookup_lookup_total_lt. rewrite length_window; lia.
Qed.

(** X7: wherever Support is defined it is at most the low of every bar
    of its window, the current bar included, and wherever Resistance is
    defined it is at least the high of every bar of its window. *)
Theorem support_resistance_bracket_window window data (high low : Series) :
  getitem data "high" = Ok high →
  getitem data "low" = Ok low →
  ∃ d, calculate_support_resistance window data = Ok d ∧
    ∀ i j, S i - window ≤ j → j ≤ i →
      (i < length low → defined (column d "Support" !!! i) →
       (column d "Support" !!! i <= low !!! j)%num)
      ∧ (i < length high → defined (column d "Resistance" !!! i) →
         (high !!! j <= column d "Resistance" !!! i)%num).
Proof.
  intros Hh Hl.
  unfold calculate_support_resistance. run_indicator.
  eexists. split; [reflexivity |]. intros i j Hj1 Hj2. read_columns. split.
  - intros Hi Hdef.
    destruct (rolling_defined_window window min_ low i j eq_refl Hi Hdef Hj1 Hj2)
      as (-> & Hw & Hin).
    now apply min_le_elem.
  - intros Hi Hdef.
    destruct (rolling_defined_window window max_ high i j eq_refl Hi Hdef Hj1 Hj2)
      as (-> & Hw & Hin).
    now apply max_ge_elem.
Qed.

Lemma support_resistance_bracket_window_witness :
  ∃ d, calculate_support_resistance 3 frame_bars = Ok d ∧
    ∀ i j, S i - 3 ≤ j → j ≤ i →
      (i < length bars_low → defined (column d "Support" !!! i) →
       (column d "Support" !!! i <= bars_low !!! j)%num)
      ∧ (i < length bars_high → defined (column d "Resistance" !!! i) →
         (bars_high !!! j <= column d "Resistance" !!! i)%num).
Proof.
  apply (support_resistance_bracket_window 3 frame_bars bars_high bars_low);
    reflexivity.
Defined.

(** ** The five pivot levels *)

Lemma pivot_levels_pointwise (h l c : Q) :
  let pp := ((Fin h + Fin l + Fin c) / of_Z 3)%num in
  let r1 := (of_Z 2 * pp - Fin l)%num in
  let s1 := (of_Z 2 * pp - Fin h)%num in
  let r2 := (pp + (Fin h - Fin l))%num in
  let s2 := (pp - (Fin h - Fin l))%num in
  ((r1 - s1 == Fin h - Fin l)%num
   ∧ (r2 - pp == Fin h - Fin l)%num
   ∧ (pp - s2 == Fin h - Fin l)%num)
  ∧ ((l <= c)%Q → (c <= h)%Q →
     (s2 <= s1)%num ∧ (s1 <= pp)%num ∧ (pp <= r1)%num ∧ (r1 <= r2)%num).
Proof.
  cbv zeta. unfold num_eq, num_le. simpl.
  pose proof (Qthird (h + l + c)) as Ht.
  set (t := ((h + l + c) / inject_Z 3)%Q) in *.
  split; [repeat split; reflect_Q; unfold inject_Z; lra |].
  intros Hlc Hch. repeat split; reflect_Q; unfold inject_Z; lra.
Qed.

(** X8: in exact arithmetic (before the rounding of binary64), on every
    bar of finite prices the pivot levels are spaced by the bar's range:
    R1 - S1 = R2 - PP = PP - S2 = high - low; and on every bar with
    low <= close <= high they are ordered S2 <= S1 <= PP <= R1 <= R2.
    In binary64 both hold up to rounding only, see
    [pivot_levels_round_in_binary64]. *)
Theorem pivot_levels_spacing_and_order data (high low close : Series) :
  getitem data "high" = Ok high →
  getitem data "low" = Ok low →
  getitem data "close" = Ok close →
  length high = length close →
  length low = length close →
  Forall finite high → Forall finite low → Forall finite close →
  ∃ d, calculate_pivot_points data = Ok d ∧
    ∀ i, i < length close →
      let v key := column d key !!! i in
      let range := (high !!! i - low !!! i)%num in
      ((v "R1" - v "S1" == range)%num
       ∧ (v "R2" - v "PP" == range)%num
       ∧ (v "PP" - v "S2" == range)%num)
      ∧ ((low !!! i <= close !!! i)%num → (close !!! i <= high !!! i)%num →
         (v "S2" <= v "S1")%num ∧ (v "S1" <= v "PP")%num
         ∧ (v "PP" <= v "R1")%num ∧ (v "R1" <= v "R2")%num).
Proof.
  intros Hh Hl Hc Lh Ll Fh Fl Fc.
  unfold calculate_pivot_points. run_indicator.
  eexists; split; [reflexivity |].
  intros i Hi. cbv zeta. read_columns. pointwise.
  destruct (proj1 (finite_Fin _) (Forall_at _ high i Fh ltac:(lia))) as [h ->].
  destruct (proj1 (finite_Fin _) (Forall_at _ low i Fl ltac:(lia))) as [l ->].
  destruct (proj1 (finite_Fin _) (Forall_at _ close i Fc ltac:(lia))) as [c ->].
  destruct (pivot_levels_pointwise h l c) as [Hspace Horder].
  split; [exact Hspace |].
  intros Hlc Hch. unfold num_le in Hlc, Hch. simpl in Hlc, Hch. reflect_Q.
  now apply Horder.
Qed.

Lemma pivot_levels_spacing_and_order_witness :
  ∃ d, calculate_pivot_points frame_bars = Ok d ∧
    ∀ i, i < length bars_close →
      let v key := column d key !!! i in
      let range := (bars_high !!! i - bars_low !!! i)%num in
      ((v "R1" - v "S1" == range)%num
       ∧ (v "R2" - v "PP" == range)%num
       ∧ (v "PP" - v "S2" == range)%num)
      ∧ ((bars_low !!! i <= bars_close !!! i)%num →
         (bars_close !!! i <= bars_high !!! i)%num →
         (v "S2" <= v "S1")%num ∧ (v "S1" <= v "PP")%num
         ∧ (v "PP" <= v "R1")%num ∧ (v "R1" <= v "R2")%num).
Proof.
  apply (pivot_levels_spacing_and_order frame_bars bars_high bars_low bars_close);
    try reflexivity; repeat constructor.
Defined.

(** ** RSI on windows that only rise or only fall *)

Lemma foldl_add_zero (w : list num) (acc : num) :
  (acc == of_Z 0)%num →
  Forall (λ x, (x == of_Z 0)%num) w →
  (foldl num_add acc w == of_Z 0)%num.
Proof.
  revert acc. induction w as [|x w IH]; intros acc Hacc Hw; simpl; [assumption |].
  inversion Hw as [|? ? Hx Hw']; subst.
  apply IH; [| assumption].
  destruct (num_eq_Fin _ _ Hacc) as (a & -> & Ha).
  destruct (num_eq_Fin _ _ Hx) as (b & -> & Hb).
  unfold num_eq. simpl. reflect_Q. unfold inject_Z in *. lra.
Qed.

Lemma foldl_add_positive (w : list num) (acc : num) :
  finite acc ∧ (of_Z 0 <= acc)%num →
  Forall (λ x, finite x ∧ (of_Z 0 <= x)%num) w →
  (of_Z 0 < acc)%num ∨ Exists (λ x, (of_Z 0 < x)%num) w →
  (of_Z 0 < foldl num_add acc w)%num.
Proof.
  revert acc. induction w as [|x w IH]; intros acc Hacc Hw Hpos; simpl.
  - destruct Hpos as [Hpos | Hex]; [assumption | inversion Hex].
  - inversion Hw as [|? ? [[b ->]%finite_Fin Hb] Hw']; subst.
    destruct Hacc as [[a ->]%finite_Fin Ha].
    unfold num_le in Ha, Hb. simpl in Ha, Hb. reflect_Q.
    apply IH; [| assumption |].
    + split; [reflexivity |]. unfold num_le. simpl. reflect_Q.
      unfold inject_Z in *. lra.
    + destruct Hpos as [Hpos | Hex].
      * left. unfold num_lt in *. simpl in *. reflect_Q. unfold inject_Z in *. lra.
      * inversion Hex as [? ? Hx | ? ? Hex']; subst.
        -- left. unfold num_lt in *. simpl in *. reflect_Q. unfold inject_Z in *. lra.
        -- now right.
Qed.

Lemma mean_zero (w : list num) :
  w ≠ [] → Forall (λ x, (x == of_Z 0)%num) w → (mean w == of_Z 0)%num.
Proof.
  intros Hne Hw. unfold mean, sum.
  destruct (num_eq_Fin _ _ (foldl_add_zero w (of_Z 0) eq_refl Hw)) as (a & -> & Ha).
  simpl. rewrite Qeq_bool_of_nat_pos by (destruct w; [congruence | simpl; lia]).
  unfold num_eq. simpl. reflect_Q. unfold inject_Z in Ha. rewrite Ha.
  unfold Qdiv. ring.
Qed.

Lemma mean_positive (w : list num) :
  Forall (λ x, finite x ∧ (of_Z 0 <= x)%num) w →
  Exists (λ x, (of_Z 0 < x)%num) w →
  ∃ a, mean w = Fin a ∧ (0 < a)%Q.
Proof.
  intros Hw Hex.
  assert (Hne : w ≠ []) by (intros ->; inversion Hex).
  pose proof (foldl_add_positive w (of_Z 0) ltac:(easy) Hw (or_intror Hex)) as Hpos.
  destruct (foldl_add_not_negative w (of_Z 0) ltac:(easy) Hw) as [[a Ha]%finite_Fin _].
  unfold mean, sum. rewrite Ha in *. unfold num_lt in Hpos. simpl in Hpos. reflect_Q.
  assert (Hn : (0 < inject_Z (Z.of_nat (length w)))%Q).
  { change 0%Q with (inject_Z 0). rewrite <- Zlt_Qlt.
    destruct w; [congruence | simpl; lia]. }
  simpl. rewrite Qeq_bool_of_nat_pos by (destruct w; [congruence | simpl; lia]).
  eexists. split; [reflexivity |].
  apply Qlt_shift_div_l; [assumption |]. unfold inject_Z in Hpos. lra.
Qed.

(** The gain and the loss of one bar against the bar before it. *)
Lemma gain_loss_at (close : Series) j :
  Forall finite close → j < length close →
  let gain := where_ (λ d, d >? of_Z 0)%num (of_Z 0) (diff 1 close) !!! j in
  let loss := (num_opp <$> where_ (λ d, d <? of_Z 0)%num (of_Z 0) (diff 1 close)) !!! j in
  (finite gain ∧ (of_Z 0 <= gain)%num)
  ∧ (finite loss ∧ (of_Z 0 <= loss)%num)
  ∧ (j = 0 ∨ (close !!! (j - 1)%nat <= close !!! j)%num → (loss == of_Z 0)%num)
  ∧ (j = 0 ∨ (close !!! j <= close !!! (j - 1)%nat)%num → (gain == of_Z 0)%num)
  ∧ (1 ≤ j → (close !!! (j - 1)%nat < close !!! j)%num → (of_Z 0 < gain)%num)
  ∧ (1 ≤ j → (close !!! j < close !!! (j - 1)%nat)%num → (of_Z 0 < loss)%num).
Proof.
  intros Hc Hj. cbv zeta. unfold where_.
  rewrite !at_fmap by solve_length. rewrite at_diff by assumption.
  destruct (decide (j < 1)) as [Hj0 | Hj1].
  - assert (j = 0) by lia. subst j. simpl.
    repeat split; try reflexivity; intros; lia.
  - destruct (proj1 (finite_Fin _) (Forall_at _ close j Hc Hj)) as [a ->].
    destruct (proj1 (finite_Fin _) (Forall_at _ close (j - 1) Hc ltac:(lia))) as [b ->].
    unfold num_gtb, num_le, num_lt, num_eq. simpl.
    destruct (Qltb (inject_Z 0) (a + - b)) eqn:E1;
      destruct (Qltb (a + - b) (inject_Z 0)) eqn:E2; simpl;
      reflect_Q; unfold inject_Z in *;
      repeat split; try reflexivity; intros; reflect_Q;
      repeat match goal with
      | H : _ ∨ _ |- _ => destruct H as [H | H]; [lia |]
      end;
      reflect_Q; try lra.
Qed.

Lemma Forall_window_at (P : num → Prop) p i (s : Series) :
  p ≤ S i → i < length s →
  (∀ j, S i - p ≤ j → j ≤ i → P (s !!! j)) →
  Forall P (window p i s).
Proof.
  intros Hp Hi H. apply Forall_lookup. intros k x Hk.
  assert (Hlt : k < p).
  { rewrite <- (length_window p i s Hp Hi). eapply lookup_lt_Some, Hk. }
  apply list_lookup_total_correct in Hk. rewrite <- Hk, at_window by assumption.
  apply H; lia.
Qed.

Lemma Exists_window_at (P : num → Prop) p i (s : Series) j :
  p ≤ S i → i < length s → S i - p ≤ j → j ≤ i →
  P (s !!! j) → Exists P (window p i s).
Proof.
  intros Hp Hi Hj1 Hj2 H. apply Exists_exists. exists (s !!! j). split; [| assumption].
  apply list_elem_of_lookup. exists (j - (S i - p)).
  assert (Hk : window p i s !!! (j - (S i - p)) = s !!! j)
    by (rewrite at_window by lia; f_equal; lia).
  rewrite <- Hk. apply list_lookup_lookup_total_lt. rewrite length_window; lia.
Qed.

(** The rolling gain and loss over a full window, from the closes of the
    window. *)
Lemma rolling_gain_loss (close : Series) p i :
  Forall finite close → 1 ≤ p → p ≤ S i → i < length close →
  let rose j := 1 ≤ j ∧ (close !!! (j - 1)%nat < close !!! j)%num in
  let fell j := 1 ≤ j ∧ (close !!! j < close !!! (j - 1)%nat)%num in
  let in_window j := S i - p ≤ j ∧ j ≤ i in
  ∃ g l, rsi_gain p close !!! i = Fin g ∧ rsi_loss p close !!! i = Fin l
    ∧ (0 <= g)%Q ∧ (0 <= l)%Q
    ∧ ((∃ j, in_window j ∧ rose j) → (0 < g)%Q)
    ∧ ((∃ j, in_window j ∧ fell j) → (0 < l)%Q)
    ∧ ((∀ j, in_window j → ¬ rose j) → (g == 0)%Q)
    ∧ ((∀ j, in_window j → ¬ fell j) → (l == 0)%Q).
Proof.
  intros Hc Hp Hpi Hi. cbv zeta.
  set (gains := where_ (λ d, d >? of_Z 0)%num (of_Z 0) (diff 1 close)).
  set (losses := num_opp <$> where_ (λ d, d <? of_Z 0)%num (of_Z 0) (diff 1 close)).
  assert (Hlg : length gains = length close) by (unfold gains; solve_length).
  assert (Hll : length losses = length close) by (unfold losses; solve_length).
  pose proof (λ j, gain_loss_at close j Hc) as Hat.
  cbv zeta in Hat. fold gains losses in Hat.
  assert (Hgs : Forall (λ x, finite x ∧ (of_Z 0 <= x)%num) gains).
  { apply Forall_lookup. intros j x Hj.
    assert (j < length close) by (rewrite <- Hlg; eapply lookup_lt_Some, Hj).
    apply list_lookup_total_correct in Hj. subst x. now apply Hat. }
  assert (Hls : Forall (λ x, finite x ∧ (of_Z 0 <= x)%num) losses).
  { apply Forall_lookup. intros j x Hj.
    assert (j < length close) by (rewrite <- Hll; eapply lookup_lt_Some, Hj).
    apply list_lookup_total_correct in Hj. subst x. now apply Hat. }
  destruct (rolling_mean_not_negative p gains i Hgs ltac:(lia) Hp Hpi)
    as [[g Hg]%finite_Fin Hg0].
  destruct (rolling_mean_not_negative p losses i Hls ltac:(lia) Hp Hpi)
    as [[l Hl]%finite_Fin Hl0].
  exists g, l. unfold rsi_gain, rsi_loss. cbv zeta. fold gains losses.
  rewrite Hg, Hl in *. unfold num_le in Hg0, Hl0. simpl in Hg0, Hl0. reflect_Q.
  assert (Hwg : rolling p mean gains !!! i = mean (window p i gains)).
  { rewrite at_rolling by lia. rewrite decide_False by lia.
    rewrite (proj2 (forallb_notna _)); [reflexivity |].
    eapply Forall_impl; [apply Forall_window, Hgs |].
    simpl. intros x [Hx _]. now apply finite_defined. }
  assert (Hwl : rolling p mean losses !!! i = mean (window p i losses)).
  { rewrite at_rolling by lia. rewrite decide_False by lia.
    rewrite (proj2 (forallb_notna _)); [reflexivity |].
    eapply Forall_impl; [apply Forall_window, Hls |].
    simpl. intros x [Hx _]. now apply finite_defined. }
  assert (Hne : ∀ s : Series, length s = length close → window p i s ≠ []).
  { intros s Hs Hnil. pose proof (length_window p i s Hpi ltac:(lia)) as Hlen.
    rewrite Hnil in Hlen. simpl in Hlen. lia. }
  repeat split; try assumption; try (unfold inject_Z in *; lra).
  - intros (j & [Hj1 Hj2] & Hj0 & Hrise).
    destruct (mean_positive (window p i gains)) as (a & Ha & Hpos).
    + apply Forall_window, Hgs.
    + apply (Exists_window_at _ p i gains j); try lia. apply Hat; [lia | lia | exact Hrise].
    + rewrite Hwg, Ha in Hg. now inversion Hg; subst.
  - intros (j & [Hj1 Hj2] & Hj0 & Hfall).
    destruct (mean_positive (window p i losses)) as (a & Ha & Hpos).
    + apply Forall_window, Hls.
    + apply (Exists_window_at _ p i losses j); try lia. apply Hat; [lia | lia | exact Hfall].
    + rewrite Hwl, Ha in Hl. now inversion Hl; subst.
  - intros Hnone.
    assert (Hz : (mean (window p i gains) == of_Z 0)%num).
    { apply mean_zero; [now apply Hne |].
      apply Forall_window_at; try lia. intros j Hj1 Hj2.
      apply Hat; [lia |].
      destruct (decide (j = 0)) as [| Hj0]; [now left | right].
      destruct (proj1 (finite_Fin _) (Forall_at _ close j Hc ltac:(lia))) as [a Ea].
      destruct (proj1 (finite_Fin _) (Forall_at _ close (j - 1) Hc ltac:(lia))) as [b Eb].
      specialize (Hnone j (conj Hj1 Hj2)). rewrite Ea, Eb in *.
      unfold num_le, num_lt in *. simpl in *. reflect_Q.
      destruct (Qlt_le_dec b a) as [Hlt | Hle]; [| assumption].
      exfalso. apply Hnone. split; [lia |]. now reflect_Q. }
    rewrite <- Hwg, Hg in Hz. unfold num_eq in Hz. simpl in Hz. now reflect_Q.
  - intros Hnone.
    assert (Hz : (mean (window p i losses) == of_Z 0)%num).
    { apply mean_zero; [now apply Hne |].
      apply Forall_window_at; try lia. intros j Hj1 Hj2.
      apply Hat; [lia |].
      destruct (decide (j = 0)) as [| Hj0]; [now left | right].
      destruct (proj1 (finite_Fin _) (Forall_at _ close j Hc ltac:(lia))) as [a Ea].
      destruct (proj1 (finite_Fin _) (Forall_at _ close (j - 1) Hc ltac:(lia))) as [b Eb].
      specialize (Hnone j (conj Hj1 Hj2)). rewrite Ea, Eb in *.
      unfold num_le, num_lt in *. simpl in *. reflect_Q.
      destruct (Qlt_le_dec a b) as [Hlt | Hle]; [| assumption].
      exfalso. apply Hnone. split; [lia |]. now reflect_Q. }
    rewrite <- Hwl, Hl in Hz. unfold num_eq in Hz. simpl in Hz. now reflect_Q.
Qed.

Lemma rsi_by_cases (g l : Q) :
  (0 <= g)%Q → (0 <= l)%Q →
  let r := (of_Z 100 - of_Z 100 / (of_Z 1 + Fin g / Fin l))%num in
  ((0 < g)%Q → (l == 0)%Q → (r == of_Z 100)%num)
  ∧ ((g == 0)%Q → (0 < l)%Q → (r == of_Z 0)%num)
  ∧ ((g == 0)%Q → (l == 0)%Q → r = NaN)
  ∧ ((0 < g)%Q → (0 < l)%Q → (of_Z 0 < r)%num ∧ (r < of_Z 100)%num).
Proof.
  intros Hg Hl. cbv zeta. split; [| split; [| split]].
  - intros Hg' Hl'. simpl. destruct (Qeq_bool l 0) eqn:El; reflect_Q; [| lra].
    now rewrite inf_of_sign_pos.
  - intros Hg' Hl'.
    assert (Hq : (g / l == 0)%Q) by (rewrite Hg'; unfold Qdiv; ring).
    simpl. destruct (Qeq_bool l 0) eqn:El; reflect_Q; [lra |].
    simpl. destruct (Qeq_bool (inject_Z 1 + g / l) 0) eqn:Et; reflect_Q.
    + rewrite Hq in Et. discriminate Et.
    + unfold num_eq. simpl. reflect_Q. now rewrite Hq.
  - intros Hg' Hl'. simpl. destruct (Qeq_bool l 0) eqn:El; reflect_Q; [| lra].
    now rewrite inf_of_sign_zero.
  - intros Hg' Hl'.
    assert (Hq : (0 < g / l)%Q) by (apply Qlt_shift_div_l; lra).
    assert (Hu : (0 < inject_Z 100 / (inject_Z 1 + g / l))%Q)
      by (apply Qlt_shift_div_l; unfold inject_Z; lra).
    assert (Hu' : (inject_Z 100 / (inject_Z 1 + g / l) < inject_Z 100)%Q)
      by (apply Qlt_shift_div_r; unfold inject_Z; lra).
    simpl. destruct (Qeq_bool l 0) eqn:El; reflect_Q; [lra |].
    simpl. destruct (Qeq_bool (inject_Z 1 + g / l) 0) eqn:Et; reflect_Q;
      [unfold inject_Z in *; lra |].
    unfold num_lt. simpl. split; reflect_Q; unfold inject_Z in *; lra.
Qed.

(** X9: in exact arithmetic (before the rounding of binary64), at a
    position whose window is full [calculate_rsi] is decided by which way
    the closes of the window moved against the bar before them: 100 when
    some close rose and none fell, 0 when some fell and none rose,
    not-a-number when none moved (0/0), and strictly between 0 and 100
    when some rose and some fell.  In binary64 the last case also reaches
    0 and 100 (on the closes 1, 0, 2^60, 2^60 with period 2). *)
Theorem rsi_follows_window_moves period data (close : Series) i :
  getitem data "close" = Ok close →
  Forall finite close →
  1 ≤ period → period ≤ S i → i < length close →
  let rose j := 1 ≤ j ∧ (close !!! (j - 1)%nat < close !!! j)%num in
  let fell j := 1 ≤ j ∧ (close !!! j < close !!! (j - 1)%nat)%num in
  let in_window j := S i - period ≤ j ∧ j ≤ i in
  ∃ d, calculate_rsi period data = Ok d ∧
    let rsi := column d "RSI" !!! i in
    ((∃ j, in_window j ∧ rose j) → (∀ j, in_window j → ¬ fell j) →
     (rsi == of_Z 100)%num)
    ∧ ((∃ j, in_window j ∧ fell j) → (∀ j, in_window j → ¬ rose j) →
       (rsi == of_Z 0)%num)
    ∧ ((∀ j, in_window j → ¬ rose j) → (∀ j, in_window j → ¬ fell j) →
       rsi = NaN)
    ∧ ((∃ j, in_window j ∧ rose j) → (∃ j, in_window j ∧ fell j) →
       (of_Z 0 < rsi)%num ∧ (rsi < of_Z 100)%num).
Proof.
  intros Hc Hfin Hp Hpi Hi. cbv zeta.
  destruct (rolling_gain_loss close period i Hfin Hp Hpi Hi)
    as (g & l & Hg & Hl & Hg0 & Hl0 & Hgpos & Hlpos & Hgz & Hlz).
  unfold calculate_rsi. run_indicator.
  eexists; split; [reflexivity |].
  read_columns. pointwise. rewrite Hg, Hl.
  destruct (rsi_by_cases g l Hg0 Hl0) as (H100 & H0 & Hnan & Hmid).
  split; [| split; [| split]]; intros;
    first [apply H100 | apply H0 | apply Hnan | apply Hmid]; auto.
Qed.

Lemma rsi_follows_window_moves_witness :
  let rose j := 1 ≤ j ∧ (bars_close !!! (j - 1)%nat < bars_close !!! j)%num in
  let fell j := 1 ≤ j ∧ (bars_close !!! j < bars_close !!! (j - 1)%nat)%num in
  let in_window j := S 2 - 2 ≤ j ∧ j ≤ 2 in
  ∃ d, calculate_rsi 2 frame_bars = Ok d ∧
    let rsi := column d "RSI" !!! 2 in
    ((∃ j, in_window j ∧ rose j) → (∀ j, in_window j → ¬ fell j) →
     (rsi == of_Z 100)%num)
    ∧ ((∃ j, in_window j ∧ fell j) → (∀ j, in_window j → ¬ rose j) →
       (rsi == of_Z 0)%num)
    ∧ ((∀ j, in_window j → ¬ rose j) → (∀ j, in_window j → ¬ fell j) →
       rsi = NaN)
    ∧ ((∃ j, in_window j ∧ rose j) → (∃ j, in_window j ∧ fell j) →
       (of_Z 0 < rsi)%num ∧ (rsi < of_Z 100)%num).
Proof.
  apply (rsi_follows_window_moves 2 frame_bars bars_close 2);
    [reflexivity | repeat constructor | lia | lia | simpl; lia].
Defined.

(** ** What the engine reads, and when it fails *)

Lemma bind_Raise {A B} (f : A → result B) (e : exception) :
  (Raise e ≫= f) = Raise e.
Proof. reflexivity. Qed.

Lemma iloc_last_one (x : num) : iloc_last [x] = Ok x.
Proof. reflexivity. Qed.

(** The engine, with every read written as the latest value of a
    column. *)
Lemma engine_on_latest data :
  generate_trading_signals data =
    (latest data "RSI" ≫= λ rsi,
     latest data "MACD" ≫= λ macd,
     latest data "Signal_Line" ≫= λ sl,
     latest data "close" ≫= λ close,
     latest data "BB_lower" ≫= λ lo,
     if (close <? lo)%num then
       generate_trading_signals
         (frame_of 1 [("RSI", [rsi]); ("MACD", [macd]); ("Signal_Line", [sl]);
                      ("close", [close]); ("BB_lower", [lo])])
     else
       latest data "BB_upper" ≫= λ up,
       generate_trading_signals
         (frame_of 1 [("RSI", [rsi]); ("MACD", [macd]); ("Signal_Line", [sl]);
                      ("close", [close]); ("BB_lower", [lo]); ("BB_upper", [up])])).
Proof.
  unfold generate_trading_signals at 1. cbv zeta.
  unfold latest.
  destruct (getitem data "RSI") as [s1|]; [| reflexivity].
  rewrite !bind_Ok; cbv beta. destruct (iloc_last s1) as [rsi|]; [| reflexivity].
  rewrite !bind_Ok; cbv beta. destruct (getitem data "MACD") as [s2|]; [| reflexivity].
  rewrite !bind_Ok; cbv beta. destruct (iloc_last s2) as [macd|]; [| reflexivity].
  rewrite !bind_Ok; cbv beta. destruct (getitem data "Signal_Line") as [s3|]; [| reflexivity].
  rewrite !bind_Ok; cbv beta. destruct (iloc_last s3) as [sl|]; [| reflexivity].
  rewrite !bind_Ok; cbv beta. destruct (getitem data "close") as [s4|]; [| reflexivity].
  rewrite !bind_Ok; cbv beta. destruct (iloc_last s4) as [close|]; [| reflexivity].
  rewrite !bind_Ok; cbv beta. destruct (getitem data "BB_lower") as [s5|]; [| reflexivity].
  rewrite !bind_Ok; cbv beta. destruct (iloc_last s5) as [lo|]; [| reflexivity].
  rewrite !bind_Ok; cbv beta.
  destruct (close <? lo)%num eqn:Hlo.
  - unfold generate_trading_signals. cbv zeta.
    change (getitem (frame_of 1 _) "RSI") with (Ok [rsi]).
    change (getitem (frame_of 1 _) "MACD") with (Ok [macd]).
    change (getitem (frame_of 1 _) "Signal_Line") with (Ok [sl]).
    change (getitem (frame_of 1 _) "close") with (Ok [close]).
    change (getitem (frame_of 1 _) "BB_lower") with (Ok [lo]).
    repeat (progress (rewrite ?bind_Ok, ?iloc_last_one; cbv beta)).
    now rewrite Hlo.
  - destruct (getitem data "BB_upper") as [s6|]; [| reflexivity].
    rewrite !bind_Ok; cbv beta. destruct (iloc_last s6) as [up|]; [| reflexivity].
    rewrite !bind_Ok; cbv beta.
    unfold generate_trading_signals. cbv zeta.
    change (getitem (frame_of 1 _) "RSI") with (Ok [rsi]).
    change (getitem (frame_of 1 _) "MACD") with (Ok [macd]).
    change (getitem (frame_of 1 _) "Signal_Line") with (Ok [sl]).
    change (getitem (frame_of 1 _) "close") with (Ok [close]).
    change (getitem (frame_of 1 _) "BB_lower") with (Ok [lo]).
    change (getitem (frame_of 1 _) "BB_upper") with (Ok [up]).
    repeat (progress (rewrite ?bind_Ok, ?iloc_last_one; cbv beta)).
    now rewrite Hlo.
Qed.

(** Run the reads of the engine in a hypothesis that says it returned. *)
Ltac engine_returned H :=
  unfold generate_trading_signals in H; cbv zeta in H;
  repeat match type of H with
  | (getitem ?d ?k ≫= _) = Ok _ =>
      let E := fresh "Hcol" in
      destruct (getitem d k) as [?|?] eqn:E;
        [rewrite bind_Ok in H; cbv beta in H | discriminate H]
  | (iloc_last ?s ≫= _) = Ok _ =>
      let E := fresh "Hlast" in
      destruct (iloc_last s) as [?|?] eqn:E;
        [rewrite bind_Ok in H; cbv beta in H | discriminate H]
  | (if ?b then _ else _) = Ok _ =>
      let E := fresh "Hif" in destruct b eqn:E
  end.

(** X10: the engine returns a Signal exactly when the columns RSI, MACD,
    Signal_Line, close and BB_lower have a latest row and, unless the
    latest close is below the lower band, BB_upper has one too: the upper
    band is read only after the lower-band test has failed. *)
Theorem engine_returns_exactly_when data :
  (∃ s, generate_trading_signals data = Ok s)
  ↔ ∃ rsi macd sl close lo,
      latest data "RSI" = Ok rsi ∧ latest data "MACD" = Ok macd
      ∧ latest data "Signal_Line" = Ok sl ∧ latest data "close" = Ok close
      ∧ latest data "BB_lower" = Ok lo
      ∧ ((close <? lo)%num = true ∨ ∃ up, latest data "BB_upper" = Ok up).
Proof.
  split.
  - intros [s H]. engine_returned H.
    + eexists _, _, _, _, _. rewrite !latest_Ok. repeat split; eauto.
    + eexists _, _, _, _, _. rewrite !latest_Ok. repeat split; eauto.
      right. eexists. rewrite latest_Ok. eauto.
    + eexists _, _, _, _, _. rewrite !latest_Ok. repeat split; eauto.
      right. eexists. rewrite latest_Ok. eauto.
  - intros (rsi & macd & sl & close & lo & Hrsi & Hmacd & Hsl & Hclose & Hlo & Hup).
    destruct Hup as [Hlt | [up Hup]].
    + read_latest. cbv zeta. rewrite Hlt. eexists. reflexivity.
    + now apply (engine_returns data rsi macd sl close lo up).
Qed.

(** X11: the engine looks at nothing but the latest value of its six
    columns: two frames that agree there get the same Signal, or fail
    with the same exception, whatever their earlier rows, their index and
    their other columns. *)
Theorem engine_reads_latest_row_only d1 d2 :
  (∀ key, key ∈ ["RSI"; "MACD"; "Signal_Line"; "close"; "BB_lower"; "BB_upper"] →
          latest d1 key = latest d2 key) →
  generate_trading_signals d1 = generate_trading_signals d2.
Proof.
  intros H. rewrite !engine_on_latest.
  rewrite (H "RSI"), (H "MACD"), (H "Signal_Line"), (H "close"),
    (H "BB_lower"), (H "BB_upper") by is_listed.
  reflexivity.
Qed.

Lemma engine_reads_latest_row_only_witness :
  generate_trading_signals frame_all_buy =
  generate_trading_signals
    (frame_of 2 [("close", [of_Z 9; of_Z 7]); ("RSI", [NaN; of_Z 25]);
                 ("MACD", [of_Z 0; of_Z 1]); ("Signal_Line", [of_Z 3; of_Z 0]);
                 ("BB_lower", [NaN; of_Z 8]); ("BB_upper", [NaN; of_Z 12]);
                 ("volume", [of_Z 5; of_Z 5])]).
Proof.
  apply (engine_reads_latest_row_only frame_all_buy).
  intros key Hkey.
  repeat (apply elem_of_cons in Hkey as [-> | Hkey]; [reflexivity |]).
  now apply elem_of_nil in Hkey.
Defined.

Lemma float_eq_leb (x y : float) : x = y → PrimFloat.leb x 0 = PrimFloat.leb y 0.
Proof. now intros ->. Qed.

(** X12: whenever the engine returns, its Signal is coherent: the action
    is missing (HOLD) exactly when no reason was recorded and exactly
    when the confidence is 0; there are at most three reasons; and the
    confidence of a Signal with an action lies between 0.2 and 0.8. *)
Theorem engine_signal_is_coherent data s :
  generate_trading_signals data = Ok s →
  (action s = None ↔ reasons s = [])
  ∧ (action s = None ↔ confidence s = 0%float)
  ∧ length (reasons s) ≤ 3
  ∧ (confidence s <=? 0.8)%float = true
  ∧ (action s ≠ None → (0.2 <=? confidence s)%float = true).
Proof.
  intros H. engine_returned H; unfold num_gtb in H;
    repeat match type of H with
    | context [if (?a <? ?b)%num then _ else _] => destruct (a <? b)%num
    end;
    injection H as <-; cbn [fire action reasons confidence length app];
    (split; [split; [discriminate || reflexivity | try discriminate; reflexivity] |]);
    (split; [split; [discriminate || reflexivity
                    | try reflexivity; intros Hf%float_eq_leb; vm_compute in Hf; discriminate] |]);
    (split; [simpl; lia |]);
    (split; [reflexivity |]);
    first [intros _; reflexivity | intros Hn; now destruct Hn].
Qed.

Lemma engine_signal_is_coherent_witness :
  ∃ s, generate_trading_signals frame_conflict = Ok s
    ∧ (action s = None ↔ reasons s = [])
    ∧ (action s = None ↔ confidence s = 0%float)
    ∧ length (reasons s) ≤ 3
    ∧ (confidence s <=? 0.8)%float = true
    ∧ (action s ≠ None → (0.2 <=? confidence s)%float = true).
Proof.
  eexists. split; [reflexivity |].
  apply (engine_signal_is_coherent frame_conflict). reflexivity.
Defined.

(** ** Volume profile *)

Lemma length_linspace start stop n : length (linspace start stop n) = n.
Proof. unfold linspace. now rewrite length_fmap, length_seq. Qed.

(** The points of [linspace] between two numbers [a <= b]: point [i] is
    [a + i * (b - a) / (n - 1)], and the last one is [b] itself. *)
Lemma linspace_at (a b : Q) n i :
  2 ≤ n → i < n →
  ∃ q, linspace (Fin a) (Fin b) n !!! i = Fin q
       ∧ (q == a + inject_Z (Z.of_nat i) * ((b - a) / inject_Z (Z.of_nat (n - 1))))%Q
       ∧ (i = n - 1 → q = b).
Proof.
  intros Hn Hi.
  assert (Hdiv : (0 < inject_Z (Z.of_nat (n - 1)))%Q)
    by (change 0%Q with (inject_Z 0); rewrite <- Zlt_Qlt; lia).
  unfold linspace. cbv zeta.
  erewrite list_lookup_total_correct; last first.
  { rewrite list_lookup_fmap, lookup_seq_lt by assumption. reflexivity. }
  cbn [fmap option_fmap option_map Nat.add].
  destruct (decide (1 < n ∧ i = n - 1)) as [[_ ->] | Hlast].
  - exists b. split; [reflexivity |]. split; [| reflexivity]. field. lra.
  - rewrite decide_True by lia. unfold num_sub, of_Z. simpl.
    rewrite Qeq_bool_of_nat_pos by lia. simpl.
    destruct (Qeq_bool ((b + - a) / inject_Z (Z.of_nat (n - 1))) (inject_Z 0));
      simpl; (eexists; split; [reflexivity |]; split; [field; lra | lia]).
Qed.

Lemma linspace_monotone (a b : Q) n i :
  (a <= b)%Q → 2 ≤ n → S i < n →
  (linspace (Fin a) (Fin b) n !!! i <= linspace (Fin a) (Fin b) n !!! S i)%num.
Proof.
  intros Hab Hn Hi.
  destruct (linspace_at a b n i Hn ltac:(lia)) as (q & -> & Hq & _).
  destruct (linspace_at a b n (S i) Hn Hi) as (q' & -> & Hq' & _).
  unfold num_le. simpl. reflect_Q. rewrite Hq, Hq'.
  assert (Hdiv : (0 < inject_Z (Z.of_nat (n - 1)))%Q)
    by (change 0%Q with (inject_Z 0); rewrite <- Zlt_Qlt; lia).
  assert (Hstep : (0 <= (b - a) / inject_Z (Z.of_nat (n - 1)))%Q)
    by (apply Qle_shift_div_l; lra).
  assert (Hii : (inject_Z (Z.of_nat (S i)) == inject_Z (Z.of_nat i) + 1)%Q)
    by (rewrite Nat2Z.inj_succ; unfold Z.succ; rewrite inject_Z_plus; reflexivity).
  rewrite Hii. set (step := ((b - a) / inject_Z (Z.of_nat (n - 1)))%Q) in *.
  set (k := inject_Z (Z.of_nat i)). nra.
Qed.

(** Three sums over the same bars, where every bar of the third mask is
    in exactly one of the first two. *)
Lemma masked_sums_add_up (P1 P2 P3 : num * num → bool) (cv : list (num * num)) :
  Forall (λ x, finite x.2) cv →
  Forall (λ x, P3 x = P1 x || P2 x ∧ P1 x && P2 x = false) cv →
  ∀ a1 a2 a3 : Q, (a1 + a2 == a3)%Q →
  ∃ r1 r2 r3 : Q,
    foldl num_add (Fin a1) (List.filter notna (snd <$> List.filter P1 cv)) = Fin r1
    ∧ foldl num_add (Fin a2) (List.filter notna (snd <$> List.filter P2 cv)) = Fin r2
    ∧ foldl num_add (Fin a3) (List.filter notna (snd <$> List.filter P3 cv)) = Fin r3
    ∧ (r1 + r2 == r3)%Q.
Proof.
  induction cv as [|[c v] cv IH]; intros Hv HP a1 a2 a3 Ha.
  - exists a1, a2, a3. repeat split; assumption.
  - inversion Hv as [|? ? [q Hq]%finite_Fin Hv']; subst.
    inversion HP as [|? ? [H3 H12] HP']; subst.
    simpl in Hq. subst v. cbn [List.filter]. rewrite H3.
    destruct (P1 (c, Fin q)), (P2 (c, Fin q)); try discriminate H12;
      cbn [orb fmap list_fmap snd List.filter notna isna negb foldl num_add];
      apply IH; try assumption; lra.
Qed.

Lemma zip_finite_volume (close volume : Series) :
  Forall finite volume → Forall (λ x : num * num, finite x.2) (zip close volume).
Proof.
  intros Hv. apply Forall_forall. intros [c v] Hin.
  apply elem_of_zip_r in Hin. exact (proj1 (Forall_forall _ _) Hv v Hin).
Qed.

Lemma zip_finite_close (close volume : Series) :
  Forall finite close → Forall (λ x : num * num, finite x.1) (zip close volume).
Proof.
  intros Hc. apply Forall_forall. intros [c v] Hin.
  apply elem_of_zip_l in Hin. exact (proj1 (Forall_forall _ _) Hc c Hin).
Qed.

(** Two adjacent buckets hold the volume of their union. *)
Lemma volume_between_split (l m h : Q) (close volume : Series) :
  Forall finite close → Forall finite volume →
  (l <= m)%Q → (m <= h)%Q →
  ∃ r1 r2 r3 : Q,
    volume_between (Fin l) (Fin m) close volume = Fin r1
    ∧ volume_between (Fin m) (Fin h) close volume = Fin r2
    ∧ volume_between (Fin l) (Fin h) close volume = Fin r3
    ∧ (r1 + r2 == r3)%Q.
Proof.
  intros Hc Hv Hlm Hmh. unfold volume_between, series_sum, sum.
  apply masked_sums_add_up.
  - now apply zip_finite_volume.
  - eapply Forall_impl; [apply (zip_finite_close close volume Hc) |].
    intros [c v] [q Hq]%finite_Fin. simpl in Hq. subst c. cbn [fst num_leb num_ltb].
    unfold Qltb.
    destruct (Qle_bool l q) eqn:E1, (Qle_bool m q) eqn:E2,
      (Qle_bool h q) eqn:E3; reflect_Q; simpl; split; try reflexivity; lra.
  - unfold inject_Z. lra.
Qed.

(** A bucket whose upper edge is not above its lower edge is empty. *)
Lemma volume_between_empty (l h : Q) (close volume : Series) :
  Forall finite close → (h <= l)%Q →
  volume_between (Fin l) (Fin h) close volume = of_Z 0.
Proof.
  intros Hc Hhl. unfold volume_between.
  replace (List.filter _ (zip close volume)) with (@nil (num * num)); [reflexivity |].
  pose proof (zip_finite_close close volume Hc) as Hz. revert Hz.
  generalize (zip close volume). intros cv Hz.
  induction cv as [|[c v] cv IH]; [reflexivity |].
  inversion Hz as [|? ? [q Hq]%finite_Fin Hz']; subst. simpl in Hq. subst c.
  cbn [List.filter fst num_leb num_ltb]. unfold Qltb.
  destruct (Qle_bool l q) eqn:E1, (Qle_bool h q) eqn:E2; reflect_Q; simpl;
    try (now apply IH); lra.
Qed.

Lemma foldl_add_shift (w : list num) :
  Forall finite w →
  ∀ a b : Q, ∃ ra rb : Q,
    foldl num_add (Fin a) w = Fin ra ∧ foldl num_add (Fin b) w = Fin rb
    ∧ (ra + b == rb + a)%Q.
Proof.
  induction w as [|x w IH]; intros Hw a b.
  - exists a, b. repeat split; try reflexivity. ring.
  - inversion Hw as [|? ? [q ->]%finite_Fin Hw']; subst.
    destruct (IH Hw' (a + q)%Q (b + q)%Q) as (ra & rb & Ha & Hb & Hab).
    exists ra, rb. repeat split; try assumption. lra.
Qed.

Lemma filter_notna_finite (s : Series) : Forall finite s → List.filter notna s = s.
Proof.
  induction 1 as [|x s [q ->]%finite_Fin _ IH]; [reflexivity |].
  simpl. now rewrite IH.
Qed.

Lemma series_min_finite (s : Series) :
  Forall finite s → s ≠ [] → ∃ q, series_min s = Fin q.
Proof.
  intros Hs Hne. apply finite_Fin. unfold series_min.
  rewrite filter_notna_finite by assumption. now apply min_finite.
Qed.

Lemma series_max_finite (s : Series) :
  Forall finite s → s ≠ [] → ∃ q, series_max s = Fin q.
Proof.
  intros Hs Hne. apply finite_Fin. unfold series_max.
  rewrite filter_notna_finite by assumption. now apply max_finite.
Qed.

(** Edges that never decrease, compared at a distance. *)
Lemma edges_chain (price_range : Series) :
  (∀ j, S j < length price_range → (price_range !!! j <= price_range !!! S j)%num) →
  (∀ j, j < length price_range → finite (price_range !!! j)) →
  ∀ k i, i + k < length price_range →
    ∃ l h, price_range !!! i = Fin l ∧ price_range !!! (i + k) = Fin h ∧ (l <= h)%Q.
Proof.
  intros Hmono Hfin. induction k as [|k IH]; intros i Hik.
  - destruct (proj1 (finite_Fin _) (Hfin i ltac:(lia))) as [l Hl].
    exists l, l. rewrite Nat.add_0_r. repeat split; try assumption. lra.
  - destruct (IH i ltac:(lia)) as (l & m & Hl & Hm & Hlm).
    destruct (proj1 (finite_Fin _) (Hfin (i + S k) ltac:(lia))) as [h Hh].
    exists l, h. repeat split; try assumption.
    pose proof (Hmono (i + k) ltac:(lia)) as Hstep.
    replace (S (i + k)) with (i + S k) in Hstep by lia.
    rewrite Hm, Hh in Hstep. unfold num_le in Hstep. simpl in Hstep. reflect_Q. lra.
Qed.

(** The buckets built from bucket [i] on add up to the volume between
    edge [i] and the last edge reached. *)
Lemma volume_profile_loop_total data (close volume price_range : Series) :
  getitem data "close" = Ok close → getitem data "volume" = Ok volume →
  Forall finite close → Forall finite volume →
  (∀ j, S j < length price_range → (price_range !!! j <= price_range !!! S j)%num) →
  (∀ j, j < length price_range → finite (price_range !!! j)) →
  ∀ k i, i + k < length price_range →
    ∃ profile r t,
      volume_profile_loop data price_range i k = Ok profile
      ∧ length profile = k
      ∧ sum profile = Fin r
      ∧ volume_between (price_range !!! i) (price_range !!! (i + k)) close volume = Fin t
      ∧ (r == t)%Q.
Proof.
  intros Hc Hv Hfc Hfv Hmono Hfin. induction k as [|k IH]; intros i Hik.
  - destruct (proj1 (finite_Fin _) (Hfin i ltac:(lia))) as [l Hl].
    exists [], (inject_Z 0), (inject_Z 0). rewrite Nat.add_0_r, Hl.
    repeat split; try reflexivity.
    apply volume_between_empty; [assumption | lra].
  - destruct (IH (S i) ltac:(lia)) as (profile & r & t & Hloop & Hlen & Hsum & Hvb & Hrt).
    destruct (edges_chain price_range Hmono Hfin 1 i ltac:(lia)) as (l & m & Hl & Hm & Hlm).
    destruct (edges_chain price_range Hmono Hfin k (S i) ltac:(lia))
      as (m' & h & Hm' & Hh & Hmh).
    replace (i + 1) with (S i) in Hm by lia.
    rewrite Hm in Hm'. injection Hm' as <-.
    replace (S i + k) with (i + S k) in * by lia.
    destruct (volume_between_split l m h close volume Hfc Hfv Hlm Hmh)
      as (r1 & r2 & r3 & H1 & H2 & H3 & H123).
    rewrite Hm, Hh, H2 in Hvb. injection Hvb as <-.
    assert (Hfp : Forall finite profile).
    { clear - Hsum. unfold sum in Hsum. revert Hsum. generalize (of_Z 0).
      induction profile as [|x w IHw]; intros z Hz; [constructor |].
      simpl in Hz.
      assert (Hstay : ∀ (w' : list num) y, ¬ finite y → ¬ finite (foldl num_add y w')).
      { induction w' as [|x' w' IHw']; intros y Hy; simpl; [assumption |].
        apply IHw'. destruct y, x'; simpl; unfold finite in *; simpl in *; congruence. }
      assert (Hzx : finite (z + x)%num).
      { destruct (decide (finite (z + x)%num)) as [|Hno]; [assumption |].
        exfalso. apply (Hstay w _ Hno). now rewrite Hz. }
      constructor; [| now apply (IHw (z + x)%num)].
      destruct z, x; unfold finite in *; simpl in *; congruence. }
    destruct (foldl_add_shift profile Hfp (inject_Z 0 + r1) (inject_Z 0))
      as (ra & rb & Ha & Hb & Hab).
    unfold sum, of_Z in Hsum. rewrite Hb in Hsum. injection Hsum as ->.
    exists (Fin r1 :: profile), ra, r3.
    cbn [volume_profile_loop]. rewrite Hc, Hv, !bind_Ok. cbv zeta.
    rewrite Hloop, bind_Ok, Hl, Hm, H1, Hh, H3.
    repeat split; try reflexivity.
    + simpl. now rewrite Hlen.
    + exact Ha.
    + unfold inject_Z in *. lra.
Qed.

(** The lower edge of a bucket matters only up to its value. *)
Lemma volume_between_lower_edge (l l' : Q) (hi : num) (close volume : Series) :
  (l == l')%Q →
  volume_between (Fin l) hi close volume = volume_between (Fin l') hi close volume.
Proof.
  intros Hll. unfold volume_between. do 2 f_equal.
  apply List.filter_ext. intros [c v]. f_equal.
  destruct c as [| | |q]; try reflexivity. cbn [fst num_leb].
  destruct (Qle_bool l q) eqn:E1, (Qle_bool l' q) eqn:E2; reflect_Q;
    try reflexivity; lra.
Qed.

(** X13: on finite prices and volumes, with at least two bins and the
    lowest low not above the highest high, [calculate_volume_profile]
    returns [bins] edges that start at the lowest low, end exactly at the
    highest high and never decrease, and [bins - 1] buckets whose volumes
    add up to the volume of the bars whose close [c] has
    [lowest low <= c < highest high]: a bar that closes at the highest
    high is in no bucket. *)
Theorem volume_profile_conserves_volume bins data (low high close volume : Series) :
  getitem data "low" = Ok low → getitem data "high" = Ok high →
  getitem data "close" = Ok close → getitem data "volume" = Ok volume →
  Forall finite low → Forall finite high →
  Forall finite close → Forall finite volume →
  low ≠ [] → high ≠ [] → length close = length volume →
  (series_min low <= series_max high)%num →
  2 ≤ bins →
  ∃ price_range volume_profile,
    calculate_volume_profile bins data = Ok (price_range, volume_profile)
    ∧ length price_range = bins ∧ length volume_profile = bins - 1
    ∧ (price_range !!! 0 == series_min low)%num
    ∧ price_range !!! (bins - 1) = series_max high
    ∧ (∀ i, S i < bins → (price_range !!! i <= price_range !!! S i)%num)
    ∧ (sum volume_profile ==
       volume_between (series_min low) (series_max high) close volume)%num.
Proof.
  intros Hl Hh Hc Hv Hfl Hfh Hfc Hfv Hnl Hnh _ Hle Hbins.
  destruct (series_min_finite low Hfl Hnl) as [a Ha].
  destruct (series_max_finite high Hfh Hnh) as [b Hb].
  rewrite Ha, Hb in *. unfold num_le in Hle. simpl in Hle. reflect_Q.
  set (price_range := linspace (Fin a) (Fin b) bins).
  assert (Hlen : length price_range = bins) by apply length_linspace.
  assert (Hmono : ∀ j, S j < length price_range →
                       (price_range !!! j <= price_range !!! S j)%num).
  { intros j Hj. apply linspace_monotone; [assumption | assumption | lia]. }
  assert (Hfin : ∀ j, j < length price_range → finite (price_range !!! j)).
  { intros j Hj. destruct (linspace_at a b bins j Hbins ltac:(lia)) as (q & Hq & _).
    unfold price_range. now rewrite Hq. }
  destruct (volume_profile_loop_total data close volume price_range Hc Hv Hfc Hfv
              Hmono Hfin (bins - 1) 0 ltac:(lia))
    as (profile & r & t & Hloop & Hlenp & Hsum & Hvb & Hrt).
  destruct (linspace_at a b bins 0 Hbins ltac:(lia)) as (q0 & Hq0 & Hq0' & _).
  destruct (linspace_at a b bins (bins - 1) Hbins ltac:(lia)) as (q1 & Hq1 & _ & Hq1').
  specialize (Hq1' eq_refl). subst q1.
  fold price_range in Hq0, Hq1. simpl in Hvb. rewrite Hq0, Hq1 in Hvb.
  rewrite (volume_between_lower_edge q0 a) in Hvb
    by (rewrite Hq0'; simpl; unfold Qdiv; ring).
  exists price_range, profile.
  unfold calculate_volume_profile. rewrite Hl, Hh, !bind_Ok. cbv zeta.
  rewrite Ha, Hb. fold price_range. rewrite Hlen, Hloop, bind_Ok.
  split; [reflexivity |]. split; [reflexivity |]. split; [assumption |].
  split; [rewrite Hq0; unfold num_eq; simpl; reflect_Q; rewrite Hq0'; simpl;
          unfold Qdiv; ring |].
  split; [assumption |].
  split; [intros i Hi; apply Hmono; lia |].
  rewrite Hsum, Hvb. unfold num_eq. simpl. now reflect_Q.
Qed.

Lemma volume_profile_conserves_volume_witness :
  ∃ price_range volume_profile,
    calculate_volume_profile 3 frame_bars = Ok (price_range, volume_profile)
    ∧ length price_range = 3 ∧ length volume_profile = 3 - 1
    ∧ (price_range !!! 0 == series_min bars_low)%num
    ∧ price_range !!! (3 - 1) = series_max bars_high
    ∧ (∀ i, S i < 3 → (price_range !!! i <= price_range !!! S i)%num)
    ∧ (sum volume_profile ==
       volume_between (series_min bars_low) (series_max bars_high) bars_close
         (of_Z <$> [9; 9; 9; 9; 9; 9]%Z))%num.
Proof.
  apply (volume_profile_conserves_volume 3 frame_bars bars_low bars_high bars_close
           (of_Z <$> [9; 9; 9; 9; 9; 9]%Z));
    try reflexivity; try (repeat constructor); try discriminate.
Defined.

Lemma volume_profile_loop_returns data (close volume price_range : Series) :
  getitem data "close" = Ok close → getitem data "volume" = Ok volume →
  ∀ k i, ∃ profile, volume_profile_loop data price_range i k = Ok profile.
Proof.
  intros Hc Hv. induction k as [|k IH]; intros i.
  - now exists [].
  - destruct (IH (S i)) as [profile Hp]. eexists.
    cbn [volume_profile_loop]. rewrite Hc, Hv, !bind_Ok. cbv zeta.
    rewrite Hp, bind_Ok. reflexivity.
Qed.

(** X14: [calculate_volume_profile] returns exactly when the frame has
    the columns low and high and, for two bins or more, close and volume
    as well: with fewer than two bins there is no bucket, and close and
    volume are never read. *)
Theorem volume_profile_returns_exactly_when bins data :
  (∃ r, calculate_volume_profile bins data = Ok r)
  ↔ (∃ low, getitem data "low" = Ok low)
    ∧ (∃ high, getitem data "high" = Ok high)
    ∧ (bins ≤ 1
       ∨ (∃ close, getitem data "close" = Ok close)
         ∧ (∃ volume, getitem data "volume" = Ok volume)).
Proof.
  unfold calculate_volume_profile. split.
  - intros [r H].
    destruct (getitem data "low") as [low|]; [| discriminate H].
    destruct (getitem data "high") as [high|]; [| discriminate H].
    rewrite !bind_Ok in H. cbv zeta in H. rewrite length_linspace in H.
    split; [eauto |]. split; [eauto |].
    destruct (decide (bins ≤ 1)) as [| Hbins]; [now left | right].
    destruct bins as [|[|k]]; try lia.
    cbn [Nat.sub volume_profile_loop] in H.
    destruct (getitem data "close") as [close|]; [| discriminate H].
    destruct (getitem data "volume") as [volume|]; [| discriminate H].
    eauto.
  - intros ([low ->] & [high ->] & Hrest). rewrite !bind_Ok. cbv zeta.
    rewrite length_linspace.
    destruct Hrest as [Hbins | [[close Hc] [volume Hv]]].
    + replace (bins - 1) with 0 by lia. eexists. reflexivity.
    + destruct (volume_profile_loop_returns data close volume
                  (linspace (series_min low) (series_max high) bins) Hc Hv
                  (bins - 1) 0) as [profile ->].
      eexists. reflexivity.
Qed.

(** ** Symbols and session state *)

(** X15: [get_hot_cryptos] never fails and prints what
    [get_available_pairs] prints; its symbols are the first symbols of
    the exchange in the order of the exchange: [limit] of them when
    [0 <= limit] and there are as many, all but the last [-limit] for a
    negative [limit], and none when the markets could not be loaded. *)
Theorem hot_cryptos_are_first_symbols (limit : Z) (markets : reply (list string)) :
  let pairs := (get_available_pairs markets).2 in
  let hot := (get_hot_cryptos limit markets).2 in
  (get_hot_cryptos limit markets).1 = (get_available_pairs markets).1
  ∧ hot `prefix_of` pairs
  ∧ length hot =
      (if decide (0 ≤ limit)%Z then Z.to_nat limit `min` length pairs
       else length pairs - Z.to_nat (- limit))
  ∧ (∀ e, markets = Failed e → hot = []).
Proof.
  cbv zeta. unfold get_hot_cryptos.
  destruct (get_available_pairs markets) as [out symbols] eqn:Hp.
  cbn [fst snd]. split; [reflexivity |].
  split; [| split].
  - unfold slice_to. destruct (0 <=? limit)%Z; apply prefix_take.
  - unfold slice_to. destruct (decide (0 ≤ limit)%Z) as [Hl | Hl].
    + rewrite (proj2 (Z.leb_le _ _) Hl), length_take. reflexivity.
    + rewrite (proj2 (Z.leb_gt _ _)) by lia. rewrite length_take. lia.
  - intros e ->. injection Hp as <- <-. unfold slice_to.
    destruct (0 <=? limit)%Z; apply take_nil.
Qed.

Lemma initialize_session_state_fixed {V : Type} (session_state : gmap string (option V)) :
  is_Some (session_state !! "selected_symbol") →
  is_Some (session_state !! "current_data") →
  initialize_session_state session_state = session_state.
Proof.
  intros H1 H2. unfold initialize_session_state.
  rewrite (decide_True (P := is_Some (session_state !! "selected_symbol"))) by assumption.
  now rewrite decide_True by assumption.
Qed.

Lemma initialize_session_state_lookup {V : Type}
    (session_state : gmap string (option V)) (name : string) :
  initialize_session_state session_state !! name =
    match session_state !! name with
    | Some value => Some value
    | None =>
        if decide (name ∈ ["selected_symbol"; "current_data"]) then Some None
        else None
    end.
Proof.
  unfold initialize_session_state.
  set (state := if decide (is_Some (session_state !! "selected_symbol"))
                then session_state
                else <["selected_symbol" := None]> session_state).
  assert (Hstate : state !! name =
                   match session_state !! name with
                   | Some value => Some value
                   | None => if decide (name = "selected_symbol") then Some None else None
                   end).
  { unfold state. destruct (decide (is_Some (session_state !! "selected_symbol")))
      as [H1 | H1%eq_None_not_Some].
    - destruct (session_state !! name) as [value|] eqn:Hn; [reflexivity |].
      rewrite decide_False; [reflexivity |]. intros ->.
      rewrite Hn in H1. now destruct H1.
    - destruct (decide (name = "selected_symbol")) as [-> | Hd].
      + now rewrite lookup_insert_eq, H1.
      + rewrite lookup_insert_ne by congruence. now destruct (session_state !! name). }
  assert (Hin : ∀ P Q : option (option V),
            (if decide (name ∈ ["selected_symbol"; "current_data"]) then P else Q) =
            if decide (name = "selected_symbol") then P
            else if decide (name = "current_data") then P else Q).
  { intros P Q.
    destruct (decide (name = "selected_symbol")) as [-> | Hd1];
      [now rewrite decide_True by is_listed |].
    destruct (decide (name = "current_data")) as [-> | Hd2];
      [now rewrite decide_True by is_listed |].
    rewrite decide_False; [reflexivity |].
    intros [-> | Hin%list_elem_of_singleton]%elem_of_cons; congruence. }
  rewrite Hin.
  destruct (decide (is_Some (state !! "current_data"))) as [H2 | H2%eq_None_not_Some].
  - rewrite Hstate. destruct (session_state !! name) as [value|] eqn:Hn; [reflexivity |].
    destruct (decide (name = "selected_symbol")); [reflexivity |].
    destruct (decide (name = "current_data")) as [-> | Hd]; [| reflexivity].
    rewrite Hstate in H2. destruct H2 as [value H2]. discriminate H2.
  - destruct (decide (name = "current_data")) as [-> | Hd].
    + rewrite lookup_insert_eq. rewrite Hstate in H2.
      destruct (session_state !! "current_data"); [discriminate H2 |].
      repeat case_decide; congruence.
    + rewrite lookup_insert_ne by congruence. rewrite Hstate.
      destruct (session_state !! name); [reflexivity |].
      repeat case_decide; congruence.
Qed.

(** X16: [initialize_session_state] leaves a session in which both
    names are set, keeps every value that was there (also under the two
    names), sets a name that was missing to [None], and changes nothing
    when it is run again. *)
Theorem session_state_is_initialized_once {V : Type}
    (session_state : gmap string (option V)) :
  let state := initialize_session_state session_state in
  is_Some (state !! "selected_symbol") ∧ is_Some (state !! "current_data")
  ∧ (∀ name value, session_state !! name = Some value → state !! name = Some value)
  ∧ (∀ name, session_state !! name = None →
       state !! name =
         if decide (name ∈ ["selected_symbol"; "current_data"]) then Some None
         else None)
  ∧ initialize_session_state state = state.
Proof.
  cbv zeta.
  assert (H1 : is_Some (initialize_session_state session_state !! "selected_symbol")).
  { rewrite initialize_session_state_lookup.
    destruct (session_state !! "selected_symbol"); [eauto |].
    rewrite decide_True by is_listed. eauto. }
  assert (H2 : is_Some (initialize_session_state session_state !! "current_data")).
  { rewrite initialize_session_state_lookup.
    destruct (session_state !! "current_data"); [eauto |].
    rewrite decide_True by is_listed. eauto. }
  split; [assumption |]. split; [assumption |].
  split; [| split].
  - intros name value Hn. now rewrite initialize_session_state_lookup, Hn.
  - intros name Hn. now rewrite initialize_session_state_lookup, Hn.
  - now apply initialize_session_state_fixed.
Qed.

(** ** The 20-bar channel around the 14-bar Fibonacci range *)

Lemma foldl_min_in (w : list num) a : foldl num_min a w ∈ a :: w.
Proof.
  revert a. induction w as [|y w IH]; intros a; simpl; [apply list_elem_of_here |].
  specialize (IH (num_min a y)). apply elem_of_cons in IH as [-> | IH].
  - unfold num_min. destruct (y <? a)%num.
    + apply list_elem_of_further, list_elem_of_here.
    + apply list_elem_of_here.
  - now do 2 apply list_elem_of_further.
Qed.

Lemma foldl_max_in (w : list num) a : foldl num_max a w ∈ a :: w.
Proof.
  revert a. induction w as [|y w IH]; intros a; simpl; [apply list_elem_of_here |].
  specialize (IH (num_max a y)). apply elem_of_cons in IH as [-> | IH].
  - unfold num_max. destruct (a <? y)%num.
    + apply list_elem_of_further, list_elem_of_here.
    + apply list_elem_of_here.
  - now do 2 apply list_elem_of_further.
Qed.

Lemma min_in (w : list num) : w ≠ [] → min_ w ∈ w.
Proof. destruct w; [congruence |]. intros _. apply foldl_min_in. Qed.

Lemma max_in (w : list num) : w ≠ [] → max_ w ∈ w.
Proof. destruct w; [congruence |]. intros _. apply foldl_max_in. Qed.

(** A shorter window ending at the same bar holds only bars of the longer
    one. *)
Lemma window_nested p q i (s : Series) x :
  p ≤ q → q ≤ S i → i < length s → x ∈ window p i s → x ∈ window q i s.
Proof.
  intros Hpq Hq Hi Hx. apply list_elem_of_lookup in Hx as [k Hk].
  assert (Hkp : k < p).
  { rewrite <- (length_window p i s ltac:(lia) Hi). eapply lookup_lt_Some, Hk. }
  apply list_lookup_total_correct in Hk. rewrite at_window in Hk by lia. subst x.
  apply list_elem_of_lookup. exists (q - p + k).
  assert (Hw : window q i s !!! (q - p + k) = s !!! (S i - p + k))
    by (rewrite at_window by lia; f_equal; lia).
  rewrite <- Hw. apply list_lookup_lookup_total_lt. rewrite length_window; lia.
Qed.

(** Where the extremum over the longer window is defined, the extremum
    over the shorter one is defined too and lies inside it. *)
Lemma rolling_extrema_nested p q (s : Series) i :
  1 ≤ p → p ≤ q → i < length s →
  (defined (rolling q min_ s !!! i) →
   defined (rolling p min_ s !!! i)
   ∧ (rolling q min_ s !!! i <= rolling p min_ s !!! i)%num)
  ∧ (defined (rolling q max_ s !!! i) →
     defined (rolling p max_ s !!! i)
     ∧ (rolling p max_ s !!! i <= rolling q max_ s !!! i)%num).
Proof.
  intros Hp Hpq Hi.
  assert (Hcommon : ∀ agg : list num → num, agg [] = NaN →
            defined (rolling q agg s !!! i) →
            q ≤ S i ∧ rolling q agg s !!! i = agg (window q i s)
            ∧ rolling p agg s !!! i = agg (window p i s)
            ∧ Forall defined (window q i s) ∧ Forall defined (window p i s)
            ∧ window p i s ≠ []).
  { intros agg Hnil Hdef.
    destruct (rolling_defined_window q agg s i i Hnil Hi Hdef ltac:(lia) ltac:(lia))
      as (Hq & Hwq & _).
    assert (Hqi : q ≤ S i).
    { rewrite at_rolling in Hdef by assumption.
      destruct (decide (S i < q)); [discriminate | lia]. }
    assert (Hwp : Forall defined (window p i s)).
    { apply Forall_forall. intros x Hx.
      exact (proj1 (Forall_forall _ _) Hwq x (window_nested p q i s x Hpq Hqi Hi Hx)). }
    repeat split; try assumption.
    - rewrite at_rolling by assumption. rewrite decide_False by lia.
      now rewrite (proj2 (forallb_notna _) Hwp).
    - intros Hnil'. pose proof (length_window p i s ltac:(lia) Hi) as Hlen.
      rewrite Hnil' in Hlen. simpl in Hlen. lia. }
  split; intros Hdef.
  - destruct (Hcommon min_ eq_refl Hdef) as (Hqi & -> & -> & Hwq & Hwp & Hne).
    pose proof (min_in _ Hne) as Hin. split.
    + exact (proj1 (Forall_forall _ _) Hwp _ Hin).
    + apply min_le_elem; [assumption |]. now apply (window_nested p q).
  - destruct (Hcommon max_ eq_refl Hdef) as (Hqi & -> & -> & Hwq & Hwp & Hne).
    pose proof (max_in _ Hne) as Hin. split.
    + exact (proj1 (Forall_forall _ _) Hwp _ Hin).
    + apply max_ge_elem; [assumption |]. now apply (window_nested p q).
Qed.

(** The four columns of the pipeline that are rolling extrema. *)
Lemma pipeline_channel_columns sqrtQ data (high low close : Series) symbol :
  index data ≠ [] →
  getitem data "high" = Ok high →
  getitem data "low" = Ok low →
  getitem data "close" = Ok close →
  ∃ d, fetch_and_analyze_data sqrtQ data symbol = ([], Ok (Some d))
       ∧ getitem d "Fib_0" = Ok (rolling 14 min_ low)
       ∧ getitem d "Fib_100" = Ok (rolling 14 max_ high)
       ∧ getitem d "Support" = Ok (rolling 20 min_ low)
       ∧ getitem d "Resistance" = Ok (rolling 20 max_ high).
Proof.
  intros Hidx Hh Hl Hc.
  assert (Hdata : price_frame data high low close) by (repeat split; assumption).
  assert (Hne : empty_ data = false).
  { unfold empty_. rewrite bool_decide_eq_false_2 by assumption.
    rewrite bool_decide_eq_false_2; [reflexivity |].
    intros Hemp. unfold getitem in Hc. rewrite Hemp, lookup_empty in Hc. discriminate. }
  assert (∃ A, writes (calculate_all_indicators sqrtQ) high low close A
               ∧ A.*1 = ["RSI"; "MACD"; "Signal_Line"; "BB_middle"; "BB_upper";
                         "BB_lower"; "Fib_0"; "Fib_236"; "Fib_382"; "Fib_500";
                         "Fib_618"; "Fib_100"]
               ∧ ("Fib_0", rolling 14 min_ low) ∈ A
               ∧ ("Fib_100", rolling 14 max_ high) ∈ A)
    as (A & WA & KA & F0 & F100).
  { eexists. split.
    - unfold calculate_all_indicators.
      apply (writes_bind (calculate_rsi 14)); [apply writes_rsi | | cbn; not_listed ..].
      apply (writes_bind (calculate_macd 12 26 9));
        [apply writes_macd | | cbn; not_listed ..].
      apply (writes_bind (calculate_bollinger_bands sqrtQ 20 (of_Z 2)));
        [apply writes_bollinger | | cbn; not_listed ..].
      apply writes_fibonacci.
    - split; [reflexivity |]. split; cbn; is_listed. }
  assert (∃ B, writes (calculate_support_resistance 20) high low close B
               ∧ B.*1 = ["Support"; "Resistance"]
               ∧ ("Support", rolling 20 min_ low) ∈ B
               ∧ ("Resistance", rolling 20 max_ high) ∈ B)
    as (B & WB & KB & Sup & Res).
  { eexists. split; [apply writes_support_resistance |].
    split; [reflexivity |]. split; is_listed. }
  destruct (momentum_write 14 high low close 0) as (C & KC & _ & WC).
  destruct (pivot_points_write high low close 0) as (D & KD & _ & WD).
  assert (HA : price_frame (assign data A) high low close)
    by (apply price_frame_assign; [assumption | rewrite KA; not_listed ..]).
  assert (HB : price_frame (assign (assign data A) B) high low close)
    by (apply price_frame_assign; [assumption | rewrite KB; not_listed ..]).
  assert (HC : price_frame (assign (assign (assign data A) B) C) high low close)
    by (apply price_frame_assign; [assumption | rewrite KC; not_listed ..]).
  unfold fetch_and_analyze_data. rewrite Hne.
  rewrite (WA data Hdata). simpl.
  rewrite (WB _ HA). simpl. rewrite (WC _ HB). simpl. rewrite (WD _ HC). simpl.
  rewrite !assign_app.
  assert (Hkeys : (A ++ B ++ C ++ D).*1 = indicator_columns)
    by (rewrite !fmap_app, KA, KB, KC, KD; reflexivity).
  assert (Hnd : NoDup ((A ++ B ++ C ++ D).*1))
    by (rewrite Hkeys; apply NoDup_indicator_columns).
  eexists. split; [reflexivity |].
  split; [| split; [| split]]; apply getitem_assign_in; try assumption;
    rewrite !elem_of_app; auto 10.
Qed.

(** X17: in the frame the pipeline returns, the 20-bar channel encloses
    the 14-bar Fibonacci range: wherever Support is defined, Fib_0 is
    defined and Support <= Fib_0, and wherever Resistance is defined,
    Fib_100 is defined and Fib_100 <= Resistance. *)
Theorem channel_encloses_fibonacci_range sqrtQ data (high low close : Series) symbol :
  index data ≠ [] →
  getitem data "high" = Ok high →
  getitem data "low" = Ok low →
  getitem data "close" = Ok close →
  ∃ d, fetch_and_analyze_data sqrtQ data symbol = ([], Ok (Some d)) ∧
    ∀ i,
      let v key := column d key !!! i in
      (i < length low → defined (v "Support") →
       defined (v "Fib_0") ∧ (v "Support" <= v "Fib_0")%num)
      ∧ (i < length high → defined (v "Resistance") →
         defined (v "Fib_100") ∧ (v "Fib_100" <= v "Resistance")%num).
Proof.
  intros Hidx Hh Hl Hc.
  destruct (pipeline_channel_columns sqrtQ data high low close symbol Hidx Hh Hl Hc)
    as (d & Hd & H0 & H100 & Hs & Hr).
  exists d. split; [exact Hd |]. intros i. cbv zeta beta.
  rewrite (column_getitem _ _ _ H0), (column_getitem _ _ _ H100),
    (column_getitem _ _ _ Hs), (column_getitem _ _ _ Hr). split; intros Hi Hdef.
  - destruct (rolling_extrema_nested 14 20 low i ltac:(lia) ltac:(lia) Hi) as [Hmin _].
    now apply Hmin.
  - destruct (rolling_extrema_nested 14 20 high i ltac:(lia) ltac:(lia) Hi) as [_ Hmax].
    now apply Hmax.
Qed.

Lemma channel_encloses_fibonacci_range_witness :
  ∃ d, fetch_and_analyze_data isqrtQ
         (fetch_ohlcv in_range_date (Returned example_rows)).2 "BTC/USDT" =
         ([], Ok (Some d)) ∧
    ∀ i,
      let v key := column d key !!! i in
      (i < length (row_low <$> example_rows) → defined (v "Support") →
       defined (v "Fib_0") ∧ (v "Support" <= v "Fib_0")%num)
      ∧ (i < length (row_high <$> example_rows) → defined (v "Resistance") →
         defined (v "Fib_100") ∧ (v "Fib_100" <= v "Resistance")%num).
Proof.
  apply (channel_encloses_fibonacci_range isqrtQ
           (fetch_ohlcv in_range_date (Returned example_rows)).2
           (row_high <$> example_rows) (row_low <$> example_rows)
           (row_close <$> example_rows) "BTC/USDT");
    [discriminate | reflexivity ..].
Defined.

(** On the thirty example bars the channel has a value from bar 19 on,
    and at the last bar Support = Fib_0 = 63 while Fib_100 = 100 lies
    below Resistance = 113. *)
Example channel_on_example_rows :
  let low := row_low <$> example_rows in
  let high := row_high <$> example_rows in
  same_series (drop 18 (rolling 20 min_ low))
    (NaN :: (of_Z <$> [88; 86; 83; 81; 78; 76; 73; 71; 68; 68; 63]%Z)) = true
  ∧ same_series (drop 18 (rolling 14 min_ low))
      (of_Z <$> [91; 88; 86; 83; 81; 78; 76; 73; 71; 68; 68; 63]%Z) = true
  ∧ same_series (drop 18 (rolling 20 max_ high))
      (NaN :: (of_Z <$> [113; 113; 113; 113; 113; 113; 113; 113; 113; 113; 113]%Z))
    = true
  ∧ same_series (drop 18 (rolling 14 max_ high))
      (of_Z <$> [113; 113; 113; 113; 113; 113; 112; 110; 107; 105; 102; 100]%Z)
    = true.
Proof. cbv zeta. repeat split; vm_compute; reflexivity. Qed.

(** ** Bollinger bands around the window mean *)

Lemma foldl_add_between (lo hi : Q) (w : list num) :
  Forall (λ x, ∃ q, x = Fin q ∧ (lo <= q)%Q ∧ (q <= hi)%Q) w →
  ∀ a : Q, ∃ r : Q,
    foldl num_add (Fin a) w = Fin r
    ∧ (a + inject_Z (Z.of_nat (length w)) * lo <= r)%Q
    ∧ (r <= a + inject_Z (Z.of_nat (length w)) * hi)%Q.
Proof.
  induction 1 as [|x w (q & -> & Hlo & Hhi) _ IH]; intros a.
  - exists a. split; [reflexivity |].
    change (inject_Z (Z.of_nat (length (@nil num)))) with 0%Q. split; lra.
  - destruct (IH (a + q)%Q) as (r & Hr & Hrl & Hrh).
    exists r. split; [exact Hr |].
    assert (Hn : (inject_Z (Z.of_nat (length (Fin q :: w)))
                  == inject_Z (Z.of_nat (length w)) + 1)%Q).
    { cbn [length]. rewrite Nat2Z.inj_succ. unfold Z.succ.
      rewrite inject_Z_plus. reflexivity. }
    rewrite Hn. set (n := inject_Z (Z.of_nat (length w))) in *. split; lra.
Qed.

(** The mean of finite values lies between their minimum and maximum. *)
Lemma mean_between_extrema (w : list num) :
  w ≠ [] → Forall finite w →
  (min_ w <= mean w)%num ∧ (mean w <= max_ w)%num.
Proof.
  intros Hne Hw.
  destruct (proj1 (finite_Fin _) (min_finite w Hne Hw)) as [lo Hlo].
  destruct (proj1 (finite_Fin _) (max_finite w Hne Hw)) as [hi Hhi].
  assert (Hd : Forall defined w)
    by (eapply Forall_impl; [exact Hw | apply finite_defined]).
  assert (Hb : Forall (λ x, ∃ q, x = Fin q ∧ (lo <= q)%Q ∧ (q <= hi)%Q) w).
  { apply Forall_forall. intros x Hx.
    destruct (proj1 (finite_Fin _) (proj1 (Forall_forall _ _) Hw x Hx)) as [q ->].
    pose proof (min_le_elem w _ Hd Hx) as H1. pose proof (max_ge_elem w _ Hd Hx) as H2.
    rewrite Hlo in H1. rewrite Hhi in H2. unfold num_le in H1, H2. simpl in H1, H2.
    reflect_Q. eauto. }
  destruct (foldl_add_between lo hi w Hb (inject_Z 0)) as (r & Hr & Hrl & Hrh).
  assert (Hn : (0 < inject_Z (Z.of_nat (length w)))%Q).
  { change 0%Q with (inject_Z 0). rewrite <- Zlt_Qlt.
    destruct w; [congruence | simpl; lia]. }
  rewrite Hlo, Hhi. unfold mean, sum, of_Z. rewrite Hr. simpl.
  rewrite Qeq_bool_of_nat_pos by (destruct w; [congruence | simpl; lia]).
  unfold num_le. simpl. split; reflect_Q.
  - apply Qle_shift_div_l; [assumption |]. unfold inject_Z in *. lra.
  - apply Qle_shift_div_r; [assumption |]. unfold inject_Z in *. lra.
Qed.

Lemma window_elements p i (s : Series) x :
  p ≤ S i → i < length s → x ∈ window p i s →
  ∃ j, S i - p ≤ j ∧ j ≤ i ∧ x = s !!! j.
Proof.
  intros Hp Hi Hx. apply list_elem_of_lookup in Hx as [k Hk].
  assert (Hkp : k < p).
  { rewrite <- (length_window p i s Hp Hi). eapply lookup_lt_Some, Hk. }
  apply list_lookup_total_correct in Hk. rewrite at_window in Hk by lia.
  exists (S i - p + k). repeat split; [lia | lia | now symmetry].
Qed.

(** X18: on finite closes and with a finite multiplier, wherever
    BB_upper is defined the two bands are equally far from the middle
    band, and the middle band lies between two closes of its window. *)
Theorem bollinger_bands_centred sqrtQ period std_dev data (close : Series) :
  getitem data "close" = Ok close →
  Forall finite close →
  finite std_dev →
  ∃ d, calculate_bollinger_bands sqrtQ period std_dev data = Ok d ∧
    ∀ i, i < length close →
      let v key := column d key !!! i in
      defined (v "BB_upper") →
      (v "BB_upper" - v "BB_middle" == v "BB_middle" - v "BB_lower")%num
      ∧ ∃ j k, (S i - period ≤ j ∧ j ≤ i) ∧ (S i - period ≤ k ∧ k ≤ i)
               ∧ (close !!! j <= v "BB_middle")%num
               ∧ (v "BB_middle" <= close !!! k)%num.
Proof.
  intros Hc Hfin [k ->]%finite_Fin.
  unfold calculate_bollinger_bands. run_indicator.
  eexists; split; [reflexivity |].
  intros i Hi. cbv zeta. read_columns. pointwise.
  rewrite !at_rolling by assumption.
  destruct (decide (S i < period)) as [| Hp]; [discriminate |].
  pose proof (Forall_window _ period i close Hfin) as Hw.
  rewrite (proj2 (forallb_notna _))
    by (eapply Forall_impl; [exact Hw | apply finite_defined]).
  destruct (decide (period ≤ 1)) as [Hsmall | Hbig].
  { assert (Hlen : length (window period i close) = period)
      by (apply length_window; lia).
    destruct (decide (period = 0)) as [E0 | E0].
    - destruct (window period i close); [discriminate | simpl in Hlen; lia].
    - rewrite (std_single sqrtQ) by (assumption || lia).
      destruct (mean (window period i close)); discriminate. }
  assert (Hlen : length (window period i close) = period)
    by (apply length_window; lia).
  assert (Hne : window period i close ≠ [])
    by (intros E; rewrite E in Hlen; simpl in Hlen; lia).
  destruct (proj1 (finite_Fin _) (std_finite sqrtQ (window period i close) ltac:(lia) Hw))
    as [s ->].
  destruct (mean_between_extrema _ Hne Hw) as [Hmin Hmax].
  destruct (window_elements period i close _ ltac:(lia) Hi (min_in _ Hne))
    as (j & Hj1 & Hj2 & Ej).
  destruct (window_elements period i close _ ltac:(lia) Hi (max_in _ Hne))
    as (j' & Hj1' & Hj2' & Ej').
  rewrite Ej in Hmin. rewrite Ej' in Hmax.
  destruct (proj1 (finite_Fin _) (mean_finite _ Hne Hw)) as [m Hm].
  rewrite Hm in *. intros _. split.
  - unfold num_eq. simpl. reflect_Q. ring.
  - exists j, j'. repeat split; assumption.
Qed.

Lemma bollinger_bands_centred_witness :
  ∃ d, calculate_bollinger_bands isqrtQ 3 (of_Z 2) frame_bars = Ok d ∧
    ∀ i, i < length bars_close →
      let v key := column d key !!! i in
      defined (v "BB_upper") →
      (v "BB_upper" - v "BB_middle" == v "BB_middle" - v "BB_lower")%num
      ∧ ∃ j k, (S i - 3 ≤ j ∧ j ≤ i) ∧ (S i - 3 ≤ k ∧ k ≤ i)
               ∧ (bars_close !!! j <= v "BB_middle")%num
               ∧ (v "BB_middle" <= bars_close !!! k)%num.
Proof.
  apply (bollinger_bands_centred isqrtQ 3 (of_Z 2) frame_bars bars_close);
    [reflexivity | repeat constructor | reflexivity].
Defined.

(** ** What the rounding of binary64 changes

    The properties above that compare results of different roundings
    hold in exact arithmetic; here are the formulas of the source on
    binary64 numbers. *)





(** In binary64 the pivot levels keep their order and their spacing up
    to rounding only.  On the bar high 100.00000000000001, low 100,
    close 100 (high > low) PP and R1 are both 100.  On the flat bar
    0.1, 0.1, 0.1 S1 is 0.10000000000000003, above PP
    0.10000000000000002.  On the bar 0.3, 0.1, 0.2 R1 - S1 is
    0.19999999999999996 and high - low is 0.19999999999999998.  On the
    bar 1.7e308, -0.2e308, 1e308 of finite prices S2 is not-a-number. *)
Example pivot_levels_round_in_binary64 :
  Binary64.calculate_pivot_points 100.00000000000001 100 100
    = [100; 100; 99.999999999999986; 100.00000000000001; 99.999999999999986]%float
  ∧ Binary64.calculate_pivot_points 0.1 0.1 0.1
    = [0.10000000000000002; 0.10000000000000003; 0.10000000000000003;
       0.10000000000000002; 0.10000000000000002]%float
  ∧ (let levels := Binary64.calculate_pivot_points 0.3 0.1 0.2 in
     (nth 1 levels nan - nth 2 levels nan)%float = 0.19999999999999996%float
     ∧ (0.3 - 0.1)%float = 0.19999999999999998%float)
  ∧ (is_nan <$> Binary64.calculate_pivot_points 1.7e308 (-0.2e308) 1e308)
    = [false; false; false; false; true].
Proof. repeat split; vm_compute; reflexivity. Qed.

(** In binary64 the difference [high_max - low_min] overflows when the
    low is negative and large: with high_max 1.797e308 and low_min
    -1.797e308 the four middle levels are infinite, above Fib_100. *)
Example fibonacci_levels_overflow_in_binary64 :
  Binary64.calculate_fibonacci_levels 1.797e308 (-1.797e308)
  = [(-1.797e308); infinity; infinity; infinity; infinity; 1.797e308]%float.
Proof. vm_compute. reflexivity. Qed.

(** ** The strict orders, in exact arithmetic *)

(** X19: in exact arithmetic (before the rounding and the overflow of
    binary64), the five pivot columns have a value at every bar of a
    series of finite prices, and on every bar with high > low whose close
    lies between low and high, S1 < PP < R1.  In binary64 the strict
    order can collapse and even turn, see
    [pivot_levels_round_in_binary64]. *)
Theorem pivot_points_defined_and_ordered data high low close :
  getitem data "high" = Ok high →
  getitem data "low" = Ok low →
  getitem data "close" = Ok close →
  length high = length close →
  length low = length close →
  Forall finite high → Forall finite low → Forall finite close →
  ∃ d, calculate_pivot_points data = Ok d ∧
    ∀ i, i < length close →
      let v key := column d key !!! i in
      (defined (v "PP") ∧ defined (v "R1") ∧ defined (v "S1")
         ∧ defined (v "R2") ∧ defined (v "S2"))
      ∧ ((low !!! i < high !!! i)%num →
         (low !!! i <= close !!! i)%num →
         (close !!! i <= high !!! i)%num →
         (v "S1" < v "PP")%num ∧ (v "PP" < v "R1")%num).
Proof.
  intros Hh Hl Hc Lh Ll Fh Fl Fc.
  unfold calculate_pivot_points. run_indicator.
  eexists; split; [reflexivity |].
  intros i Hi. cbv zeta. read_columns. pointwise.
  destruct (proj1 (finite_Fin _) (Forall_at _ high i Fh ltac:(lia))) as [h ->].
  destruct (proj1 (finite_Fin _) (Forall_at _ low i Fl ltac:(lia))) as [l ->].
  destruct (proj1 (finite_Fin _) (Forall_at _ close i Fc ltac:(lia))) as [c ->].
  split; [repeat split |].
  intros Hlh Hlc Hch. unfold num_lt, num_le in Hlh, Hlc, Hch. simpl in Hlh, Hlc, Hch.
  reflect_Q. now apply pivot_order.
Qed.

Lemma pivot_points_defined_and_ordered_witness :
  ∃ d, calculate_pivot_points frame_bars = Ok d ∧
    ∀ i, i < length bars_close →
      let v key := column d key !!! i in
      (defined (v "PP") ∧ defined (v "R1") ∧ defined (v "S1")
         ∧ defined (v "R2") ∧ defined (v "S2"))
      ∧ ((bars_low !!! i < bars_high !!! i)%num →
         (bars_low !!! i <= bars_close !!! i)%num →
         (bars_close !!! i <= bars_high !!! i)%num →
         (v "S1" < v "PP")%num ∧ (v "PP" < v "R1")%num).
Proof.
  apply (pivot_points_defined_and_ordered frame_bars bars_high bars_low bars_close);
    try reflexivity; repeat constructor.
Defined.

(** X21: in exact arithmetic (before the rounding of binary64), on a
    series of finite closes RSI is 100 only where the rolling loss is 0
    and the rolling gain is positive.  In binary64 it is not so: a
    relative strength of 2^54 or more also rounds to 100. *)
Theorem rsi_maximum_only_without_loss period data close :
  getitem data "close" = Ok close →
  Forall finite close →
  ∃ d, calculate_rsi period data = Ok d ∧
    ∀ i, i < length close →
      let rsi := column d "RSI" !!! i in
      let gain := rsi_gain period close !!! i in
      let loss := rsi_loss period close !!! i in
      (rsi == of_Z 100)%num → (loss == of_Z 0)%num ∧ (of_Z 0 < gain)%num.
Proof.
  intros Hc Hfin.
  unfold calculate_rsi. run_indicator.
  eexists; split; [reflexivity |].
  intros i Hi. cbv zeta. read_columns. pointwise.
  destruct (rsi_gain_cases period close i Hfin Hi) as [-> | (g & -> & Hg)];
    [discriminate |].
  destruct (rsi_loss_cases period close i Hfin Hi) as [-> | (l & -> & Hl)];
    [discriminate |].
  intros H100. apply (rsi_value g l Hg Hl); [| exact H100].
  unfold defined. now destruct (of_Z 100 - of_Z 100 / (of_Z 1 + Fin g / Fin l))%num.
Qed.

Lemma rsi_maximum_only_without_loss_witness :
  ∃ d, calculate_rsi 2 frame_bars = Ok d ∧
    ∀ i, i < length bars_close →
      let rsi := column d "RSI" !!! i in
      let gain := rsi_gain 2 bars_close !!! i in
      let loss := rsi_loss 2 bars_close !!! i in
      (rsi == of_Z 100)%num → (loss == of_Z 0)%num ∧ (of_Z 0 < gain)%num.
Proof.
  apply (rsi_maximum_only_without_loss 2 frame_bars bars_close);
    [reflexivity | repeat constructor].
Defined.
